(** * Synchronization primitives: standard and fair mutexes with deadlock
      detection

    A shallow embedding of [include/sync_prim/mutex/Mutex.h] and
    [include/sync_prim/mutex/FairMutex.h].

    Conventions.
    - Mutex objects and other pointees are identified by their address, an
      integer; [nullptr] is address 0.
    - [ThreadRegistry::ThreadID()] is the identity of the calling thread; every
      method takes it as its first argument [me].
    - Machine integers are integers of [Z] with the wrap-around written out.
    - A method is a computation over a [World]: the shared memory together
      with the moves the other threads still make.  The other threads move
      where the code leaves room for them: between a load and the
      compare-exchange that follows it, at [_mm_pause()], while the caller
      sleeps in the parking lot, and while it waits for a lock, be it a
      bucket of the parking lot or a [std::mutex].
    - A [while (true)] is a recursion on the passes it may still make.  A
      loop that repeats only after another thread has moved gets one pass
      more than the other threads have moves left; a loop that can spin for
      ever takes its passes from the caller. *)

From stdpp Require Import base option list gmap.
From Stdlib Require Import ZArith Lia Bool Sorted.

Local Open Scope Z_scope.

(* ================================================================== *)
(** * Definitions *)
(* ================================================================== *)

(** ** What [common.h] provides *)

(** [ThreadRegistry::MAX_THREADS], a compile-time constant of the registry. *)
Class ThreadRegistry := { MAX_THREADS : Z }.

(** Modelled from the spec: [ThreadRegistry::INVALID_THREADID] is declared in
    [common.h]; the spec gives [INVALID_THREADID = MAX_THREADS]. *)
Definition INVALID_THREADID `{ThreadRegistry} : Z := MAX_THREADS.

(** The identifiers [ThreadRegistry::ThreadID()] can return: [0, MAX_THREADS). *)
Definition valid_thread `{ThreadRegistry} (t : Z) : Prop := 0 <= t < MAX_THREADS.

Inductive MutexLockResult := LOCKED | DEADLOCKED.

Definition nullptr : Z := 0.

Definition CHAR_BIT : Z := 8.

(** Modelled from the spec: [thread_id_t] is declared in [common.h]; the spec
    describes it as a signed integer that shares a packed 64-bit word with a
    32-bit counter, so it is four bytes wide. *)
Definition sizeof_thread_id_t : Z := 4.

(** Two's complement and unsigned wrap-around at [bits] bits. *)
Definition wrap_signed (bits x : Z) : Z :=
  (x + 2 ^ (bits - 1)) mod 2 ^ bits - 2 ^ (bits - 1).

Definition wrap_unsigned (bits x : Z) : Z := x mod 2 ^ bits.

(** ** Computations interleaved with other threads *)

Section Interleaving.
Context {Mem : Type}.

Record World := mkWorld { mem : Mem; env : list (Mem -> Mem) }.

(** [None]: the caller never returns (it blocks or spins for ever), or the
    source has no defined behaviour. *)
Definition M (A : Type) : Type := World -> option (A * World).

Definition ret {A} (a : A) : M A := fun w => Some (a, w).

Definition bind {A B} (c : M A) (k : A -> M B) : M B :=
  fun w => match c w with
           | Some (a, w') => k a w'
           | None => None
           end.

Definition stuck {A} : M A := fun _ => None.

Definition gets {A} (f : Mem -> A) : M A := fun w => Some (f (mem w), w).

Definition modify (f : Mem -> Mem) : M unit :=
  fun w => Some (tt, mkWorld (f (mem w)) (env w)).

(** The other threads make their next move, if they have one left. *)
Definition moved (w : World) : World :=
  match env w with
  | [] => w
  | f :: rest => mkWorld (f (mem w)) rest
  end.

Definition yield : M unit := fun w => Some (tt, moved w).

Definition _mm_pause : M unit := yield.
End Interleaving.

Arguments World : clear implicits.
Arguments M : clear implicits.

Notation "'let*' x := c1 'in' c2" := (bind c1 (fun x => c2))
  (at level 10, x name, c1 at level 100, c2 at level 200).
Notation "'let*' ' pat := c1 'in' c2" :=
  (bind c1 (fun x => match x with pat => c2 end))
  (at level 10, pat pattern, c1 at level 100, c2 at level 200).
Notation "c1 >> c2" := (bind c1 (fun _ => c2))
  (at level 99, c2 at level 200, right associativity).

(** ** The parking lot *)

(** Modelled from the spec: [folly::ParkingLot] is an external collaborator.
    It is a keyed queue of sleeping threads: [park] suspends the caller iff
    [validate()] holds, evaluated atomically with the enqueue; [park_for]
    adds a timeout; [unpark] scans the waiters of a key in arrival order and
    applies the filter's [{Retain|Remove} x {Break|Continue}] decision to each. *)
Module ParkingLot.
Inductive ParkResult := Skip | Unpark | Timeout.

Inductive UnparkControl :=
  RetainContinue | RemoveContinue | RetainBreak | RemoveBreak.

Record WaitNode (D : Type) := mkNode { owner : Z; data : D }.
Arguments mkNode {D}.
Arguments owner {D}.
Arguments data {D}.

Section Lot.
Context {Mem D : Type}.
Variable get_lot : Mem -> gmap Z (list (WaitNode D)).
Variable set_lot : gmap Z (list (WaitNode D)) -> Mem -> Mem.

Definition queue (key : Z) (m : Mem) : list (WaitNode D) :=
  default [] (get_lot m !! key).

Definition set_queue (key : Z) (q : list (WaitNode D)) (m : Mem) : Mem :=
  set_lot (<[key := q]> (get_lot m)) m.

Definition parked (t key : Z) (m : Mem) : bool :=
  existsb (fun n => owner n =? t) (queue key m).

Definition enqueue (key : Z) (n : WaitNode D) (m : Mem) : Mem :=
  set_queue key (queue key m ++ [n]) m.

Definition dequeue (t key : Z) (m : Mem) : Mem :=
  set_queue key (filter (fun n => negb (owner n =? t)) (queue key m)) m.

(** The caller takes the lock of the bucket, validates and enqueues,
    and sleeps while the other threads make their move; it wakes once
    one of them has removed its node. *)
Definition park (me key : Z) (d : D) (validate : Mem -> bool)
  : M Mem ParkResult :=
  yield >>
  let* v := gets validate in
  if v then
    modify (enqueue key (mkNode me d)) >>
    yield >>
    let* asleep := gets (parked me key) in
    if asleep then stuck else ret Unpark
  else ret Skip.

(** As [park]; a caller nobody has woken leaves the queue by itself. *)
Definition park_for (me key : Z) (d : D) (validate : Mem -> bool)
  : M Mem ParkResult :=
  yield >>
  let* v := gets validate in
  if v then
    modify (enqueue key (mkNode me d)) >>
    yield >>
    let* asleep := gets (parked me key) in
    if asleep then modify (dequeue me key) >> ret Timeout else ret Unpark
  else ret Skip.

(** The scan; [S] is what the filter's closure captures by reference.
    The result is the queue that stays behind. *)
Fixpoint unpark_scan {S : Type}
    (filter : D -> S -> M Mem (UnparkControl * S))
    (q : list (WaitNode D)) (s : S) : M Mem (list (WaitNode D) * S) :=
  match q with
  | [] => ret ([], s)
  | n :: rest =>
      let* '(ctl, s1) := filter (data n) s in
      match ctl with
      | RetainContinue =>
          let* '(r, s2) := unpark_scan filter rest s1 in ret (n :: r, s2)
      | RemoveContinue => unpark_scan filter rest s1
      | RetainBreak => ret (n :: rest, s1)
      | RemoveBreak => ret (rest, s1)
      end
  end.

(** The caller takes the lock of the bucket and holds it during the
    scan: the queue that the scan leaves replaces the one it started
    from. *)
Definition unpark {S : Type} (key : Z)
    (filter : D -> S -> M Mem (UnparkControl * S)) (s : S) : M Mem S :=
  yield >>
  let* q := gets (queue key) in
  let* '(r, s1) := unpark_scan filter q s in
  modify (set_queue key r) >>
  ret s1.
End Lot.
End ParkingLot.

Import ParkingLot.

(** ** [Mutex.h]: the standard mutex, [MutexImpl<EnableDeadlockDetection>] *)

Module Mutex.
Inductive LockState := LS_UNLOCKED | LS_LOCKED | LS_CONTENTED.

(** [std::conditional_t<EnableDeadlockDetection, thread_id_t, LockState>] *)
Definition WordType (E : bool) : Type := if E then Z else LockState.

(** *** The methods of [LockWord] *)
Module Word.
Definition LockState_eqb (a b : LockState) : bool :=
  match a, b with
  | LS_UNLOCKED, LS_UNLOCKED | LS_LOCKED, LS_LOCKED
  | LS_CONTENTED, LS_CONTENTED => true
  | _, _ => false
  end.

Definition M_CONTENDED_MASK : Z :=
  wrap_signed (sizeof_thread_id_t * CHAR_BIT)
              (Z.shiftl 1 (sizeof_thread_id_t * CHAR_BIT - 1)).

Definition M_UNLOCKED : Z := Z.land (-1) (Z.lnot M_CONTENDED_MASK).

Definition eqb {E : bool} : WordType E -> WordType E -> bool :=
  match E with
  | true => Z.eqb
  | false => LockState_eqb
  end.

Definition get_unlocked_word (E : bool) : WordType E :=
  match E with
  | true => M_UNLOCKED
  | false => LS_UNLOCKED
  end.

Definition get_value {E : bool} (word : WordType E) : WordType E := word.

Definition is_locked {E : bool} (word : WordType E) : bool :=
  negb (eqb word (get_value (get_unlocked_word E))).

Definition is_lock_contented {E : bool} : WordType E -> bool :=
  match E with
  | true => fun word => Z.land word M_CONTENDED_MASK =? 0
  | false => fun word => LockState_eqb word LS_CONTENTED
  end.

Definition as_uncontented_word {E : bool} : WordType E -> WordType E :=
  match E with
  | true => fun word => Z.land word (Z.lnot M_CONTENDED_MASK)
  | false => fun _ => LS_LOCKED
  end.

Definition get_contented_word (E : bool) (me : Z) : WordType E :=
  match E with
  | true => Z.lor me M_CONTENDED_MASK
  | false => LS_CONTENTED
  end.

Definition get_lock_word (E : bool) (me : Z) : WordType E :=
  match E with
  | true => me
  | false => LS_LOCKED
  end.
End Word.

(** *** The memory the mutexes of one instantiation share *)

Record Mem (E : bool) := mkMem {
  (** the [word] member of each mutex object *)
  words : gmap Z (WordType E);
  (** [thread_waiting_on], an array of [MAX_THREADS] pointers *)
  thread_waiting_on : gmap Z Z;
  (** [parkinglot], a [folly::ParkingLot<std::nullptr_t>] *)
  parkinglot : gmap Z (list (WaitNode unit));
  (** whether some thread holds [dead_lock_verify_mutex] *)
  dead_lock_verify_mutex : bool
}.
Arguments mkMem {E}.
Arguments words {E}.
Arguments thread_waiting_on {E}.
Arguments parkinglot {E}.
Arguments dead_lock_verify_mutex {E}.

Section Impl.
Context `{ThreadRegistry}.
Context {E : bool}.

(** An object nobody has stored to yet holds its initialiser,
    [word{LockWord::get_unlocked_word()}]; the arrays start zeroed. *)
Definition word_at (this : Z) (m : Mem E) : WordType E :=
  default (Word.get_unlocked_word E) (words m !! this).

Definition store_word (this : Z) (v : WordType E) (m : Mem E) : Mem E :=
  mkMem (<[this := v]> (words m)) (thread_waiting_on m) (parkinglot m)
        (dead_lock_verify_mutex m).

Definition slot (t : Z) (m : Mem E) : Z :=
  default nullptr (thread_waiting_on m !! t).

Definition store_slot (t lock : Z) (m : Mem E) : Mem E :=
  mkMem (words m) (<[t := lock]> (thread_waiting_on m)) (parkinglot m)
        (dead_lock_verify_mutex m).

Definition get_lot (m : Mem E) := parkinglot m.

Definition set_parkinglot (l : gmap Z (list (WaitNode unit))) (m : Mem E)
  : Mem E :=
  mkMem (words m) (thread_waiting_on m) l (dead_lock_verify_mutex m).

Definition set_verify_mutex (b : bool) (m : Mem E) : Mem E :=
  mkMem (words m) (thread_waiting_on m) (parkinglot m) b.

(** [std::atomic<LockWord>] *)
Definition load (this : Z) : M (Mem E) (WordType E) := gets (word_at this).

Definition exchange (this : Z) (desired : WordType E)
  : M (Mem E) (WordType E) :=
  let* old := gets (word_at this) in
  modify (store_word this desired) >>
  ret old.

Definition compare_exchange_strong (this : Z)
    (expected desired : WordType E) : M (Mem E) bool :=
  yield >>
  let* cur := gets (word_at this) in
  if Word.eqb cur expected
  then modify (store_word this desired) >> ret true
  else ret false.

(** [std::lock_guard<std::mutex>]: the constructor waits for the mutex. *)
Definition lock_guard : M (Mem E) unit :=
  yield >>
  let* held := gets dead_lock_verify_mutex in
  if held then stuck else modify (set_verify_mutex true).

Definition lock_guard_release : M (Mem E) unit :=
  modify (set_verify_mutex false).

Definition announce_wait (me this : Z) : M (Mem E) unit :=
  if E then modify (store_slot me this) else ret tt.

Definition denounce_wait (me : Z) : M (Mem E) unit :=
  if E then modify (store_slot me nullptr) else ret tt.

Definition is_lock_contented (this : Z) (m : Mem E) : bool :=
  Word.is_lock_contented (word_at this m).

Definition is_locked (this : Z) (m : Mem E) : bool :=
  Word.is_locked (word_at this m).

(** *** [check_deadlock] *)

(** The [while (true)] of the lambda [detect_deadlock].  Every pass that
    does not return records a thread the map did not have, so
    [MAX_THREADS] passes and one suffice.  An index outside the array
    has no defined behaviour.  Only the deadlock-safe instantiation,
    whose word is an integer, compiles the loop.  The loads of one
    search are all taken from the memory [m]: the search is embedded as
    it runs when no store of another thread falls between its loads. *)
Fixpoint detect_deadlock_loop (fuel : nat) (waiting_on : Z)
    (waiters : gmap Z Z) (m : Mem E) : option (bool * gmap Z Z) :=
  match fuel with
  | O => None
  | S fuel =>
      let lock_holder := Word.as_uncontented_word (word_at waiting_on m) in
      if negb (Word.is_locked lock_holder) then Some (false, waiters) else
      match E return WordType E -> option (bool * gmap Z Z) with
      | false => fun _ => Some (false, waiters)
      | true => fun holder : Z =>
          if negb ((0 <=? holder) && (holder <? MAX_THREADS)) then None else
          let waiting_on := slot holder m in
          if waiting_on =? nullptr then Some (false, waiters) else
          if bool_decide (is_Some (waiters !! holder))
          then Some (true, waiters)
          else detect_deadlock_loop fuel waiting_on
                 (<[holder := waiting_on]> waiters) m
      end (Word.get_value lock_holder)
  end.

Definition detect_deadlock (me this : Z) : M (Mem E) (bool * gmap Z Z) :=
  fun w =>
    match detect_deadlock_loop (S (Z.to_nat MAX_THREADS)) this
            {[me := this]} (mem w) with
    | Some r => Some (r, w)
    | None => None
    end.

(** The [for] of the lambda [verify_deadlock]. *)
Definition still_current (waiters : gmap Z Z) (m : Mem E) : bool :=
  forallb (fun waiter => snd waiter =? slot (fst waiter) m)
          (map_to_list waiters).

Definition verify_deadlock (me : Z) (waiters : gmap Z Z) : M (Mem E) bool :=
  lock_guard >>
  let* ok := gets (still_current waiters) in
  if ok
  then denounce_wait me >> lock_guard_release >> ret true
  else lock_guard_release >> ret false.

Definition check_deadlock (me this : Z) : M (Mem E) bool :=
  if E then
    let* '(found, waiters) := detect_deadlock me this in
    if found then verify_deadlock me waiters else ret false
  else ret false.

(** *** The slow path *)

Definition park (me this : Z) : M (Mem E) bool :=
  if E then
    announce_wait me this >>
    let* res := park_for get_lot set_parkinglot me this tt
                  (is_lock_contented this) in
    let* deadlock :=
      match res with
      | Timeout => check_deadlock me this
      | _ => ret false
      end in
    if deadlock then ret true else denounce_wait me >> ret false
  else
    ParkingLot.park get_lot set_parkinglot me this tt
      (is_lock_contented this) >>
    ret false.

Fixpoint uncontended_path_available_loop (fuel : nat) (me this : Z)
  : M (Mem E) bool :=
  match fuel with
  | O => stuck
  | S fuel =>
      let* old := load this in
      if negb (Word.is_locked old) then ret true else
      let* contended :=
        if Word.is_lock_contented old then ret true
        else compare_exchange_strong this old
               (Word.get_contented_word E me) in
      if contended then ret false else
      _mm_pause >>
      uncontended_path_available_loop fuel me this
  end.

(** A pass is repeated only after another thread has moved. *)
Definition uncontended_path_available (me this : Z) : M (Mem E) bool :=
  fun w => uncontended_path_available_loop (S (length (env w))) me this w.

Definition try_lock_contended (me this : Z) : M (Mem E) bool :=
  let old := Word.get_unlocked_word E in
  compare_exchange_strong this old (Word.get_contented_word E me).

Fixpoint lock_contended (fuel : nat) (me this : Z)
  : M (Mem E) MutexLockResult :=
  match fuel with
  | O => stuck
  | S fuel =>
      let* acquired := try_lock_contended me this in
      if acquired then ret LOCKED else
      let* deadlock := park me this in
      if deadlock then ret DEADLOCKED else lock_contended fuel me this
  end.

(** *** The public interface *)

Definition try_lock (me this : Z) : M (Mem E) bool :=
  let old := Word.get_unlocked_word E in
  compare_exchange_strong this old (Word.get_lock_word E me).

Fixpoint lock (fuel : nat) (me this : Z) : M (Mem E) MutexLockResult :=
  match fuel with
  | O => stuck
  | S fuel' =>
      let* acquired := try_lock me this in
      if acquired then ret LOCKED else
      let* fast := uncontended_path_available me this in
      if negb fast then lock_contended fuel me this else
      _mm_pause >>
      lock fuel' me this
  end.

Definition unlock (this : Z) : M (Mem E) unit :=
  let* old := exchange this (Word.get_unlocked_word E) in
  if Word.is_lock_contented old
  then unpark get_lot set_parkinglot this
         (fun _ (s : unit) => ret (RemoveBreak, s)) tt
  else ret tt.
End Impl.
End Mutex.

(** ** [FairMutex.h]: the fair mutex, [FairMutexImpl<EnableDeadlockDetection>] *)

Module FairMutex.
Record WaitNodeData := mkWaitNodeData {
  tid : Z;
  wait_token : Z;
  (** [bool *is_dead_locked]: the address of the waiter's local *)
  is_dead_locked : Z
}.

Record ThreadWaitInfo := mkThreadWaitInfo {
  waiting_on : Z;
  (** ticks of [std::chrono::steady_clock] since its epoch *)
  wait_start_time : Z;
  current_wait_token : Z
}.

(** *** The methods of [ThreadWaitInfo] *)
Module WaitInfo.
(** Returns the token and the updated block; [++] on a [std::uint64_t]. *)
Definition announce_wait (E : bool) (now lock : Z) (info : ThreadWaitInfo)
  : Z * ThreadWaitInfo :=
  if E then
    let token := wrap_unsigned 64 (current_wait_token info + 1) in
    (token, mkThreadWaitInfo lock now token)
  else (0, info).

Definition denounce_wait (E : bool) (info : ThreadWaitInfo)
  : ThreadWaitInfo :=
  if E
  then mkThreadWaitInfo nullptr (wait_start_time info)
                        (current_wait_token info)
  else info.
End WaitInfo.

Record LockWord := mkLockWord { holder : Z; num_waiters : Z }.

(** *** The methods of [LockWord] *)
Module Word.
Definition eqb (a b : LockWord) : bool :=
  (holder a =? holder b) && (num_waiters a =? num_waiters b).

Section Word.
Context `{ThreadRegistry}.

Definition INVALID_HOLDER : Z := MAX_THREADS.

Definition get_unlocked_word : LockWord := mkLockWord INVALID_HOLDER 0.

Definition get_lock_word (me : Z) : LockWord := mkLockWord me 0.

Definition is_locked (w : LockWord) : bool :=
  negb (holder w =? INVALID_HOLDER).

Definition is_locked_by_me (me : Z) (w : LockWord) : bool :=
  holder w =? me.

Definition has_waiters (w : LockWord) : bool :=
  negb (num_waiters w =? 0).

Definition transfer_lock (tid : Z) (w : LockWord) : LockWord :=
  mkLockWord tid (wrap_unsigned 32 (num_waiters w - 1)).

Definition increment_num_waiters (w : LockWord) : LockWord :=
  mkLockWord (holder w) (wrap_unsigned 32 (num_waiters w + 1)).

Definition decrement_num_waiters (w : LockWord) : LockWord :=
  mkLockWord (holder w) (wrap_unsigned 32 (num_waiters w - 1)).
End Word.
End Word.

(** *** The memory the mutexes of one instantiation share *)

Record Mem := mkMem {
  (** the [word] member of each mutex object *)
  words : gmap Z LockWord;
  (** [parkinglot], a [folly::ParkingLot<WaitNodeData>] *)
  parkinglot : gmap Z (list (WaitNode WaitNodeData));
  (** [global_wait_info], an array of [MAX_THREADS] blocks *)
  global_wait_info : gmap Z ThreadWaitInfo;
  (** the locals [is_dead_locked] of the threads inside [park], by address *)
  frames : gmap Z bool;
  (** what [Clock::now()] returns *)
  clock : Z
}.

Inductive ParkRes := PARKRES_RETRY | PARKRES_LOCKED | PARKRES_DEADLOCKED.

Section Impl.
Context `{ThreadRegistry}.
Variable EnableDeadlockDetection : bool.

(** The parking lot's [park], as the instantiation sees it. *)
Variable parkinglot_park :
  Z -> Z -> WaitNodeData -> (Mem -> bool) -> M Mem ParkResult.

Definition word_at (this : Z) (m : Mem) : LockWord :=
  default Word.get_unlocked_word (words m !! this).

Definition store_word (this : Z) (v : LockWord) (m : Mem) : Mem :=
  mkMem (<[this := v]> (words m)) (parkinglot m) (global_wait_info m)
        (frames m) (clock m).

Definition get_lot (m : Mem) := parkinglot m.

Definition set_parkinglot (l : gmap Z (list (WaitNode WaitNodeData)))
    (m : Mem) : Mem :=
  mkMem (words m) l (global_wait_info m) (frames m) (clock m).

Definition wait_info (t : Z) (m : Mem) : ThreadWaitInfo :=
  default (mkThreadWaitInfo nullptr 0 0) (global_wait_info m !! t).

Definition store_wait_info (t : Z) (info : ThreadWaitInfo) (m : Mem) : Mem :=
  mkMem (words m) (parkinglot m) (<[t := info]> (global_wait_info m))
        (frames m) (clock m).

Definition deref (p : Z) (m : Mem) : bool := default false (frames m !! p).

Definition store_bool (p : Z) (b : bool) (m : Mem) : Mem :=
  mkMem (words m) (parkinglot m) (global_wait_info m)
        (<[p := b]> (frames m)) (clock m).

(** [std::atomic<LockWord>] *)
Definition load (this : Z) : M Mem LockWord := gets (word_at this).

Definition compare_exchange_strong (this : Z)
    (expected desired : LockWord) : M Mem bool :=
  yield >>
  let* cur := gets (word_at this) in
  if Word.eqb cur expected
  then modify (store_word this desired) >> ret true
  else ret false.

(** *** The retry loops on the word *)

Fixpoint increment_num_waiters_loop (fuel : nat) (this : Z) : M Mem bool :=
  match fuel with
  | O => stuck
  | S fuel =>
      let* old := load this in
      if negb (Word.is_locked old) then ret false else
      let* swapped :=
        compare_exchange_strong this old
          (Word.increment_num_waiters old) in
      if swapped then ret true else
      _mm_pause >>
      increment_num_waiters_loop fuel this
  end.

Fixpoint decrement_num_waiters_loop (fuel : nat) (this : Z) : M Mem bool :=
  match fuel with
  | O => stuck
  | S fuel =>
      let* old := load this in
      let* swapped :=
        compare_exchange_strong this old
          (Word.decrement_num_waiters old) in
      if swapped then ret true else
      _mm_pause >>
      decrement_num_waiters_loop fuel this
  end.

Fixpoint transfer_lock_loop (fuel : nat) (this tid : Z) : M Mem unit :=
  match fuel with
  | O => stuck
  | S fuel =>
      let* old := load this in
      let* swapped :=
        compare_exchange_strong this old (Word.transfer_lock tid old) in
      if swapped then ret tt else
      _mm_pause >>
      transfer_lock_loop fuel this tid
  end.

(** A pass is repeated only after another thread has moved, so one pass
    more than the other threads have moves left is enough. *)
Definition increment_num_waiters (this : Z) : M Mem bool :=
  fun w => increment_num_waiters_loop (S (length (env w))) this w.

Definition decrement_num_waiters (this : Z) : M Mem bool :=
  fun w => decrement_num_waiters_loop (S (length (env w))) this w.

Definition transfer_lock (this tid : Z) : M Mem unit :=
  fun w => transfer_lock_loop (S (length (env w))) this tid w.

Definition is_locked_by_me (me this : Z) (m : Mem) : bool :=
  Word.is_locked_by_me me (word_at this m).

Definition is_locked (this : Z) (m : Mem) : bool :=
  Word.is_locked (word_at this m).

(** *** [park] *)

(** One frame of the lambda exists per thread at a time: the local
    [is_dead_locked] of thread [me] lives at address [me]. *)
Definition frame_of (me : Z) : Z := me.

(** The lambda [park] inside the method [park], step by step: what it
    does before it calls the parking lot, the [validate] it passes, what
    it does first when the parking lot returns, and the lambda itself. *)
Definition park_announce (me this : Z) : M Mem WaitNodeData :=
  let is_dead_locked := frame_of me in
  modify (store_bool is_dead_locked false) >>
  let* now := gets clock in
  let* my_deadlock_detect_data := gets (wait_info me) in
  let '(wait_token, announced) :=
    WaitInfo.announce_wait EnableDeadlockDetection now this
                           my_deadlock_detect_data in
  (if EnableDeadlockDetection
   then modify (store_wait_info me announced) else ret tt) >>
  ret (mkWaitNodeData me wait_token is_dead_locked).

Definition park_validate (me this : Z) (m : Mem) : bool :=
  negb (is_locked_by_me me this m) && negb (deref (frame_of me) m).

Definition park_denounce (me : Z) : M Mem unit :=
  if EnableDeadlockDetection
  then modify (fun m => store_wait_info me
                          (WaitInfo.denounce_wait EnableDeadlockDetection
                                                  (wait_info me m)) m)
  else ret tt.

Definition park_lambda (me this : Z) : M Mem (ParkResult * bool) :=
  let* waitdata := park_announce me this in
  let* res :=
    parkinglot_park me this waitdata (park_validate me this) in
  park_denounce me >>
  let* dead := gets (deref (frame_of me)) in
  (if dead then decrement_num_waiters this >> ret tt else ret tt) >>
  ret (res, dead).

(** The [default:] of the [switch] asserts a string literal, which never
    fails, and falls through to the final [return]. *)
Definition park (me this : Z) : M Mem ParkRes :=
  let* registered := increment_num_waiters this in
  if registered then
    let* res := park_lambda me this in
    match fst res with
    | Skip => decrement_num_waiters this >> ret PARKRES_LOCKED
    | Unpark =>
        ret (if snd res then PARKRES_DEADLOCKED else PARKRES_LOCKED)
    | Timeout => ret PARKRES_RETRY
    end
  else ret PARKRES_RETRY.

(** *** The public interface *)

Definition try_lock (me this : Z) : M Mem bool :=
  let old := Word.get_unlocked_word in
  compare_exchange_strong this old (Word.get_lock_word me).

Fixpoint lock (fuel : nat) (me this : Z) : M Mem MutexLockResult :=
  match fuel with
  | O => stuck
  | S fuel =>
      let* acquired := try_lock me this in
      if acquired then ret LOCKED else
      _mm_pause >>
      let* res := park me this in
      match res with
      | PARKRES_RETRY => lock fuel me this
      | PARKRES_LOCKED => ret LOCKED
      | PARKRES_DEADLOCKED => ret DEADLOCKED
      end
  end.

Definition unlock_filter (this : Z) (waitdata : WaitNodeData)
    (wokeup_somebody : bool) : M Mem (UnparkControl * bool) :=
  transfer_lock this (tid waitdata) >>
  ret (RemoveBreak, true).

Fixpoint unlock (fuel : nat) (this : Z) : M Mem unit :=
  match fuel with
  | O => stuck
  | S fuel =>
      let* old := load this in
      let* done :=
        if Word.has_waiters old
        then unpark get_lot set_parkinglot this (unlock_filter this) false
        else compare_exchange_strong this old Word.get_unlocked_word in
      if done then ret tt else
      _mm_pause >>
      unlock fuel this
  end.
End Impl.

(** The instantiation with the parking lot as modelled above. *)
Definition folly_park :
  Z -> Z -> WaitNodeData -> (Mem -> bool) -> M Mem ParkResult :=
  ParkingLot.park get_lot set_parkinglot.

(** *** [DeadlockDetector]

    A [std::unordered_map] that is only looked up is a [gmap]; [lockcycle],
    which [select_waiter] walks, is the list of its entries in the order
    the walk meets them.  The standard leaves the order in which an
    [unordered_map] is iterated open.  Here [select_waiter] goes through
    [lockcycle] in the order the entries were inserted, and [run]
    through [waiters] in the order of [map_to_list]: what is stated of
    one order holds of that choice, and what is stated of the entries,
    by membership, holds of every order. *)
Module DeadlockDetector.
Record WaiterInfo := mkWaiterInfo { lock : Z; wait_token : Z }.

Record Detector := mkDetector {
  waiters : gmap Z WaiterInfo;
  holders : gmap Z Z
}.

Definition count (waiterid : Z) (lockcycle : list (Z * Z)) : bool :=
  existsb (fun waiter => fst waiter =? waiterid) lockcycle.

(** [lockcycle[waiterid] = lock] *)
Fixpoint assign (waiterid lock : Z) (lockcycle : list (Z * Z))
  : list (Z * Z) :=
  match lockcycle with
  | [] => [(waiterid, lock)]
  | waiter :: rest =>
      if fst waiter =? waiterid then (waiterid, lock) :: rest
      else waiter :: assign waiterid lock rest
  end.

(** [holders[lock]] and [waiters[waiter]] as values: a key the map does
    not have is added with a zeroed value. *)
Definition holders_subscript (l : Z) (d : Detector) : Z * Detector :=
  match holders d !! l with
  | Some t => (t, d)
  | None => (0, mkDetector (waiters d) (<[l := 0]> (holders d)))
  end.

Definition waiters_subscript (t : Z) (d : Detector)
  : WaiterInfo * Detector :=
  match waiters d !! t with
  | Some i => (i, d)
  | None =>
      let i := mkWaiterInfo nullptr 0 in
      (i, mkDetector (<[t := i]> (waiters d)) (holders d))
  end.

Section Detector.
Context `{ThreadRegistry}.

Definition gather_filter (l waiter_id token : Z)
    (waitdata : WaitNodeData) (d : Detector)
  : M Mem (UnparkControl * Detector) :=
  if tid waitdata =? waiter_id then
    let* lock_word := load l in
    ret (RetainBreak,
         if Word.is_locked lock_word
         then mkDetector (<[waiter_id := mkWaiterInfo l token]> (waiters d))
                         (<[l := holder lock_word]> (holders d))
         else d)
  else ret (RetainContinue, d).

Fixpoint gather_loop (ids : list Z) (d : Detector) : M Mem Detector :=
  match ids with
  | [] => ret d
  | waiter_id :: rest =>
      let* waiter_info := gets (wait_info waiter_id) in
      let l := waiting_on waiter_info in
      let token := current_wait_token waiter_info in
      let* d1 :=
        if negb (l =? nullptr)
        then unpark get_lot set_parkinglot l
               (gather_filter l waiter_id token) d
        else ret d in
      gather_loop rest d1
  end.

Definition gather_waiters_and_holders_info (d : Detector)
  : M Mem Detector :=
  gather_loop (map Z.of_nat (seq 0 (Z.to_nat MAX_THREADS)))
              (mkDetector ∅ ∅).

Fixpoint detect_lock_cycle_loop (fuel : nat) (l : Z)
    (lockcycle : list (Z * Z)) (d : Detector)
  : option (list (Z * Z) * Detector) :=
  match fuel with
  | O => None
  | S fuel =>
      let '(waiterid, d1) := holders_subscript l d in
      if negb (bool_decide (is_Some (waiters d1 !! waiterid)))
      then Some ([], d1) else
      let '(info, d2) := waiters_subscript waiterid d1 in
      let l := lock info in
      if count waiterid lockcycle then Some (lockcycle, d2) else
      detect_lock_cycle_loop fuel l (assign waiterid l lockcycle) d2
  end.

(** Every pass that does not return adds a waiter to the cycle. *)
Definition detect_lock_cycle (waiterid l : Z) (d : Detector)
  : M Mem (list (Z * Z) * Detector) :=
  fun w =>
    match detect_lock_cycle_loop (S (size (waiters d))) l
            (assign waiterid l []) d with
    | Some r => Some (r, w)
    | None => None
    end.

(** [TimePoint latest_time;] is the clock's epoch. *)
Fixpoint select_waiter_loop (lockcycle : list (Z * Z))
    (latest_time latest_waiter : Z) (m : Mem) : Z :=
  match lockcycle with
  | [] => latest_waiter
  | waiter :: rest =>
      let waiter_info := wait_info (fst waiter) m in
      let l := waiting_on waiter_info in
      let start := wait_start_time waiter_info in
      let later := latest_time <? start in
      let latest_time := if later then start else latest_time in
      let latest_waiter := if later then fst waiter else latest_waiter in
      if negb (snd waiter =? l) then INVALID_THREADID
      else select_waiter_loop rest latest_time latest_waiter m
  end.

Definition select_waiter (lockcycle : list (Z * Z)) (m : Mem) : Z :=
  select_waiter_loop lockcycle 0 INVALID_THREADID m.

Definition verify_filter (waiter token : Z) (waitdata : WaitNodeData)
    (unparked : bool) : M Mem (UnparkControl * bool) :=
  if (tid waitdata =? waiter) && (FairMutex.wait_token waitdata =? token)
  then modify (store_bool (is_dead_locked waitdata) true) >>
       ret (RemoveBreak, true)
  else ret (RetainContinue, unparked).

Definition verify_lock_cycle (lockcycle : list (Z * Z)) (d : Detector)
  : M Mem (bool * Detector) :=
  match lockcycle with
  | [] => ret (false, d)
  | _ =>
      let* waiter := gets (select_waiter lockcycle) in
      let '(info, d1) := waiters_subscript waiter d in
      let* unparked :=
        unpark get_lot set_parkinglot (lock info)
          (verify_filter waiter (wait_token info)) false in
      ret (unparked, d1)
  end.

(** The [for] of [run] visits the waiters gathered at its start. *)
Fixpoint run_loop (ws : list (Z * WaiterInfo)) (d : Detector)
  : M Mem (bool * Detector) :=
  match ws with
  | [] => ret (false, d)
  | waiter :: rest =>
      let* '(lockcycle, d1) :=
        detect_lock_cycle (fst waiter) (lock (snd waiter)) d in
      let* '(unparked, d2) := verify_lock_cycle lockcycle d1 in
      if unparked then ret (true, d2) else run_loop rest d2
  end.

Definition run (d : Detector) : M Mem (bool * Detector) :=
  let* d1 := gather_waiters_and_holders_info d in
  run_loop (map_to_list (waiters d1)) d1.

Fixpoint detect_deadlocks_loop (fuel : nat) (num_deadlocks : Z)
    (d : Detector) : M Mem Z :=
  match fuel with
  | O => stuck
  | S fuel =>
      let* '(resolved, d1) := run d in
      if resolved
      then detect_deadlocks_loop fuel (num_deadlocks + 1) d1
      else ret num_deadlocks
  end.

Definition detect_deadlocks (fuel : nat) : M Mem Z :=
  detect_deadlocks_loop fuel 0 (mkDetector ∅ ∅).
End Detector.
End DeadlockDetector.
End FairMutex.

(** ** Notions the statements use *)

(** The identifiers of the registry, as a set. *)
Definition thread_ids `{ThreadRegistry} : gset Z :=
  list_to_set (map Z.of_nat (seq 0 (Z.to_nat MAX_THREADS))).


Module MutexProps.
Import Mutex.

(** The world right after the exchange of [unlock]. *)
Definition released {E} (this : Z) (w : World (Mem E)) : World (Mem E) :=
  mkWorld (store_word this (Word.get_unlocked_word E) (mem w)) (env w).

End MutexProps.

Module FairMutexProps.
Import FairMutex.

Section Props.
Context `{ThreadRegistry}.

(** The world after a compare-exchange of [f] committed in [w]. *)
Definition commit (this : Z) (f : LockWord -> LockWord) (w : World Mem)
  : World Mem :=
  mkWorld (store_word this (f (word_at this (mem w))) (mem w)) (env w).

(** The world after [unlock] has handed the mutex to the waiter [tid],
    its compare-exchange having committed in [w]. *)
Definition handed_off (this tid : Z)
    (rest : list (WaitNode WaitNodeData)) (w : World Mem) : World Mem :=
  let wc := commit this (Word.transfer_lock tid) w in
  mkWorld (set_queue get_lot set_parkinglot this rest (mem wc)) (env wc).

Definition holder_ok (w : LockWord) : Prop :=
  holder w = Word.INVALID_HOLDER \/ valid_thread (holder w).

Definition lot_ok (m : Mem) : Prop :=
  forall key nd, In nd (queue get_lot key m) -> valid_thread (tid (data nd)).

Definition mem_ok (m : Mem) : Prop :=
  (forall this, holder_ok (word_at this m)) /\ lot_ok m.

Definition world_ok (w : World Mem) : Prop :=
  mem_ok (mem w) /\ Forall (fun f => forall m, mem_ok m -> mem_ok (f m)) (env w).

(** From a sound world, [c] leads to sound worlds and results in [Q]. *)
Definition keeps {A : Type} (c : M Mem A) (Q : A -> Prop) : Prop :=
  forall w a w', world_ok w -> c w = Some (a, w') -> world_ok w' /\ Q a.

(** The worlds the public operations lead to from a fresh memory, the
    other threads making moves that keep the memory sound. *)
Inductive reachable (E : bool) : World Mem -> Prop :=
| reach_start (now : Z) (others : list (Mem -> Mem)) :
    Forall (fun f => forall m, mem_ok m -> mem_ok (f m)) others ->
    reachable E (mkWorld (mkMem ∅ ∅ ∅ ∅ now) others)
| reach_others (w : World Mem) (others : list (Mem -> Mem)) :
    reachable E w ->
    Forall (fun f => forall m, mem_ok m -> mem_ok (f m)) others ->
    reachable E (mkWorld (mem w) (env w ++ others))
| reach_try_lock (me this : Z) (w : World Mem) (b : bool) (w' : World Mem) :
    reachable E w -> valid_thread me ->
    try_lock me this w = Some (b, w') -> reachable E w'
| reach_lock (fuel : nat) (me this : Z) (w : World Mem)
    (r : MutexLockResult) (w' : World Mem) :
    reachable E w -> valid_thread me ->
    lock E folly_park fuel me this w = Some (r, w') -> reachable E w'
| reach_unlock (fuel : nat) (this : Z) (w w' : World Mem) :
    reachable E w ->
    unlock fuel this w = Some (tt, w') -> reachable E w'
| reach_transfer_lock (this tid : Z) (w w' : World Mem) :
    reachable E w -> valid_thread tid ->
    transfer_lock this tid w = Some (tt, w') -> reachable E w'
| reach_detect_deadlocks (fuel : nat) (w : World Mem) (n : Z)
    (w' : World Mem) :
    reachable E w ->
    DeadlockDetector.detect_deadlocks fuel w = Some (n, w') ->
    reachable E w'.

(** When the thread [t] began its current wait, and whether an entry of
    a cycle is what its thread announces now. *)
Definition start_of (m : Mem) (t : Z) : Z :=
  wait_start_time (wait_info t m).

Definition fresh (m : Mem) (waiter : Z * Z) : Prop :=
  snd waiter = waiting_on (wait_info (fst waiter) m).

Definition is_victim (waiter token : Z) (nd : WaitNode WaitNodeData) : bool :=
  (tid (data nd) =? waiter) && (FairMutex.wait_token (data nd) =? token).


End Props.

(** The tokens a thread receives over successive waits, each given by
    the time it starts and the mutex it is for. *)
Fixpoint wait_episodes (E : bool) (episodes : list (Z * Z))
    (info : ThreadWaitInfo) : list Z :=
  match episodes with
  | [] => []
  | (now, lock) :: rest =>
      let '(token, announced) := WaitInfo.announce_wait E now lock info in
      token :: wait_episodes E rest (WaitInfo.denounce_wait E announced)
  end.


End FairMutexProps.

(** ** Worlds the examples run in *)

Module Scenario.
Definition registry4 : ThreadRegistry := {| MAX_THREADS := 4 |}.

(** What a computation another thread runs undisturbed makes of the
    memory: a move of that thread. *)
Definition settled {Mem A : Type} (c : M Mem A) (m : Mem) : Mem :=
  match c (mkWorld m []) with
  | Some (_, w) => mem w
  | None => m
  end.

Module Std.
Import Mutex.
(** Thread 0 holds mutex 1, thread 1 holds mutex 2 and sleeps on
    mutex 1; thread 0, asking for mutex 2, has just timed out. *)
Definition timed_out : World (Mem true) :=
  mkWorld (mkMem (<[2 := 1]> (<[1 := 0]> ∅))
                 (<[0 := 2]> (<[1 := 1]> ∅))
                 (<[2 := []]> (<[1 := [mkNode 1 tt]]> ∅)) false) [].

Definition resolved : World (Mem true) :=
  mkWorld (mkMem (<[2 := 1]> (<[1 := 0]> ∅))
                 (<[0 := nullptr]> (<[1 := 1]> ∅))
                 (<[2 := []]> (<[1 := [mkNode 1 tt]]> ∅)) false) [].

(** Mutex 1 with thread 1 asleep on it, held by thread 0. *)
Definition held_with_sleeper (word : Z) : World (Mem true) :=
  mkWorld (mkMem (<[1 := word]> ∅) ∅ (<[1 := [mkNode 1 tt]]> ∅) false) [].
End Std.

Module Fair.
Import FairMutex.
Definition fresh_world : World Mem := mkWorld (mkMem ∅ ∅ ∅ ∅ 100) [].

(** Mutex 1 with the word [word], nobody asleep, thread 0 having
    announced what [info] and [frames] say. *)
Definition mutex1 (word : LockWord) (info : gmap Z ThreadWaitInfo)
    (frames : gmap Z bool) : World Mem :=
  mkWorld (mkMem (<[1 := word]> ∅) ∅ info frames 100) [].

(** Thread 0 holds mutex 1 and calls [lock] on it again. *)
Definition held_by_0 : World Mem := mutex1 (mkLockWord 0 0) ∅ ∅.
Definition registered : World Mem := mutex1 (mkLockWord 0 1) ∅ ∅.
Definition announced : World Mem :=
  mutex1 (mkLockWord 0 1) (<[0 := mkThreadWaitInfo 1 100 1]> ∅)
         (<[0 := false]> ∅).
Definition denounced : World Mem :=
  mutex1 (mkLockWord 0 1) (<[0 := mkThreadWaitInfo nullptr 100 1]> ∅)
         (<[0 := false]> ∅).
Definition reported_locked : World Mem :=
  mutex1 (mkLockWord 0 0) (<[0 := mkThreadWaitInfo nullptr 100 1]> ∅)
         (<[0 := false]> ∅).

(** A parking lot that answers [Skip] after the flag was set, as the
    modelled one never does. *)
Definition skip_flagged_lot (me key : Z) (d : WaitNodeData)
    (validate : Mem -> bool) : M Mem ParkResult :=
  modify (store_bool (is_dead_locked d) true) >> ret Skip.

Definition flagged : World Mem :=
  mutex1 (mkLockWord 0 1) (<[0 := mkThreadWaitInfo 1 100 1]> ∅)
         (<[0 := true]> ∅).
Definition flagged_denounced : World Mem :=
  mutex1 (mkLockWord 0 1) (<[0 := mkThreadWaitInfo nullptr 100 1]> ∅)
         (<[0 := true]> ∅).

(** Thread 0 holds mutex 1, thread 1 sleeps on it. *)
Definition sleeper : WaitNode WaitNodeData :=
  mkNode 1 (mkWaitNodeData 1 1 1).

Definition one_sleeper : World Mem :=
  mkWorld (mkMem (<[1 := mkLockWord 0 1]> ∅) (<[1 := [sleeper]]> ∅)
                 (<[1 := mkThreadWaitInfo 1 100 1]> ∅)
                 (<[1 := false]> ∅) 100) [].

(** Thread 0 sleeps on mutex 10, which thread 1 holds; thread 1 sleeps
    on mutex 11, which thread 0 holds; both waits began at the tick
    [start].  Thread 1 announces [waiting_on_1]. *)
Definition cycle_at (start waiting_on_1 : Z) : World Mem :=
  mkWorld
    (mkMem (<[10 := mkLockWord 1 1]> (<[11 := mkLockWord 0 1]> ∅))
           (<[10 := [mkNode 0 (mkWaitNodeData 0 1 0)]]>
              (<[11 := [mkNode 1 (mkWaitNodeData 1 1 1)]]> ∅))
           (<[0 := mkThreadWaitInfo 10 start 1]>
              (<[1 := mkThreadWaitInfo waiting_on_1 start 1]> ∅))
           (<[0 := false]> (<[1 := false]> ∅)) 100) [].

Definition cycle (waiting_on_1 : Z) : World Mem := cycle_at 5 waiting_on_1.

Definition gathered : DeadlockDetector.Detector :=
  DeadlockDetector.mkDetector
    (<[0 := DeadlockDetector.mkWaiterInfo 10 1]>
       (<[1 := DeadlockDetector.mkWaiterInfo 11 1]> ∅))
    (<[10 := 1]> (<[11 := 0]> ∅)).

Definition last_token : ThreadWaitInfo :=
  mkThreadWaitInfo nullptr 0 (2 ^ 64 - 1).

(** Thread 0 sleeps on mutex 10, which thread 1 holds, and holds
    mutex 11, which nobody waits for yet. *)
Definition half_cycle : Mem :=
  mkMem (<[10 := mkLockWord 1 1]> (<[11 := mkLockWord 0 0]> ∅))
        (<[10 := [mkNode 0 (mkWaitNodeData 0 1 0)]]> ∅)
        (<[0 := mkThreadWaitInfo 10 5 1]> ∅)
        (<[0 := false]> ∅) 100.
End Fair.
End Scenario.

(** ** Notions of the wait-for graph *)

Module WaitGraph.
Import Mutex.

Section WaitGraph.
Context `{ThreadRegistry}.

(** The thread the word of the mutex [l] names as its holder, as
    [detect_deadlock] reads it. *)
Definition holder_of (l : Z) (m : Mem true) : Z :=
  Word.get_value (Word.as_uncontented_word (E := true) (word_at l m)).

(** The mutex [l] is held, and by a thread the map [waiters] records. *)
Definition closed (waiters : gmap Z Z) (m : Mem true) (l : Z) : Prop :=
  Word.is_locked (E := true) (holder_of l m) = true
  /\ valid_thread (holder_of l m)
  /\ is_Some (waiters !! holder_of l m).
End WaitGraph.
End WaitGraph.

(** ** A mutex that nobody releases *)

Module Exclusion.
Import Mutex.

Section Exclusion.
Context `{ThreadRegistry} {E : bool}.

(** A move of another thread that releases nothing: where the word of
    the mutex [this] is locked before the move, it is locked after. *)
Definition keeps_held (this : Z) (f : Mem E -> Mem E) : Prop :=
  forall m, Word.is_locked (word_at this m) = true ->
            Word.is_locked (word_at this (f m)) = true.

(** The mutex [this] is held, and no move the other threads still make
    releases it. *)
Definition held_for_good (this : Z) (w : World (Mem E)) : Prop :=
  Word.is_locked (word_at this (mem w)) = true
  /\ Forall (keeps_held this) (env w).

(** From a world in which [this] is held for good, [c] leads to such a
    world and results in [Q]. *)
Definition holds_on {A : Type} (this : Z) (c : M (Mem E) A)
    (Q : A -> Prop) : Prop :=
  forall w a w',
    held_for_good this w -> c w = Some (a, w') ->
    held_for_good this w' /\ Q a.
End Exclusion.
End Exclusion.

(** ** Successive hand-overs of the fair mutex *)

Module FairOrder.
Import FairMutex.

Section FairOrder.
Context `{ThreadRegistry}.

(** The holders that [n] calls of [unlock] in a row leave behind, each
    call made by the thread the call before has handed the mutex to. *)
Fixpoint hand_overs (fuel n : nat) (this : Z) : M Mem (list Z) :=
  match n with
  | O => ret []
  | S n =>
      unlock fuel this >>
      let* next := gets (fun m => holder (word_at this m)) in
      let* rest := hand_overs fuel n this in
      ret (next :: rest)
  end.

(** The worlds a call of [unlock] on the mutex [this] comes through
    while it repeats its loop: the other threads make a move, or the
    scan of a queue that is empty writes the empty queue back. *)
Inductive passes (this : Z) : World Mem -> World Mem -> Prop :=
| passes_here (w : World Mem) : passes this w w
| passes_moved (w w0 : World Mem) :
    passes this (moved w) w0 -> passes this w w0
| passes_rescan (w w0 : World Mem) :
    queue get_lot this (mem w) = [] ->
    passes this (mkWorld (set_queue get_lot set_parkinglot this [] (mem w))
                         (env w)) w0 ->
    passes this w w0.
End FairOrder.
End FairOrder.

(** ** What the detector of the fair mutex can see of a wait *)

Module FairWaitGraph.
Import FairMutex.

Section FairWaitGraph.
Context `{ThreadRegistry}.

(** The thread [t] announces a mutex, a node with its identifier sleeps
    in the parking lot under that mutex, and the mutex is held. *)
Definition asleep (m : Mem) (t : Z) : bool :=
  let l := waiting_on (wait_info t m) in
  negb (l =? nullptr)
  && existsb (fun nd => tid (data nd) =? t) (queue get_lot l m)
  && Word.is_locked (word_at l m).

(** The thread [t] is asleep, and the mutex it announces is [l]. *)
Definition waits_for (m : Mem) (t l : Z) : Prop :=
  waiting_on (wait_info t m) = l /\ asleep m t = true.

(** What [gather_waiters_and_holders_info] records for a thread. *)
Definition recorded (m : Mem) (t : Z) : DeadlockDetector.WaiterInfo :=
  DeadlockDetector.mkWaiterInfo (waiting_on (wait_info t m))
                                (current_wait_token (wait_info t m)).

(** Two memories that differ at most in how the parking lot spells an
    empty queue. *)
Definition same_state (m m' : Mem) : Prop :=
  words m' = words m
  /\ global_wait_info m' = global_wait_info m
  /\ frames m' = frames m
  /\ clock m' = clock m
  /\ forall key, queue get_lot key m' = queue get_lot key m.

(** The detector [d] holds what a scan of the memory [m] records: a
    waiter for every thread asleep, and the holder of every mutex a
    thread is asleep on. *)
Definition gathered_from (m : Mem) (d : DeadlockDetector.Detector) : Prop :=
  (forall t info,
      DeadlockDetector.waiters d !! t = Some info
      <-> valid_thread t
          /\ waits_for m t (DeadlockDetector.lock info)
          /\ info = recorded m t)
  /\ (forall l h,
        DeadlockDetector.holders d !! l = Some h
        <-> h = holder (word_at l m)
            /\ exists t, valid_thread t /\ waits_for m t l).

(** A set of threads none of which can go on: every thread of the list
    is asleep on the mutex the list gives for it, and that mutex is held
    by a thread of the list.  The list need not be a cycle: a thread
    that waits for a thread of a cycle is as stuck as the cycle is. *)
Definition deadlocked (m : Mem) (lockcycle : list (Z * Z)) : Prop :=
  forall t l,
    In (t, l) lockcycle ->
    valid_thread t
    /\ waits_for m t l
    /\ DeadlockDetector.count (holder (word_at l m)) lockcycle = true.

(** The thread the entries [rest] of a chain begin with, or [closing]
    when there is none left. *)
Definition next_thread (rest : list (Z * Z)) (closing : Z) : Z :=
  match rest with
  | [] => closing
  | waiter :: _ => fst waiter
  end.

(** The mutex of every entry is held by the thread of the entry that
    follows it, and the mutex of the last entry by [closing]. *)
Fixpoint chain (held_by : Z -> Z -> Prop) (c : list (Z * Z)) (closing : Z)
  : Prop :=
  match c with
  | [] => True
  | waiter :: rest =>
      held_by (snd waiter) (next_thread rest closing)
      /\ chain held_by rest closing
  end.

(** A cycle of the wait-for graph: a chain, not empty, that closes on
    its own first thread. *)
Definition wait_cycle (m : Mem) (c : list (Z * Z)) : Prop :=
  c <> []
  /\ chain (fun l t => holder (word_at l m) = t) c (next_thread c 0).
(** The detector [d] is [d1] but for the zeroed waiter that
    [verify_lock_cycle] adds when it looks up [INVALID_THREADID]. *)
Definition agrees (d1 d : DeadlockDetector.Detector) : Prop :=
  DeadlockDetector.holders d = DeadlockDetector.holders d1
  /\ (forall t, t <> INVALID_THREADID ->
        DeadlockDetector.waiters d !! t = DeadlockDetector.waiters d1 !! t)
  /\ (forall i, DeadlockDetector.waiters d !! INVALID_THREADID = Some i ->
        DeadlockDetector.lock i = nullptr).
End FairWaitGraph.
End FairWaitGraph.

(** ** More worlds for the examples *)

Module Cases.
Import Scenario.
#[local] Existing Instance registry4.

Module Std.
Import Mutex.
(** Mutex 1, free, of either instantiation. *)
Definition free (E : bool) : World (Mem E) :=
  mkWorld (mkMem ∅ ∅ ∅ false) [].

(** Mutex 1 with the word [word], nobody asleep. *)
Definition with_word (E : bool) (word : WordType E) : World (Mem E) :=
  mkWorld (mkMem (<[1 := word]> ∅) ∅ ∅ false) [].

(** Thread 0 holds mutex 1, thread 1 holds mutex 2 and sleeps on
    mutex 1; thread 0 asks for mutex 2. *)
Definition crossing : World (Mem true) :=
  mkWorld (mkMem (<[2 := 1]> (<[1 := 0]> ∅)) (<[1 := 1]> ∅)
                 (<[1 := [mkNode 1 tt]]> ∅) false) [].
End Std.

Module Fair.
Import FairMutex.
(** Thread 0 holds mutex 1; threads 1 and 2 sleep on it, in this
    order. *)
Definition two_sleepers : World Mem :=
  mkWorld (mkMem (<[1 := mkLockWord 0 2]> ∅)
                 (<[1 := [mkNode 1 (mkWaitNodeData 1 1 1);
                          mkNode 2 (mkWaitNodeData 2 1 2)]]> ∅)
                 (<[1 := mkThreadWaitInfo 1 100 1]>
                    (<[2 := mkThreadWaitInfo 1 100 1]> ∅))
                 (<[1 := false]> (<[2 := false]> ∅)) 100) [].

(** Thread 0 holds mutex 1 and unlocks it while thread 1, which has
    asked for it, sleeps. *)
Definition holder_unlocks : World Mem :=
  mkWorld (mem Scenario.Fair.held_by_0) [id; id; settled (unlock 1 1)].

(** The same once thread 1 has registered as a waiter, *)
Definition sleeper_counted : World Mem :=
  mkWorld (mkMem (<[1 := mkLockWord 0 1]> ∅) ∅ ∅ ∅ 100)
          [id; settled (unlock 1 1)].

(** once it has announced its wait, *)
Definition sleeper_announced : World Mem :=
  mkWorld (mkMem (<[1 := mkLockWord 0 1]> ∅) ∅
                 (<[1 := mkThreadWaitInfo 1 100 1]> ∅)
                 (<[1 := false]> ∅) 100)
          [id; settled (unlock 1 1)].

(** once thread 0 has handed the mutex over and thread 1 is awake, *)
Definition handed_over : World Mem :=
  mkWorld (mkMem (<[1 := mkLockWord 1 0]> ∅) (<[1 := []]> ∅)
                 (<[1 := mkThreadWaitInfo 1 100 1]> ∅)
                 (<[1 := false]> ∅) 100) [].

(** and once thread 1 has withdrawn its announcement. *)
Definition awake : World Mem :=
  mkWorld (mkMem (<[1 := mkLockWord 1 0]> ∅) (<[1 := []]> ∅)
                 (<[1 := mkThreadWaitInfo nullptr 100 1]> ∅)
                 (<[1 := false]> ∅) 100) [].



(** Thread 0 sleeps on mutex 10, which thread 1 holds, since tick 5;
    thread 1 sleeps on mutex 11, which thread 0 holds, since tick 7. *)
Definition staggered : World Mem :=
  mkWorld
    (mkMem (<[10 := mkLockWord 1 1]> (<[11 := mkLockWord 0 1]> ∅))
           (<[10 := [mkNode 0 (mkWaitNodeData 0 1 0)]]>
              (<[11 := [mkNode 1 (mkWaitNodeData 1 1 1)]]> ∅))
           (<[0 := mkThreadWaitInfo 10 5 1]>
              (<[1 := mkThreadWaitInfo 11 7 1]> ∅))
           (<[0 := false]> (<[1 := false]> ∅)) 100) [].

(** The same after the detector has woken thread 1. *)
Definition staggered_woken : World Mem :=
  mkWorld
    (mkMem (<[10 := mkLockWord 1 1]> (<[11 := mkLockWord 0 1]> ∅))
           (<[10 := [mkNode 0 (mkWaitNodeData 0 1 0)]]> (<[11 := []]> ∅))
           (<[0 := mkThreadWaitInfo 10 5 1]>
              (<[1 := mkThreadWaitInfo 11 7 1]> ∅))
           (<[0 := false]> (<[1 := true]> ∅)) 100) [].

(** The cycle of [staggered] with thread 2, which holds no mutex,
    asleep on mutex 10 behind thread 0 since tick 9. *)
Definition queued_behind : World Mem :=
  mkWorld
    (mkMem (<[10 := mkLockWord 1 2]> (<[11 := mkLockWord 0 1]> ∅))
           (<[10 := [mkNode 0 (mkWaitNodeData 0 1 0);
                     mkNode 2 (mkWaitNodeData 2 1 2)]]>
              (<[11 := [mkNode 1 (mkWaitNodeData 1 1 1)]]> ∅))
           (<[0 := mkThreadWaitInfo 10 5 1]>
              (<[1 := mkThreadWaitInfo 11 7 1]>
                 (<[2 := mkThreadWaitInfo 10 9 1]> ∅)))
           (<[0 := false]> (<[1 := false]> (<[2 := false]> ∅))) 100) [].
End Fair.
End Cases.

(** ** Running a computation by hand *)

Ltac mrun :=
  unfold _mm_pause, bind, ret, gets, modify, stuck, yield; cbn [mem env fst snd].
Ltac mrun_in H :=
  unfold _mm_pause, bind, ret, gets, modify, stuck, yield in H;
  cbn [mem env fst snd] in H.

(* ================================================================== *)
(** * Theorems *)
(* ================================================================== *)

Section Moves.
Context {Mem : Type}.

Lemma moved_quiet (w : World Mem) : env w = [] -> moved w = w.
Proof. unfold moved. intros ->. reflexivity. Qed.

Lemma moved_length (w : World Mem) :
  (length (env (moved w)) <= length (env w))%nat.
Proof. destruct w as [m [| f rest]]; simpl; lia. Qed.

Lemma moved_changed (w : World Mem) :
  moved w <> w -> (S (length (env (moved w))) = length (env w))%nat.
Proof.
  destruct w as [m [| f rest]]; simpl; [intros Hne; destruct Hne | ]; reflexivity.
Qed.

Lemma iter_moved_quiet (n : nat) (w : World Mem) :
  env w = [] -> Nat.iter n moved w = w.
Proof.
  intros Hq. induction n as [| n IH]; simpl; [reflexivity |].
  rewrite IH. apply moved_quiet, Hq.
Qed.

Lemma iter_moved_succ (n : nat) (w : World Mem) :
  Nat.iter (S n) moved w = Nat.iter n moved (moved w).
Proof.
  induction n as [| n IH]; [reflexivity |].
  change (Nat.iter (S (S n)) moved w) with (moved (Nat.iter (S n) moved w)).
  rewrite IH. reflexivity.
Qed.
End Moves.

Section Fuel.
Context `{ThreadRegistry}.

Lemma elem_of_thread_ids (t : Z) : t ∈ thread_ids <-> 0 <= t < MAX_THREADS.
Proof.
  unfold thread_ids. rewrite elem_of_list_to_set, list_elem_of_In, in_map_iff.
  split.
  - intros (n & <- & Hin). apply in_seq in Hin. lia.
  - intros Ht. exists (Z.to_nat t). split; [lia |]. apply in_seq. lia.
Qed.

Lemma size_thread_ids : size thread_ids = Z.to_nat MAX_THREADS.
Proof.
  unfold thread_ids. rewrite size_list_to_set.
  - rewrite length_map, length_seq. reflexivity.
  - apply NoDup_fmap_2; [intros a b; lia |]. apply NoDup_ListNoDup, seq_NoDup.
Qed.

Lemma size_registered (X : gset Z) :
  (size (X ∩ thread_ids) <= Z.to_nat MAX_THREADS)%nat.
Proof.
  rewrite <- size_thread_ids. apply subseteq_size.
  intros x Hx. apply elem_of_intersection in Hx. apply Hx.
Qed.

Lemma size_registered_insert (X : gset Z) (t : Z) :
  0 <= t < MAX_THREADS -> t ∉ X ->
  size (({[t]} ∪ X) ∩ thread_ids) = S (size (X ∩ thread_ids)).
Proof.
  intros Ht Hnot.
  replace (({[t]} ∪ X) ∩ thread_ids) with ({[t]} ∪ (X ∩ thread_ids)).
  - rewrite size_union, size_singleton; [reflexivity |].
    intros x Hx Hx'. apply elem_of_singleton in Hx. subst x.
    apply elem_of_intersection in Hx'. tauto.
  - apply set_eq. intros x.
    rewrite elem_of_union, !elem_of_intersection, elem_of_union,
      elem_of_singleton.
    split; [| tauto]. intros [-> | ?]; [| tauto].
    split; [tauto |]. apply elem_of_thread_ids. exact Ht.
Qed.
End Fuel.

(** ** The standard mutex *)

Module MutexSpec.
Import Mutex MutexProps.

Lemma M_CONTENDED_MASK_value : Word.M_CONTENDED_MASK = - 2 ^ 31.
Proof. reflexivity. Qed.

Lemma M_UNLOCKED_value : Word.M_UNLOCKED = 2 ^ 31 - 1.
Proof. reflexivity. Qed.

Lemma land_mask (w : Z) :
  Z.land w Word.M_CONTENDED_MASK = w / 2 ^ 31 * 2 ^ 31.
Proof.
  rewrite M_CONTENDED_MASK_value.
  replace (- 2 ^ 31) with (Z.lnot (Z.ones 31)) by reflexivity.
  change (Z.land w (Z.lnot (Z.ones 31))) with (Z.ldiff w (Z.ones 31)).
  rewrite Z.ldiff_ones_r by lia.
  rewrite Z.shiftl_mul_pow2, Z.shiftr_div_pow2 by lia. reflexivity.
Qed.

Lemma is_lock_contented_safe (w : Z) :
  - 2 ^ 31 <= w < 2 ^ 31 ->
  Word.is_lock_contented (E := true) w = (0 <=? w).
Proof.
  intros Hw. cbn [Word.is_lock_contented]. rewrite land_mask.
  destruct (Z.leb_spec 0 w) as [Hp | Hn].
  - rewrite Z.div_small by lia. reflexivity.
  - apply Z.eqb_neq. intros Hz.
    assert (w / 2 ^ 31 = 0) by lia.
    apply Z.div_small_iff in H; lia.
Qed.

Lemma lor_mask (t : Z) :
  0 <= t < 2 ^ 31 -> Z.lor t Word.M_CONTENDED_MASK = t - 2 ^ 31.
Proof.
  intros Ht.
  assert (Hl : Z.land t Word.M_CONTENDED_MASK = 0).
  { rewrite land_mask, Z.div_small by lia. reflexivity. }
  rewrite <- Z.lxor_lor, <- Z.add_nocarry_lxor by exact Hl.
  rewrite M_CONTENDED_MASK_value. lia.
Qed.

(** ** The scan of [unlock] *)

Section Unpark.
Context {Mem D : Type}.
Variable get_lot : Mem -> gmap Z (list (WaitNode D)).
Variable set_lot : gmap Z (list (WaitNode D)) -> Mem -> Mem.

Lemma unpark_remove_break (key : Z) (w : World Mem) :
  unpark get_lot set_lot key (fun _ (s : unit) => ret (RemoveBreak, s)) tt w
  = Some (tt, mkWorld (set_queue get_lot set_lot key
                         (tail (queue get_lot key (mem (moved w))))
                         (mem (moved w)))
                      (env (moved w))).
Proof.
  unfold unpark. mrun.
  destruct (queue get_lot key (mem (moved w))) as [| n rest]; reflexivity.
Qed.
End Unpark.

Lemma lot_queue_set_queue {E} (key key' : Z) q (m : Mem E) :
  queue get_lot key' (set_queue get_lot set_parkinglot key q m)
  = if decide (key = key') then q else queue get_lot key' m.
Proof.
  unfold queue, set_queue, get_lot. simpl.
  rewrite lookup_insert. destruct (decide (key = key')); reflexivity.
Qed.

Lemma words_at_store_word {E} (this this' : Z) (v : WordType E) (m : Mem E) :
  word_at this' (store_word this v m)
  = if decide (this = this') then v else word_at this' m.
Proof.
  unfold word_at, store_word. simpl.
  rewrite lookup_insert. destruct (decide (this = this')); reflexivity.
Qed.

(** [unlock], step by step. *)
Lemma unlock_unfold {E} (this : Z) (w : World (Mem E)) :
  unlock this w
  = Some (tt,
      if Word.is_lock_contented (word_at this (mem w))
      then let w1 := moved (released this w) in
           mkWorld (set_queue get_lot set_parkinglot this
                      (tail (queue get_lot this (mem w1))) (mem w1))
                   (env w1)
      else released this w).
Proof.
  pose proof (unpark_remove_break get_lot set_parkinglot this
                (released this w)) as Hscan.
  unfold unlock, exchange. unfold released in *. mrun. mrun_in Hscan.
  destruct (Word.is_lock_contented (word_at this (mem w))).
  - rewrite Hscan. reflexivity.
  - reflexivity.
Qed.

(** In the lean instantiation [unlock] stores [LS_UNLOCKED] and wakes the
    first waiter exactly when the word it replaced was [LS_CONTENTED]. *)
Lemma unlock_lean (this : Z) (w : World (Mem false)) :
  word_at this (mem (released this w)) = LS_UNLOCKED
  /\ exists w',
      unlock this w = Some (tt, w')
      /\ match word_at this (mem w) with
         | LS_CONTENTED =>
             queue get_lot this (mem w')
             = tail (queue get_lot this (mem (moved (released this w))))
         | _ => w' = released this w
         end.
Proof.
  split.
  { unfold released. cbn [mem]. rewrite words_at_store_word, decide_True by done.
    reflexivity. }
  eexists. split; [apply unlock_unfold |].
  cbn [Word.is_lock_contented].
  destruct (word_at this (mem w)) eqn:Hw; cbn [Word.LockState_eqb];
    try reflexivity.
  cbv zeta. cbn [mem]. rewrite lot_queue_set_queue, decide_True by done.
  reflexivity.
Qed.

(** C3. In the deadlock-safe instantiation [unlock] wakes the first
    waiter when the word it replaced was an uncontended
    [get_lock_word()], and does nothing after the exchange when the word
    it replaced was a [get_contented_word()]. *)
Theorem unlock_safe_unparks_when_uncontended
    (this t : Z) (w : World (Mem true)) :
  0 <= t < 2 ^ 31 ->
  (word_at this (mem w) = Word.get_lock_word true t ->
   exists w', unlock this w = Some (tt, w')
              /\ queue get_lot this (mem w')
                 = tail (queue get_lot this (mem (moved (released this w)))))
  /\ (word_at this (mem w) = Word.get_contented_word true t ->
      unlock this w = Some (tt, released this w)).
Proof.
  intros Ht. split; intros Hw.
  - eexists. split; [apply unlock_unfold |]. rewrite Hw.
    cbn [Word.get_lock_word]. rewrite is_lock_contented_safe by lia.
    rewrite (proj2 (Z.leb_le 0 t)) by lia. cbv zeta. cbn [mem].
    rewrite lot_queue_set_queue, decide_True by done. reflexivity.
  - rewrite unlock_unfold, Hw.
    cbn [Word.get_contented_word]. rewrite lor_mask by lia.
    rewrite is_lock_contented_safe by lia.
    rewrite (proj2 (Z.leb_gt 0 _)) by lia. reflexivity.
Qed.

(** ** The retry loop of the slow path *)

Lemma word_eqb_refl {E} (a : WordType E) : Word.eqb a a = true.
Proof.
  destruct E; cbn [Word.eqb]; [apply Z.eqb_refl | destruct a; reflexivity].
Qed.

Lemma compare_exchange_strong_step {E} (this : Z) (old desired : WordType E)
    (w : World (Mem E)) :
  compare_exchange_strong this old desired w
  = if Word.eqb (word_at this (mem (moved w))) old
    then Some (true, mkWorld (store_word this desired (mem (moved w)))
                             (env (moved w)))
    else Some (false, moved w).
Proof.
  unfold compare_exchange_strong. mrun. destruct (Word.eqb _ _); reflexivity.
Qed.

(** [uncontended_path_available] returns from every world: a pass is
    repeated only after another thread has changed the word. *)
Lemma uncontended_path_available_loop_returns {E} (fuel : nat) (me this : Z)
    (w : World (Mem E)) :
  (length (env w) < fuel)%nat ->
  is_Some (uncontended_path_available_loop fuel me this w).
Proof.
  revert w. induction fuel as [| fuel IH]; intros w Hlen; [lia |].
  cbn [uncontended_path_available_loop]. unfold load.
  unfold bind at 1. unfold gets at 1.
  destruct (negb (Word.is_locked (word_at this (mem w))));
    [eexists; reflexivity |].
  unfold bind at 1.
  destruct (Word.is_lock_contented (word_at this (mem w)));
    [eexists; reflexivity |].
  rewrite compare_exchange_strong_step.
  destruct (Word.eqb _ _) eqn:Heq; [eexists; reflexivity |].
  assert (Hmv : moved w <> w).
  { intros Hsame. rewrite Hsame, word_eqb_refl in Heq. discriminate. }
  apply moved_changed in Hmv. mrun. apply IH.
  pose proof (moved_length (moved w)). lia.
Qed.

Lemma uncontended_path_available_returns {E} (me this : Z)
    (w : World (Mem E)) :
  is_Some (uncontended_path_available me this w).
Proof. apply uncontended_path_available_loop_returns. lia. Qed.

(** ** [check_deadlock] *)

Section CheckDeadlock.
Context `{ThreadRegistry}.

Lemma still_current_spec {E} (waiters : gmap Z Z) (m : Mem E) :
  still_current waiters m = true
  <-> map_Forall (fun t l => slot t m = l) waiters.
Proof.
  unfold still_current. rewrite forallb_forall, map_Forall_to_list.
  rewrite Forall_forall. split.
  - intros Hall [t l] Hin. simpl.
    apply list_elem_of_In in Hin. specialize (Hall _ Hin). simpl in Hall. lia.
  - intros Hall [t l] Hin. apply list_elem_of_In in Hin.
    specialize (Hall _ Hin). simpl in *. lia.
Qed.

Lemma verify_deadlock_true (me : Z) (waiters : gmap Z Z)
    (w w' : World (Mem true)) :
  verify_deadlock me waiters w = Some (true, w') ->
  dead_lock_verify_mutex (mem (moved w)) = false
  /\ still_current waiters (set_verify_mutex true (mem (moved w))) = true
  /\ w' = mkWorld (store_slot me nullptr (mem (moved w))) (env (moved w)).
Proof.
  unfold verify_deadlock, lock_guard, lock_guard_release, denounce_wait.
  mrun. intros Hv.
  destruct (dead_lock_verify_mutex (mem (moved w))) eqn:Hheld;
    mrun_in Hv; [discriminate |].
  destruct (still_current waiters (set_verify_mutex true (mem (moved w))))
    eqn:Hok; mrun_in Hv; [| discriminate].
  injection Hv as <-. repeat split; try reflexivity.
  unfold store_slot, set_verify_mutex. simpl. rewrite Hheld. reflexivity.
Qed.

Lemma check_deadlock_true (me this : Z) (w w' : World (Mem true)) :
  check_deadlock me this w = Some (true, w') ->
  exists waiters,
    detect_deadlock me this w = Some ((true, waiters), w)
    /\ verify_deadlock me waiters w = Some (true, w').
Proof.
  unfold check_deadlock. unfold bind at 1.
  destruct (detect_deadlock me this w) as [[[found waiters] w1] |] eqn:Hd;
    [| discriminate].
  assert (w1 = w) as ->.
  { unfold detect_deadlock in Hd.
    destruct (detect_deadlock_loop _ _ _ _); congruence. }
  destruct found; [| discriminate].
  intros Hv. exists waiters. split; [reflexivity | exact Hv].
Qed.

Lemma park_true (me this : Z) (w w' : World (Mem true)) :
  park me this w = Some (true, w') ->
  exists w1,
    park_for get_lot set_parkinglot me this tt (is_lock_contented this)
      (mkWorld (store_slot me this (mem w)) (env w)) = Some (Timeout, w1)
    /\ check_deadlock me this w1 = Some (true, w').
Proof.
  unfold park, announce_wait, denounce_wait.
  unfold bind at 1. unfold modify at 1. cbn [mem env].
  unfold bind at 1.
  destruct (park_for _ _ _ _ _ _ _) as [[res w1] |]; [| discriminate].
  unfold bind at 1.
  destruct res; unfold ret at 1; mrun; try discriminate.
  destruct (check_deadlock me this w1) as [[[|] w2] |] eqn:Hc;
    try discriminate.
  intros [= <-]. exists w1. split; [reflexivity | exact Hc].
Qed.

Lemma lock_contended_deadlocked (fuel : nat) (me this : Z)
    (w w1 w2 : World (Mem true)) :
  try_lock_contended me this w = Some (false, w1) ->
  park me this w1 = Some (true, w2) ->
  lock_contended (S fuel) me this w = Some (DEADLOCKED, w2).
Proof.
  intros Ht Hp. cbn [lock_contended]. unfold bind at 1. rewrite Ht.
  unfold bind at 1. rewrite Hp. reflexivity.
Qed.

Lemma compare_exchange_strong_false {E} (this : Z)
    (expected desired : WordType E) (w w1 : World (Mem E)) :
  compare_exchange_strong this expected desired w = Some (false, w1) ->
  w1 = moved w /\ Word.eqb (word_at this (mem w1)) expected = false.
Proof.
  unfold compare_exchange_strong. mrun.
  destruct (Word.eqb (word_at this (mem (moved w))) expected) eqn:He;
    [discriminate |].
  intros [= <-]. split; [reflexivity | exact He].
Qed.

Lemma park_timeout_deadlock (me this : Z) (w w1 w' : World (Mem true)) :
  park_for get_lot set_parkinglot me this tt (is_lock_contented this)
    (mkWorld (store_slot me this (mem w)) (env w)) = Some (Timeout, w1) ->
  check_deadlock me this w1 = Some (true, w') ->
  park me this w = Some (true, w').
Proof.
  intros Hp Hc. unfold park, announce_wait.
  unfold bind at 1. unfold modify at 1. cbn [mem env].
  unfold bind at 1. rewrite Hp. unfold bind at 1. rewrite Hc. reflexivity.
Qed.

Lemma lock_slow_path (fuel : nat) (me this : Z) (w w1 w2 : World (Mem true)) :
  try_lock me this w = Some (false, w1) ->
  uncontended_path_available me this w1 = Some (false, w2) ->
  lock (S fuel) me this w = lock_contended (S fuel) me this w2.
Proof.
  intros Ht Hu. cbn [lock]. unfold bind at 1. rewrite Ht.
  unfold bind at 1. rewrite Hu. reflexivity.
Qed.

(** C8. [check_deadlock] returns true only if the cycle search found a
    cycle and, in the memory the caller sees once it holds
    [dead_lock_verify_mutex], every pair the search recorded is still
    what [thread_waiting_on] holds; the only store it then makes clears
    the caller's own slot.  A [park] that timed out into such a check
    returns true, [lock_contended], and with it [lock], returns
    [DEADLOCKED], and the word of the mutex is as the other threads
    left it. *)
Theorem check_deadlock_true_only_if_verified
    (me this : Z) (w w' : World (Mem true)) :
  check_deadlock me this w = Some (true, w') ->
  exists waiters,
    detect_deadlock me this w = Some ((true, waiters), w)
    /\ dead_lock_verify_mutex (mem (moved w)) = false
    /\ map_Forall (fun t l => slot t (mem (moved w)) = l) waiters
    /\ w' = mkWorld (store_slot me nullptr (mem (moved w))) (env (moved w))
    /\ slot me (mem w') = nullptr
    /\ dead_lock_verify_mutex (mem w') = false
    /\ (forall this', word_at this' (mem w') = word_at this' (mem (moved w)))
    /\ (forall (fuel : nat) (w0 w1 : World (Mem true)),
          try_lock_contended me this w0 = Some (false, w1) ->
          park_for get_lot set_parkinglot me this tt
            (is_lock_contented this)
            (mkWorld (store_slot me this (mem w1)) (env w1))
          = Some (Timeout, w) ->
          park me this w1 = Some (true, w')
          /\ lock_contended (S fuel) me this w0 = Some (DEADLOCKED, w')
          /\ forall wa wb : World (Mem true),
               try_lock me this wa = Some (false, wb) ->
               uncontended_path_available me this wb = Some (false, w0) ->
               lock (S fuel) me this wa = Some (DEADLOCKED, w')).
Proof.
  intros Hc.
  destruct (check_deadlock_true _ _ _ _ Hc) as (waiters & Hd & Hv).
  destruct (verify_deadlock_true _ _ _ _ Hv) as (Hfree & Hcur & ->).
  exists waiters. split; [exact Hd |]. split; [exact Hfree |].
  split; [apply still_current_spec in Hcur; exact Hcur |].
  split; [reflexivity |]. cbn [mem].
  split; [unfold slot, store_slot; simpl; rewrite lookup_insert_eq;
          reflexivity |].
  split; [exact Hfree |]. split; [reflexivity |].
  intros fuel w0 w1 Ht Hp.
  pose proof (park_timeout_deadlock _ _ _ _ _ Hp Hc) as Hpark.
  pose proof (lock_contended_deadlocked fuel _ _ _ _ _ Ht Hpark) as Hl.
  split; [exact Hpark |]. split; [exact Hl |].
  intros wa wb Hta Hu. rewrite (lock_slow_path _ _ _ _ _ _ Hta Hu).
  exact Hl.
Qed.
End CheckDeadlock.

(** C2. In the deadlock-safe instantiation [is_lock_contented] compares the
    masked word with zero: it answers false on every word
    [get_contented_word] builds, and true on every [get_lock_word] and on
    the unlocked word. *)
Theorem is_lock_contented_safe_inverted (t : Z) :
  0 <= t < 2 ^ 31 ->
  Word.is_lock_contented (E := true) (Word.get_contented_word true t) = false
  /\ Word.is_lock_contented (E := true) (Word.get_lock_word true t) = true
  /\ Word.is_lock_contented (E := true) (Word.get_unlocked_word true) = true.
Proof.
  intros Ht. cbn [Word.get_contented_word Word.get_lock_word].
  rewrite lor_mask by lia. rewrite !is_lock_contented_safe by lia.
  repeat split.
  - apply Z.leb_gt. lia.
  - apply Z.leb_le. lia.
Qed.

(** The lean instantiation, for comparison: contended is [LS_CONTENTED]. *)
Lemma is_lock_contented_lean (me : Z) :
  Word.is_lock_contented (E := false) (Word.get_contented_word false me) = true
  /\ Word.is_lock_contented (E := false) (Word.get_lock_word false me) = false
  /\ Word.is_lock_contented (E := false) (Word.get_unlocked_word false) = false.
Proof. repeat split. Qed.

(** ** The passes of [detect_deadlock] *)
Section Passes.
Context `{ThreadRegistry}.

(** The passes [detect_deadlock] is given are enough: more of them
    never change its answer. *)
Lemma detect_deadlock_loop_enough (fuel extra : nat) (waiting_on : Z)
    (waiters : gmap Z Z) (m : Mem true) :
  (Z.to_nat MAX_THREADS < fuel + size (dom waiters ∩ thread_ids))%nat ->
  detect_deadlock_loop (fuel + extra) waiting_on waiters m
  = detect_deadlock_loop fuel waiting_on waiters m.
Proof.
  revert waiting_on waiters.
  induction fuel as [| fuel IH]; intros waiting_on waiters Hfuel.
  - pose proof (size_registered (dom waiters)). lia.
  - cbn [Nat.add detect_deadlock_loop].
    destruct (negb (Word.is_locked _)); [reflexivity |].
    set (holder := Word.get_value _).
    destruct (Z.leb_spec 0 holder) as [H0 |]; [| reflexivity].
    destruct (Z.ltb_spec holder MAX_THREADS) as [H1 |]; [| reflexivity].
    cbn [andb negb].
    destruct (slot holder m =? nullptr); [reflexivity |].
    case_bool_decide as Hin; [reflexivity |].
    apply IH. rewrite dom_insert_L.
    rewrite size_registered_insert; [lia | lia |].
    rewrite elem_of_dom. exact Hin.
Qed.

Lemma detect_deadlock_fuel (extra : nat) (me this : Z) (m : Mem true) :
  detect_deadlock_loop (S (Z.to_nat MAX_THREADS) + extra) this
    {[me := this]} m
  = detect_deadlock_loop (S (Z.to_nat MAX_THREADS)) this {[me := this]} m.
Proof. apply detect_deadlock_loop_enough. lia. Qed.
End Passes.
End MutexSpec.

(** ** The fair mutex *)

Module FairMutexSpec.
Import FairMutex FairMutexProps.

Lemma eqb_eq (a b : LockWord) : Word.eqb a b = true <-> a = b.
Proof.
  unfold Word.eqb. destruct a, b; simpl.
  rewrite andb_true_iff, !Z.eqb_eq. split; [intros [-> ->] | intros [= -> ->]]; auto.
Qed.

Lemma eqb_refl (a : LockWord) : Word.eqb a a = true.
Proof. apply eqb_eq. reflexivity. Qed.

Section Loops.
Context `{ThreadRegistry}.

Lemma word_at_store_word (this this' : Z) (v : LockWord) (m : Mem) :
  word_at this' (store_word this v m)
  = if decide (this = this') then v else word_at this' m.
Proof.
  unfold word_at, store_word. simpl.
  rewrite lookup_insert. destruct (decide (this = this')); reflexivity.
Qed.

Lemma word_at_store_word_eq (this : Z) (v : LockWord) (m : Mem) :
  word_at this (store_word this v m) = v.
Proof. rewrite word_at_store_word, decide_True by done. reflexivity. Qed.

(** One pass of a retry loop: the exchange succeeds exactly when the
    other threads' move left the word as it was loaded. *)
Lemma compare_exchange_strong_run (this : Z) (old desired : LockWord)
    (w : World Mem) :
  compare_exchange_strong this old desired w
  = if Word.eqb (word_at this (mem (moved w))) old
    then Some (true, mkWorld (store_word this desired (mem (moved w)))
                             (env (moved w)))
    else Some (false, moved w).
Proof.
  unfold compare_exchange_strong. mrun.
  destruct (Word.eqb _ _); reflexivity.
Qed.

Lemma cas_miss_moves (this : Z) (w : World Mem) :
  Word.eqb (word_at this (mem (moved w))) (word_at this (mem w)) = false ->
  (S (length (env (moved w))) = length (env w))%nat.
Proof.
  intros Hne. apply moved_changed. intros Heq. rewrite Heq in Hne.
  rewrite eqb_refl in Hne. discriminate.
Qed.

Lemma decrement_num_waiters_loop_spec (fuel : nat) (this : Z)
    (w : World Mem) :
  (length (env w) < fuel)%nat ->
  exists n : nat,
    decrement_num_waiters_loop fuel this w
    = Some (true, commit this Word.decrement_num_waiters
                    (Nat.iter n moved w)).
Proof.
  revert w. induction fuel as [| fuel IH]; intros w Hlen; [lia |].
  cbn [decrement_num_waiters_loop]. unfold load. unfold bind at 1.
  unfold gets at 1. unfold bind at 1.
  rewrite compare_exchange_strong_run.
  destruct (Word.eqb _ _) eqn:Heq.
  - apply eqb_eq in Heq. exists 1%nat. simpl. unfold commit.
    rewrite Heq. reflexivity.
  - pose proof (cas_miss_moves _ _ Heq) as Hmv. mrun.
    destruct (IH (moved (moved w))) as [n Hn].
    { pose proof (moved_length (moved w)). lia. }
    exists (S (S n)). rewrite Hn, !iter_moved_succ. reflexivity.
Qed.

Lemma transfer_lock_loop_spec (fuel : nat) (this tid : Z) (w : World Mem) :
  (length (env w) < fuel)%nat ->
  exists n : nat,
    transfer_lock_loop fuel this tid w
    = Some (tt, commit this (Word.transfer_lock tid) (Nat.iter n moved w)).
Proof.
  revert w. induction fuel as [| fuel IH]; intros w Hlen; [lia |].
  cbn [transfer_lock_loop]. unfold load. unfold bind at 1.
  unfold gets at 1. unfold bind at 1.
  rewrite compare_exchange_strong_run.
  destruct (Word.eqb _ _) eqn:Heq.
  - apply eqb_eq in Heq. exists 1%nat. simpl. unfold commit.
    rewrite Heq. reflexivity.
  - pose proof (cas_miss_moves _ _ Heq) as Hmv. mrun.
    destruct (IH (moved (moved w))) as [n Hn].
    { pose proof (moved_length (moved w)). lia. }
    exists (S (S n)). rewrite Hn, !iter_moved_succ. reflexivity.
Qed.

Lemma increment_num_waiters_loop_spec (fuel : nat) (this : Z)
    (w : World Mem) :
  (length (env w) < fuel)%nat ->
  exists n : nat,
    let w1 := Nat.iter n moved w in
    increment_num_waiters_loop fuel this w
    = if Word.is_locked (word_at this (mem w1))
      then Some (true, commit this Word.increment_num_waiters w1)
      else Some (false, w1).
Proof.
  revert w. induction fuel as [| fuel IH]; intros w Hlen; [lia |].
  cbn [increment_num_waiters_loop]. unfold load. unfold bind at 1.
  unfold gets at 1.
  destruct (Word.is_locked (word_at this (mem w))) eqn:Hl; cbn [negb].
  2: { exists 0%nat. simpl. rewrite Hl. reflexivity. }
  unfold bind at 1. rewrite compare_exchange_strong_run.
  destruct (Word.eqb _ _) eqn:Heq.
  - apply eqb_eq in Heq. exists 1%nat. simpl. unfold commit.
    rewrite Heq, Hl. reflexivity.
  - pose proof (cas_miss_moves _ _ Heq) as Hmv. mrun.
    destruct (IH (moved (moved w))) as [n Hn].
    { pose proof (moved_length (moved w)). lia. }
    exists (S (S n)). cbn zeta in *. rewrite Hn, !iter_moved_succ.
    reflexivity.
Qed.

Lemma decrement_num_waiters_spec (this : Z) (w : World Mem) :
  exists n : nat,
    decrement_num_waiters this w
    = Some (true, commit this Word.decrement_num_waiters
                    (Nat.iter n moved w)).
Proof. apply decrement_num_waiters_loop_spec. lia. Qed.

Lemma transfer_lock_spec (this tid : Z) (w : World Mem) :
  exists n : nat,
    transfer_lock this tid w
    = Some (tt, commit this (Word.transfer_lock tid) (Nat.iter n moved w)).
Proof. apply transfer_lock_loop_spec. lia. Qed.

Lemma increment_num_waiters_spec (this : Z) (w : World Mem) :
  exists n : nat,
    let w1 := Nat.iter n moved w in
    increment_num_waiters this w
    = if Word.is_locked (word_at this (mem w1))
      then Some (true, commit this Word.increment_num_waiters w1)
      else Some (false, w1).
Proof. apply increment_num_waiters_loop_spec. lia. Qed.

(** With the other threads at rest the first pass commits. *)
Lemma decrement_num_waiters_quiet (this : Z) (w : World Mem) :
  env w = [] ->
  decrement_num_waiters this w
  = Some (true, commit this Word.decrement_num_waiters w).
Proof.
  intros Hq. destruct (decrement_num_waiters_spec this w) as [n ->].
  rewrite iter_moved_quiet by exact Hq. reflexivity.
Qed.

Lemma transfer_lock_quiet (this tid : Z) (w : World Mem) :
  env w = [] ->
  transfer_lock this tid w
  = Some (tt, commit this (Word.transfer_lock tid) w).
Proof.
  intros Hq. destruct (transfer_lock_spec this tid w) as [n ->].
  rewrite iter_moved_quiet by exact Hq. reflexivity.
Qed.

Lemma increment_num_waiters_quiet (this : Z) (w : World Mem) :
  env w = [] ->
  increment_num_waiters this w
  = if Word.is_locked (word_at this (mem w))
    then Some (true, commit this Word.increment_num_waiters w)
    else Some (false, w).
Proof.
  intros Hq. destruct (increment_num_waiters_spec this w) as [n Hn].
  cbn zeta in Hn. rewrite iter_moved_quiet in Hn by exact Hq. exact Hn.
Qed.

Lemma env_iter_moved_quiet (n : nat) (w : World Mem) :
  env w = [] -> env (Nat.iter n moved w) = [].
Proof. intros Hq. rewrite iter_moved_quiet; assumption. Qed.

(** ** The words *)

Lemma wrap_unsigned_small (bits x : Z) :
  0 <= x < 2 ^ bits -> wrap_unsigned bits x = x.
Proof. intros Hx. unfold wrap_unsigned. apply Z.mod_small. exact Hx. Qed.

Lemma decrement_at_zero (h : Z) :
  Word.decrement_num_waiters (mkLockWord h 0) = mkLockWord h (2 ^ 32 - 1).
Proof. reflexivity. Qed.

Lemma decrement_positive (h n : Z) :
  0 < n <= 2 ^ 32 ->
  Word.decrement_num_waiters (mkLockWord h n) = mkLockWord h (n - 1).
Proof.
  intros Hn. unfold Word.decrement_num_waiters. simpl.
  rewrite wrap_unsigned_small by lia. reflexivity.
Qed.
End Loops.

(** ** [park] *)

Section Park.
Context `{ThreadRegistry}.
Variable E : bool.
Variable lot : Z -> Z -> WaitNodeData -> (Mem -> bool) -> M Mem ParkResult.

Lemma park_denounce_frames (me : Z) (w wd : World Mem) :
  park_denounce E me w = Some (tt, wd) ->
  frames (mem wd) = frames (mem w)
  /\ words (mem wd) = words (mem w)
  /\ parkinglot (mem wd) = parkinglot (mem w)
  /\ env wd = env w.
Proof.
  unfold park_denounce. destruct E; mrun; intros [= <-]; auto.
Qed.

(** The lambda, once the parking lot has returned [res] in [w2]. *)
Lemma park_lambda_run (me this : Z) (res : ParkResult)
    (waitdata : WaitNodeData) (w1 wa w2 wd : World Mem) :
  park_announce E me this w1 = Some (waitdata, wa) ->
  lot me this waitdata (park_validate me this) wa = Some (res, w2) ->
  park_denounce E me w2 = Some (tt, wd) ->
  park_lambda E lot me this w1
  = if deref (frame_of me) (mem w2)
    then match decrement_num_waiters this wd with
         | Some (_, w3) => Some ((res, true), w3)
         | None => None
         end
    else Some ((res, false), wd).
Proof.
  intros Ha Hl Hd. unfold park_lambda.
  unfold bind at 1. rewrite Ha. unfold bind at 1. rewrite Hl.
  unfold bind at 1. rewrite Hd. unfold bind at 1. unfold gets at 1.
  destruct (park_denounce_frames _ _ _ Hd) as (Hf & _).
  assert (Hdd : deref (frame_of me) (mem wd) = deref (frame_of me) (mem w2))
    by (unfold deref; rewrite Hf; reflexivity).
  rewrite Hdd. destruct (deref (frame_of me) (mem w2)).
  - mrun. destruct (decrement_num_waiters this wd) as [[b w3] |];
      reflexivity.
  - reflexivity.
Qed.

Lemma park_run (me this : Z) (w w1 : World Mem) :
  increment_num_waiters this w = Some (true, w1) ->
  park E lot me this w
  = match park_lambda E lot me this w1 with
    | Some (res, w2) =>
        match fst res with
        | Skip => match decrement_num_waiters this w2 with
                  | Some (_, w3) => Some (PARKRES_LOCKED, w3)
                  | None => None
                  end
        | Unpark =>
            Some (if snd res then PARKRES_DEADLOCKED else PARKRES_LOCKED, w2)
        | Timeout => Some (PARKRES_RETRY, w2)
        end
    | None => None
    end.
Proof.
  intros Hi. unfold park. unfold bind at 1. rewrite Hi. unfold bind at 1.
  destruct (park_lambda E lot me this w1) as [[[res dead] w2] |];
    [| reflexivity].
  cbn [fst snd]. destruct res; try reflexivity.
Qed.

Lemma lock_run (fuel : nat) (me this : Z) (w w1 : World Mem) :
  try_lock me this w = Some (false, w1) ->
  lock E lot (S fuel) me this w
  = match park E lot me this (moved w1) with
    | Some (PARKRES_RETRY, w2) => lock E lot fuel me this w2
    | Some (PARKRES_LOCKED, w2) => Some (LOCKED, w2)
    | Some (PARKRES_DEADLOCKED, w2) => Some (DEADLOCKED, w2)
    | None => None
    end.
Proof.
  intros Ht. cbn [lock]. unfold bind at 1. rewrite Ht.
  unfold _mm_pause, yield. unfold bind at 1. unfold bind at 1.
  destruct (park E lot me this (moved w1)) as [[[| |] w2] |]; reflexivity.
Qed.

(** C4, as the code has it.  When the parking lot answers [Skip] and the
    flag [is_dead_locked] is clear, [park] takes the caller off the
    waiter count once and reports [PARKRES_LOCKED]; [lock] returns
    [LOCKED] from the same pass of its loop, without another attempt. *)
Theorem park_skip_reports_locked (me this : Z) (waitdata : WaitNodeData)
    (w w1 wa w2 wd : World Mem) :
  increment_num_waiters this w = Some (true, w1) ->
  park_announce E me this w1 = Some (waitdata, wa) ->
  lot me this waitdata (park_validate me this) wa = Some (Skip, w2) ->
  deref (frame_of me) (mem w2) = false ->
  park_denounce E me w2 = Some (tt, wd) ->
  exists w',
    park E lot me this w = Some (PARKRES_LOCKED, w')
    /\ (exists n : nat,
          w' = commit this Word.decrement_num_waiters (Nat.iter n moved wd))
    /\ (env w2 = [] ->
        w' = commit this Word.decrement_num_waiters wd)
    /\ (forall (fuel : nat) (w0 wt : World Mem),
          try_lock me this w0 = Some (false, wt) ->
          moved wt = w ->
          lock E lot (S fuel) me this w0 = Some (LOCKED, w')).
Proof.
  intros Hi Ha Hl Hflag Hd.
  destruct (decrement_num_waiters_spec this wd) as [n Hn].
  assert (Hp : park E lot me this w
               = Some (PARKRES_LOCKED,
                       commit this Word.decrement_num_waiters
                         (Nat.iter n moved wd))).
  { rewrite (park_run _ _ _ _ Hi).
    rewrite (park_lambda_run _ _ _ _ _ _ _ _ Ha Hl Hd), Hflag.
    cbn [fst]. rewrite Hn. reflexivity. }
  eexists. split; [exact Hp |]. split; [exists n; reflexivity |]. split.
  - intros Hq. rewrite iter_moved_quiet; [reflexivity |].
    destruct (park_denounce_frames _ _ _ Hd) as (_ & _ & _ & ->). exact Hq.
  - intros fuel w0 wt Ht <-. rewrite (lock_run _ _ _ _ _ Ht), Hp.
    reflexivity.
Qed.

(** The path on which the parking lot answers [Skip] and the flag is
    set takes the caller off the waiter count twice. *)
Lemma park_skip_flagged_decrements_twice (me this : Z)
    (waitdata : WaitNodeData) (w w1 wa w2 wd : World Mem) :
  increment_num_waiters this w = Some (true, w1) ->
  park_announce E me this w1 = Some (waitdata, wa) ->
  lot me this waitdata (park_validate me this) wa = Some (Skip, w2) ->
  deref (frame_of me) (mem w2) = true ->
  park_denounce E me w2 = Some (tt, wd) ->
  env w2 = [] ->
  park E lot me this w
  = Some (PARKRES_LOCKED,
          commit this Word.decrement_num_waiters
            (commit this Word.decrement_num_waiters wd)).
Proof.
  intros Hi Ha Hl Hflag Hd Hq.
  destruct (park_denounce_frames _ _ _ Hd) as (_ & _ & _ & Henv).
  rewrite (park_run _ _ _ _ Hi).
  rewrite (park_lambda_run _ _ _ _ _ _ _ _ Ha Hl Hd), Hflag.
  rewrite decrement_num_waiters_quiet by congruence.
  cbn [fst]. rewrite decrement_num_waiters_quiet by (simpl; congruence).
  reflexivity.
Qed.
End Park.

(** ** What the modelled parking lot adds *)

Section Folly.
Context `{ThreadRegistry}.
Variable E : bool.

Lemma park_skips_iff_invalid {D : Type} (get : Mem -> gmap Z (list (WaitNode D)))
    (set : gmap Z (list (WaitNode D)) -> Mem -> Mem) (me key : Z) (d : D)
    (validate : Mem -> bool) (w w2 : World Mem) :
  ParkingLot.park get set me key d validate w = Some (Skip, w2) ->
  w2 = moved w /\ validate (mem (moved w)) = false.
Proof.
  unfold ParkingLot.park. mrun. destruct (validate (mem (moved w))).
  - destruct (parked _ _ _ _); discriminate.
  - intros [= <-]. auto.
Qed.

Lemma park_announce_run (me this : Z) (w : World Mem) :
  exists waitdata wa,
    park_announce E me this w = Some (waitdata, wa)
    /\ tid waitdata = me
    /\ is_dead_locked waitdata = frame_of me
    /\ deref (frame_of me) (mem wa) = false
    /\ words (mem wa) = words (mem w)
    /\ parkinglot (mem wa) = parkinglot (mem w)
    /\ env wa = env w.
Proof.
  unfold park_announce, WaitInfo.announce_wait. destruct E; mrun;
    (eexists; eexists; split; [reflexivity |]); cbn [mem env tid is_dead_locked];
    repeat split; unfold deref, store_wait_info, store_bool; simpl;
    rewrite lookup_insert_eq; reflexivity.
Qed.

(** The modelled lot answers [Skip] only to a caller that holds the
    mutex already or whose flag is set; the flag of a caller nobody
    disturbs is clear, the caller having cleared it itself. *)
Lemma skip_means_already_held (me this : Z) (waitdata : WaitNodeData)
    (w wa w2 : World Mem) :
  park_announce E me this w = Some (waitdata, wa) ->
  ParkingLot.park get_lot set_parkinglot me this waitdata
    (park_validate me this) wa = Some (Skip, w2) ->
  w2 = moved wa
  /\ (is_locked_by_me me this (mem w2) = true
      \/ deref (frame_of me) (mem w2) = true)
  /\ (env w = [] ->
      deref (frame_of me) (mem w2) = false
      /\ is_locked_by_me me this (mem w2) = true).
Proof.
  intros Ha Hs.
  destruct (park_announce_run me this w)
    as (waitdata' & wa' & Ha' & _ & _ & Hflag & _ & _ & Henv).
  rewrite Ha in Ha'. injection Ha' as <- <-.
  destruct (park_skips_iff_invalid _ _ _ _ _ _ _ _ Hs) as [-> Hv].
  unfold park_validate in Hv. apply andb_false_iff in Hv.
  rewrite !negb_false_iff in Hv.
  split; [reflexivity |]. split; [exact Hv |].
  intros Hq. rewrite moved_quiet in * by congruence.
  split; [exact Hflag |]. destruct Hv as [Hv | Hv]; [exact Hv | congruence].
Qed.
End Folly.

(** ** [unlock] *)

Section Unlock.
Context `{ThreadRegistry}.

Lemma queue_set_queue (key key' : Z) (q : list (WaitNode WaitNodeData))
    (m : Mem) :
  queue get_lot key' (set_queue get_lot set_parkinglot key q m)
  = if decide (key = key') then q else queue get_lot key' m.
Proof.
  unfold queue, set_queue, get_lot. simpl.
  rewrite lookup_insert. destruct (decide (key = key')); reflexivity.
Qed.

Lemma queue_store_word (this key : Z) (v : LockWord) (m : Mem) :
  queue get_lot key (store_word this v m) = queue get_lot key m.
Proof. reflexivity. Qed.

Lemma word_at_set_queue (this key : Z) (q : list (WaitNode WaitNodeData))
    (m : Mem) :
  word_at this (set_queue get_lot set_parkinglot key q m) = word_at this m.
Proof. reflexivity. Qed.

Lemma unpark_unlock_filter (this : Z) (w : World Mem) :
  exists n : nat,
    unpark get_lot set_parkinglot this (unlock_filter this) false w
    = match queue get_lot this (mem (moved w)) with
      | [] => Some (false,
                    mkWorld (set_queue get_lot set_parkinglot this []
                               (mem (moved w))) (env (moved w)))
      | nd :: rest =>
          Some (true, handed_off this (tid (data nd)) rest
                        (Nat.iter n moved (moved w)))
      end.
Proof.
  unfold unpark. unfold bind at 1. unfold yield at 1.
  unfold bind at 1. unfold gets at 1.
  destruct (queue get_lot this (mem (moved w))) as [| nd rest].
  - exists 0%nat. reflexivity.
  - destruct (transfer_lock_spec this (tid (data nd)) (moved w)) as [n Hn].
    exists n. cbn [unpark_scan]. unfold unlock_filter.
    unfold bind at 1. unfold bind at 1. unfold bind at 1. rewrite Hn.
    reflexivity.
Qed.

Lemma unlock_hand_off (fuel : nat) (this : Z) (nd : WaitNode WaitNodeData)
    (rest : list (WaitNode WaitNodeData)) (w : World Mem) :
  Word.has_waiters (word_at this (mem w)) = true ->
  queue get_lot this (mem (moved w)) = nd :: rest ->
  exists n : nat,
    unlock (S fuel) this w
    = Some (tt, handed_off this (tid (data nd)) rest
                  (Nat.iter n moved (moved w))).
Proof.
  intros Hw Hq. destruct (unpark_unlock_filter this w) as [n Hn].
  rewrite Hq in Hn. exists n. cbn [unlock]. unfold load.
  unfold bind at 1. unfold gets at 1. rewrite Hw.
  unfold bind at 1. rewrite Hn. reflexivity.
Qed.

Lemma unlock_no_waiters (fuel : nat) (this : Z) (w : World Mem) :
  Word.has_waiters (word_at this (mem w)) = false ->
  env w = [] ->
  unlock (S fuel) this w
  = Some (tt, mkWorld (store_word this Word.get_unlocked_word (mem w)) []).
Proof.
  intros Hw Hq. cbn [unlock]. unfold load.
  unfold bind at 1. unfold gets at 1. rewrite Hw.
  unfold bind at 1. rewrite compare_exchange_strong_run.
  rewrite moved_quiet by exact Hq. rewrite eqb_refl, Hq. reflexivity.
Qed.

(** C5. With waiters counted and a waiter in the lot, [unlock] hands the
    mutex over: the word becomes [{waiter.tid, num_waiters - 1}] for the
    first waiter the scan sees, on the count the compare-exchange found,
    and exactly that waiter leaves the queue.  With no waiter counted,
    [unlock] by the holder exchanges [{self, 0}] for
    [{INVALID_HOLDER, 0}] and leaves the lot alone. *)
Theorem unlock_transfers_or_releases (fuel : nat) (this : Z)
    (w : World Mem) :
  (forall nd rest,
      Word.has_waiters (word_at this (mem w)) = true ->
      queue get_lot this (mem (moved w)) = nd :: rest ->
      exists (n : nat) (w' : World Mem),
        unlock (S fuel) this w = Some (tt, w')
        /\ word_at this (mem w')
           = Word.transfer_lock (tid (data nd))
               (word_at this (mem (Nat.iter n moved (moved w))))
        /\ holder (word_at this (mem w')) = tid (data nd)
        /\ queue get_lot this (mem w') = rest
        /\ (env w = [] ->
            0 < num_waiters (word_at this (mem w)) < 2 ^ 32 ->
            word_at this (mem w')
            = mkLockWord (tid (data nd))
                         (num_waiters (word_at this (mem w)) - 1)))
  /\ (forall me,
        word_at this (mem w) = mkLockWord me 0 ->
        env w = [] ->
        exists w' : World Mem,
          unlock (S fuel) this w = Some (tt, w')
          /\ word_at this (mem w') = mkLockWord Word.INVALID_HOLDER 0
          /\ parkinglot (mem w') = parkinglot (mem w)).
Proof.
  split.
  - intros nd rest Hw Hq.
    destruct (unlock_hand_off fuel this nd rest w Hw Hq) as [n Hn].
    exists n. eexists. split; [exact Hn |].
    unfold handed_off, commit. cbn [mem env].
    rewrite word_at_set_queue, word_at_store_word_eq.
    split; [reflexivity |]. split; [reflexivity |].
    split; [rewrite queue_set_queue, decide_True by done; reflexivity |].
    intros Hquiet Hn'. rewrite (moved_quiet w) by exact Hquiet.
    rewrite iter_moved_quiet by exact Hquiet.
    unfold Word.transfer_lock. rewrite wrap_unsigned_small by lia.
    reflexivity.
  - intros me Hw Hquiet. eexists. split.
    + apply unlock_no_waiters; [rewrite Hw; reflexivity | exact Hquiet].
    + cbn [mem]. rewrite word_at_store_word_eq. split; reflexivity.
Qed.
End Unlock.

(** ** The holder field names at most one thread *)

Section Holder.
Context `{ThreadRegistry}.

Lemma keeps_ret {A} (a : A) (Q : A -> Prop) : Q a -> keeps (ret a) Q.
Proof. intros HQ w a' w' Hw [= <- <-]. auto. Qed.

Lemma keeps_stuck {A} (Q : A -> Prop) : keeps stuck Q.
Proof. intros w a w' _ [=]. Qed.

Lemma keeps_bind {A B} (c : M Mem A) (k : A -> M Mem B)
    (Q : A -> Prop) (R : B -> Prop) :
  keeps c Q -> (forall a, Q a -> keeps (k a) R) -> keeps (bind c k) R.
Proof.
  intros Hc Hk w b w' Hw. unfold bind.
  destruct (c w) as [[a w1] |] eqn:Hcw; [| discriminate].
  destruct (Hc _ _ _ Hw Hcw) as [Hw1 HQ]. apply (Hk a HQ w1 b w' Hw1).
Qed.

Lemma keeps_weaken {A} (c : M Mem A) (Q R : A -> Prop) :
  keeps c Q -> (forall a, Q a -> R a) -> keeps c R.
Proof.
  intros Hc HQR w a w' Hw Hr. destruct (Hc _ _ _ Hw Hr). auto.
Qed.

Lemma keeps_gets {A} (f : Mem -> A) :
  keeps (gets f) (fun a => exists m, mem_ok m /\ a = f m).
Proof.
  intros w a w' Hw [= <- <-]. split; [exact Hw |].
  exists (mem w). split; [apply Hw | reflexivity].
Qed.

Lemma keeps_modify (f : Mem -> Mem) :
  (forall m, mem_ok m -> mem_ok (f m)) -> keeps (modify f) (fun _ => True).
Proof.
  intros Hf w a w' [Hm He] [= <- <-]. split; [| exact I].
  split; [apply Hf, Hm | exact He].
Qed.

Lemma world_ok_moved (w : World Mem) : world_ok w -> world_ok (moved w).
Proof.
  destruct w as [m [| f rest]]; [auto |]. intros [Hm He]. simpl in *.
  inversion He as [| ? ? Hf Hrest]; subst. split; [apply Hf, Hm | exact Hrest].
Qed.

Lemma keeps_yield : keeps yield (fun _ => True).
Proof. intros w a w' Hw [= <- <-]. split; [apply world_ok_moved, Hw | exact I]. Qed.

Lemma mem_ok_store_word (this : Z) (v : LockWord) (m : Mem) :
  holder_ok v -> mem_ok m -> mem_ok (store_word this v m).
Proof.
  intros Hv [Hwords Hlot]. split; [| exact Hlot].
  intros this'. rewrite word_at_store_word.
  destruct (decide (this = this')); [exact Hv | apply Hwords].
Qed.

Lemma mem_ok_set_queue (key : Z) (q : list (WaitNode WaitNodeData)) (m : Mem) :
  (forall nd, In nd q -> valid_thread (tid (data nd))) ->
  mem_ok m -> mem_ok (set_queue get_lot set_parkinglot key q m).
Proof.
  intros Hq [Hwords Hlot]. split; [exact Hwords |].
  intros key' nd. rewrite queue_set_queue.
  destruct (decide (key = key')); [apply Hq | apply Hlot].
Qed.

Lemma mem_ok_store_bool (p : Z) (b : bool) (m : Mem) :
  mem_ok m -> mem_ok (store_bool p b m).
Proof. intros Hm. exact Hm. Qed.

Lemma mem_ok_store_wait_info (t : Z) (i : ThreadWaitInfo) (m : Mem) :
  mem_ok m -> mem_ok (store_wait_info t i m).
Proof. intros Hm. exact Hm. Qed.

(** A compare-exchange that succeeds found the word it expected. *)
Lemma keeps_compare_exchange_strong (this : Z) (expected desired : LockWord) :
  (holder_ok expected -> holder_ok desired) ->
  keeps (compare_exchange_strong this expected desired) (fun _ => True).
Proof.
  intros Hd w b w' Hw. rewrite compare_exchange_strong_run.
  pose proof (world_ok_moved _ Hw) as [Hm He].
  destruct (Word.eqb _ _) eqn:Heq; intros [= <- <-]; (split; [| exact I]).
  - apply eqb_eq in Heq. split; [| exact He]. cbn [mem].
    apply mem_ok_store_word; [| exact Hm].
    apply Hd. rewrite <- Heq. apply Hm.
  - split; assumption.
Qed.

Lemma holder_ok_unlocked : holder_ok Word.get_unlocked_word.
Proof. left. reflexivity. Qed.

Lemma holder_ok_lock_word (me : Z) :
  valid_thread me -> holder_ok (Word.get_lock_word me).
Proof. intros Hme. right. exact Hme. Qed.

Lemma holder_ok_transfer (tid : Z) (w : LockWord) :
  valid_thread tid -> holder_ok (Word.transfer_lock tid w).
Proof. intros Ht. right. exact Ht. Qed.

Lemma keeps_try_lock (me this : Z) :
  valid_thread me -> keeps (try_lock me this) (fun _ => True).
Proof.
  intros Hme. apply keeps_compare_exchange_strong.
  intros _. apply holder_ok_lock_word, Hme.
Qed.

Lemma keeps_increment_num_waiters_loop (fuel : nat) (this : Z) :
  keeps (increment_num_waiters_loop fuel this) (fun _ => True).
Proof.
  induction fuel as [| fuel IH]; [apply keeps_stuck |].
  cbn [increment_num_waiters_loop].
  eapply keeps_bind; [apply keeps_gets |]. intros old _.
  destruct (negb (Word.is_locked old)); [apply keeps_ret; exact I |].
  eapply keeps_bind;
    [apply keeps_compare_exchange_strong; intros Ho; exact Ho |].
  intros [|] _; [apply keeps_ret; exact I |].
  eapply keeps_bind; [apply keeps_yield |]. intros _ _. exact IH.
Qed.

Lemma keeps_decrement_num_waiters_loop (fuel : nat) (this : Z) :
  keeps (decrement_num_waiters_loop fuel this) (fun _ => True).
Proof.
  induction fuel as [| fuel IH]; [apply keeps_stuck |].
  cbn [decrement_num_waiters_loop].
  eapply keeps_bind; [apply keeps_gets |]. intros old _.
  eapply keeps_bind;
    [apply keeps_compare_exchange_strong; intros Ho; exact Ho |].
  intros [|] _; [apply keeps_ret; exact I |].
  eapply keeps_bind; [apply keeps_yield |]. intros _ _. exact IH.
Qed.

Lemma keeps_transfer_lock_loop (fuel : nat) (this tid : Z) :
  valid_thread tid ->
  keeps (transfer_lock_loop fuel this tid) (fun _ => True).
Proof.
  intros Ht. induction fuel as [| fuel IH]; [apply keeps_stuck |].
  cbn [transfer_lock_loop].
  eapply keeps_bind; [apply keeps_gets |]. intros old _.
  eapply keeps_bind;
    [apply keeps_compare_exchange_strong; intros _;
     apply holder_ok_transfer, Ht |].
  intros [|] _; [apply keeps_ret; exact I |].
  eapply keeps_bind; [apply keeps_yield |]. intros _ _. exact IH.
Qed.

Lemma keeps_increment_num_waiters (this : Z) :
  keeps (increment_num_waiters this) (fun _ => True).
Proof. intros w. apply keeps_increment_num_waiters_loop. Qed.

Lemma keeps_decrement_num_waiters (this : Z) :
  keeps (decrement_num_waiters this) (fun _ => True).
Proof. intros w. apply keeps_decrement_num_waiters_loop. Qed.

Lemma keeps_transfer_lock (this tid : Z) :
  valid_thread tid -> keeps (transfer_lock this tid) (fun _ => True).
Proof. intros Ht w. apply keeps_transfer_lock_loop, Ht. Qed.

Lemma keeps_unpark_scan {S : Type}
    (filter : WaitNodeData -> S -> M Mem (UnparkControl * S))
    (q : list (WaitNode WaitNodeData)) (s : S) :
  (forall nd s, In nd q -> keeps (filter (data nd) s) (fun _ => True)) ->
  keeps (unpark_scan filter q s)
        (fun r => forall nd, In nd (fst r) -> In nd q).
Proof.
  revert s. induction q as [| n rest IH]; intros s Hf.
  - apply keeps_ret. auto.
  - cbn [unpark_scan]. eapply keeps_bind; [apply Hf; left; reflexivity |].
    intros [ctl s1] _. destruct ctl.
    + eapply keeps_bind; [apply IH; intros; apply Hf; right; assumption |].
      intros [r s2] Hr. apply keeps_ret. simpl in *.
      intros nd [-> | Hin]; [left; reflexivity | right; apply Hr, Hin].
    + eapply keeps_weaken; [apply IH; intros; apply Hf; right; assumption |].
      intros r Hr nd Hin. right. apply Hr, Hin.
    + apply keeps_ret. auto.
    + apply keeps_ret. simpl. intros nd Hin. right. exact Hin.
Qed.

Lemma keeps_unpark {S : Type} (key : Z)
    (filter : WaitNodeData -> S -> M Mem (UnparkControl * S)) (s : S) :
  (forall nd s, valid_thread (tid (data nd)) ->
                keeps (filter (data nd) s) (fun _ => True)) ->
  keeps (unpark get_lot set_parkinglot key filter s) (fun _ => True).
Proof.
  intros Hf. unfold unpark.
  eapply keeps_bind; [apply keeps_yield |]. intros _ _.
  eapply keeps_bind; [apply keeps_gets |].
  intros q (m & Hm & ->).
  eapply keeps_bind.
  { apply keeps_unpark_scan. intros nd s' Hin. apply Hf.
    apply (proj2 Hm key nd Hin). }
  intros [r s1] Hr.
  eapply keeps_bind; [| intros _ _; apply keeps_ret; exact I].
  apply keeps_modify. intros m' Hm'. apply mem_ok_set_queue; [| exact Hm'].
  intros nd Hin. apply (proj2 Hm key nd). apply Hr. exact Hin.
Qed.

Lemma keeps_unlock (fuel : nat) (this : Z) :
  keeps (unlock fuel this) (fun _ => True).
Proof.
  induction fuel as [| fuel IH]; [apply keeps_stuck |].
  cbn [unlock]. eapply keeps_bind; [apply keeps_gets |]. intros old _.
  eapply keeps_bind with (Q := fun _ => True).
  { destruct (Word.has_waiters old).
    - apply keeps_unpark. intros nd s Hv. unfold unlock_filter.
      eapply keeps_bind; [apply keeps_transfer_lock, Hv |].
      intros _ _. apply keeps_ret. exact I.
    - apply keeps_compare_exchange_strong. intros _.
      apply holder_ok_unlocked. }
  intros [|] _; [apply keeps_ret; exact I |].
  eapply keeps_bind; [apply keeps_yield |]. intros _ _. exact IH.
Qed.

Lemma keeps_parkinglot_park (me key : Z) (d : WaitNodeData)
    (validate : Mem -> bool) :
  valid_thread (tid d) ->
  keeps (ParkingLot.park get_lot set_parkinglot me key d validate)
        (fun _ => True).
Proof.
  intros Hd. unfold ParkingLot.park.
  eapply keeps_bind; [apply keeps_yield |]. intros _ _.
  eapply keeps_bind; [apply keeps_gets |]. intros [|] _;
    [| apply keeps_ret; exact I].
  eapply keeps_bind.
  { apply keeps_modify. intros m Hm. unfold enqueue.
    apply mem_ok_set_queue; [| exact Hm].
    intros nd Hin. apply in_app_or in Hin. destruct Hin as [Hin | [<- | []]].
    - apply (proj2 Hm key nd Hin).
    - exact Hd. }
  intros _ _. eapply keeps_bind; [apply keeps_yield |]. intros _ _.
  eapply keeps_bind; [apply keeps_gets |]. intros [|] _;
    [apply keeps_stuck | apply keeps_ret; exact I].
Qed.

Lemma keeps_park_announce (E : bool) (me this : Z) :
  keeps (park_announce E me this) (fun waitdata => tid waitdata = me).
Proof.
  unfold park_announce.
  eapply keeps_bind;
    [apply keeps_modify; intros m Hm; apply mem_ok_store_bool, Hm |].
  intros _ _. eapply keeps_bind; [apply keeps_gets |]. intros now _.
  eapply keeps_bind; [apply keeps_gets |]. intros info _.
  destruct (WaitInfo.announce_wait E now this info) as [token announced].
  eapply keeps_bind with (Q := fun _ => True).
  { destruct E; [| apply keeps_ret; exact I].
    apply keeps_modify. intros m Hm. apply mem_ok_store_wait_info, Hm. }
  intros _ _. apply keeps_ret. reflexivity.
Qed.

Lemma keeps_park_denounce (E : bool) (me : Z) :
  keeps (park_denounce E me) (fun _ => True).
Proof.
  unfold park_denounce. destruct E; [| apply keeps_ret; exact I].
  apply keeps_modify. intros m Hm. apply mem_ok_store_wait_info, Hm.
Qed.

Lemma keeps_park_lambda (E : bool) (me this : Z) :
  valid_thread me ->
  keeps (park_lambda E folly_park me this) (fun _ => True).
Proof.
  intros Hme. unfold park_lambda.
  eapply keeps_bind; [apply keeps_park_announce |]. intros waitdata Htid.
  eapply keeps_bind.
  { apply keeps_parkinglot_park. rewrite Htid. exact Hme. }
  intros res _. eapply keeps_bind; [apply keeps_park_denounce |].
  intros _ _. eapply keeps_bind; [apply keeps_gets |]. intros dead _.
  eapply keeps_bind with (Q := fun _ => True);
    [| intros _ _; apply keeps_ret; exact I].
  destruct dead; [| apply keeps_ret; exact I].
  eapply keeps_bind; [apply keeps_decrement_num_waiters |].
  intros _ _. apply keeps_ret. exact I.
Qed.

Lemma keeps_park (E : bool) (me this : Z) :
  valid_thread me -> keeps (park E folly_park me this) (fun _ => True).
Proof.
  intros Hme. unfold park.
  eapply keeps_bind; [apply keeps_increment_num_waiters |].
  intros [|] _; [| apply keeps_ret; exact I].
  eapply keeps_bind; [apply keeps_park_lambda, Hme |].
  intros [res dead] _. cbn [fst snd]. destruct res.
  - eapply keeps_bind; [apply keeps_decrement_num_waiters |].
    intros _ _. apply keeps_ret. exact I.
  - apply keeps_ret. exact I.
  - apply keeps_ret. exact I.
Qed.

Lemma keeps_lock (E : bool) (fuel : nat) (me this : Z) :
  valid_thread me -> keeps (lock E folly_park fuel me this) (fun _ => True).
Proof.
  intros Hme. induction fuel as [| fuel IH]; [apply keeps_stuck |].
  cbn [lock]. eapply keeps_bind; [apply keeps_try_lock, Hme |].
  intros [|] _; [apply keeps_ret; exact I |].
  eapply keeps_bind; [apply keeps_yield |]. intros _ _.
  eapply keeps_bind; [apply keeps_park, Hme |].
  intros [| |] _; [exact IH | apply keeps_ret; exact I ..].
Qed.

Lemma keeps_gather_loop (ids : list Z) (d : DeadlockDetector.Detector) :
  keeps (DeadlockDetector.gather_loop ids d) (fun _ => True).
Proof.
  revert d. induction ids as [| waiter_id rest IH]; intros d;
    [apply keeps_ret; exact I |].
  cbn [DeadlockDetector.gather_loop].
  eapply keeps_bind; [apply keeps_gets |]. intros waiter_info _.
  eapply keeps_bind with (Q := fun _ => True); [| intros d1 _; apply IH].
  destruct (negb _); [| apply keeps_ret; exact I].
  apply keeps_unpark. intros nd s _. unfold DeadlockDetector.gather_filter.
  destruct (tid (data nd) =? waiter_id); [| apply keeps_ret; exact I].
  eapply keeps_bind; [apply keeps_gets |]. intros lock_word _.
  apply keeps_ret. exact I.
Qed.

Lemma keeps_detect_lock_cycle (waiterid l : Z)
    (d : DeadlockDetector.Detector) :
  keeps (DeadlockDetector.detect_lock_cycle waiterid l d) (fun _ => True).
Proof.
  intros w r w' Hw. unfold DeadlockDetector.detect_lock_cycle.
  destruct (DeadlockDetector.detect_lock_cycle_loop _ _ _ _);
    intros [= <- <-]. auto.
Qed.

Lemma keeps_verify_lock_cycle (lockcycle : list (Z * Z))
    (d : DeadlockDetector.Detector) :
  keeps (DeadlockDetector.verify_lock_cycle lockcycle d) (fun _ => True).
Proof.
  destruct lockcycle as [| x rest]; [apply keeps_ret; exact I |].
  unfold DeadlockDetector.verify_lock_cycle.
  eapply keeps_bind; [apply keeps_gets |]. intros waiter _.
  destruct (DeadlockDetector.waiters_subscript waiter d) as [info d1].
  eapply keeps_bind; [| intros u _; apply keeps_ret; exact I].
  apply keeps_unpark. intros nd s _. unfold DeadlockDetector.verify_filter.
  destruct (_ && _); [| apply keeps_ret; exact I].
  eapply keeps_bind; [| intros _ _; apply keeps_ret; exact I].
  apply keeps_modify. intros m Hm. apply mem_ok_store_bool, Hm.
Qed.

Lemma keeps_run_loop (ws : list (Z * DeadlockDetector.WaiterInfo))
    (d : DeadlockDetector.Detector) :
  keeps (DeadlockDetector.run_loop ws d) (fun _ => True).
Proof.
  revert d. induction ws as [| waiter rest IH]; intros d;
    [apply keeps_ret; exact I |].
  cbn [DeadlockDetector.run_loop].
  eapply keeps_bind; [apply keeps_detect_lock_cycle |].
  intros [lockcycle d1] _.
  eapply keeps_bind; [apply keeps_verify_lock_cycle |].
  intros [[|] d2] _; [apply keeps_ret; exact I | apply IH].
Qed.

Lemma keeps_run (d : DeadlockDetector.Detector) :
  keeps (DeadlockDetector.run d) (fun _ => True).
Proof.
  unfold DeadlockDetector.run,
    DeadlockDetector.gather_waiters_and_holders_info.
  eapply keeps_bind; [apply keeps_gather_loop |].
  intros d1 _. apply keeps_run_loop.
Qed.

Lemma keeps_detect_deadlocks (fuel : nat) :
  keeps (DeadlockDetector.detect_deadlocks fuel) (fun _ => True).
Proof.
  unfold DeadlockDetector.detect_deadlocks.
  generalize 0 (DeadlockDetector.mkDetector ∅ ∅).
  induction fuel as [| fuel IH]; intros n d; [apply keeps_stuck |].
  cbn [DeadlockDetector.detect_deadlocks_loop].
  eapply keeps_bind; [apply keeps_run |].
  intros [[|] d1] _; [apply IH | apply keeps_ret; exact I].
Qed.

Lemma mem_ok_fresh (now : Z) : mem_ok (mkMem ∅ ∅ ∅ ∅ now).
Proof.
  split.
  - intros this. unfold word_at. simpl. rewrite lookup_empty.
    apply holder_ok_unlocked.
  - intros key nd. unfold queue, get_lot. simpl. rewrite lookup_empty.
    intros [].
Qed.

Lemma reachable_world_ok (E : bool) (w : World Mem) :
  reachable E w -> world_ok w.
Proof.
  induction 1 as [now others Ho | w others _ IH Ho
                  | me this w b w' _ IH Hme Hr
                  | fuel me this w r w' _ IH Hme Hr
                  | fuel this w w' _ IH Hr
                  | this tid w w' _ IH Ht Hr
                  | fuel w n w' _ IH Hr].
  - split; [apply mem_ok_fresh | exact Ho].
  - destruct IH as [Hm He]. split; [exact Hm |].
    apply Forall_app. split; assumption.
  - apply (keeps_try_lock me this Hme _ _ _ IH Hr).
  - apply (keeps_lock E fuel me this Hme _ _ _ IH Hr).
  - apply (keeps_unlock fuel this _ _ _ IH Hr).
  - apply (keeps_transfer_lock this tid Ht _ _ _ IH Hr).
  - apply (keeps_detect_deadlocks fuel _ _ _ IH Hr).
Qed.

(** C1. In every world the operations of the mutex and of its detector
    lead to, the holder field of every mutex is [INVALID_HOLDER] or the
    identifier of one thread, and two threads that both read
    [is_locked_by_me()] as true are the same thread. *)
Theorem at_most_one_thread_is_holder (E : bool) (w : World Mem) :
  reachable E w ->
  forall this,
    holder_ok (word_at this (mem w))
    /\ forall t1 t2,
         is_locked_by_me t1 this (mem w) = true ->
         is_locked_by_me t2 this (mem w) = true ->
         t1 = t2.
Proof.
  intros Hr this. split.
  - apply (proj1 (proj1 (reachable_world_ok E w Hr))).
  - unfold is_locked_by_me, Word.is_locked_by_me. intros t1 t2 H1 H2.
    apply Z.eqb_eq in H1, H2. congruence.
Qed.
End Holder.

(** ** Wait tokens *)

Section Tokens.
Lemma announce_wait_token (now lock : Z) (info : ThreadWaitInfo) :
  0 <= current_wait_token info < 2 ^ 64 - 1 ->
  fst (WaitInfo.announce_wait true now lock info)
  = current_wait_token info + 1
  /\ current_wait_token (snd (WaitInfo.announce_wait true now lock info))
     = current_wait_token info + 1.
Proof.
  intros Ht. unfold WaitInfo.announce_wait. simpl.
  unfold wrap_unsigned. rewrite Z.mod_small by lia. auto.
Qed.

Lemma wait_episodes_above (episodes : list (Z * Z)) (info : ThreadWaitInfo) :
  0 <= current_wait_token info ->
  current_wait_token info + Z.of_nat (length episodes) < 2 ^ 64 ->
  Forall (fun token => current_wait_token info < token)
         (wait_episodes true episodes info)
  /\ StronglySorted Z.lt (wait_episodes true episodes info).
Proof.
  revert info. induction episodes as [| [now lock] rest IH];
    intros info H0 Hlen.
  - split; constructor.
  - cbn [wait_episodes].
    destruct (announce_wait_token now lock info) as [Hf Hs];
      [cbn [length] in Hlen; lia |].
    destruct (WaitInfo.announce_wait true now lock info)
      as [token announced] eqn:Ha.
    cbn [fst snd] in Hf, Hs.
    destruct (IH (WaitInfo.denounce_wait true announced)) as [Habove Hsorted].
    { simpl. lia. }
    { simpl. cbn [length] in Hlen. lia. }
    assert (Hd : current_wait_token (WaitInfo.denounce_wait true announced)
                 = current_wait_token info + 1) by exact Hs.
    rewrite Hd in Habove. split.
    + constructor; [lia |].
      eapply Forall_impl; [exact Habove |]. simpl. intros; lia.
    + constructor; [exact Hsorted |].
      eapply Forall_impl; [exact Habove |]. simpl. intros; lia.
Qed.

Lemma StronglySorted_lt_NoDup (l : list Z) :
  StronglySorted Z.lt l -> NoDup l.
Proof.
  induction 1 as [| a l Hs IH Ha]; constructor; [| exact IH].
  intros Hin. rewrite Forall_forall in Ha. specialize (Ha a Hin). lia.
Qed.

(** C9, as the code has it.  While the counter of a thread stays below
    [2^64 - 1], each announcement returns the counter plus one, so the
    tokens of successive waits increase strictly and no two are equal. *)
Theorem wait_tokens_increase (episodes : list (Z * Z))
    (info : ThreadWaitInfo) :
  0 <= current_wait_token info ->
  current_wait_token info + Z.of_nat (length episodes) < 2 ^ 64 ->
  Forall (fun token => current_wait_token info < token)
         (wait_episodes true episodes info)
  /\ StronglySorted Z.lt (wait_episodes true episodes info)
  /\ NoDup (wait_episodes true episodes info).
Proof.
  intros H0 Hlen.
  destruct (wait_episodes_above episodes info H0 Hlen) as [Ha Hs].
  repeat split; [exact Ha | exact Hs | apply StronglySorted_lt_NoDup, Hs].
Qed.
End Tokens.

(** ** The detector *)

Section Detector.
Import DeadlockDetector.
Context `{ThreadRegistry}.


Lemma select_waiter_loop_fresh (m : Mem) (lockcycle : list (Z * Z)) :
  Forall (fresh m) lockcycle ->
  forall latest_time latest_waiter,
    let r := select_waiter_loop lockcycle latest_time latest_waiter m in
    (r = latest_waiter
     /\ Forall (fun x => start_of m (fst x) <= latest_time) lockcycle)
    \/ (exists pre l post,
          lockcycle = pre ++ (r, l) :: post
          /\ latest_time < start_of m r
          /\ Forall (fun x => start_of m (fst x) < start_of m r) pre
          /\ Forall (fun x => start_of m (fst x) <= start_of m r) post).
Proof.
  induction lockcycle as [| [t l] rest IH]; intros Hfresh lt lw.
  - left. split; [reflexivity | constructor].
  - inversion Hfresh as [| ? ? Hhd Htl]; subst. unfold fresh in Hhd.
    cbn [fst snd] in Hhd. cbn [select_waiter_loop]. cbv zeta.
    cbn [fst snd]. rewrite <- Hhd, Z.eqb_refl. cbn [negb].
    fold (start_of m t).
    destruct (Z.ltb_spec lt (start_of m t)) as [Hlater | Hnot].
    + destruct (IH Htl (start_of m t) t)
        as [[Hr Hall] | (pre & l' & post & Heq & Hlt & Hpre & Hpost)].
      * right. exists [], l, rest. rewrite Hr.
        repeat split; [exact Hlater | constructor | exact Hall].
      * right. exists ((t, l) :: pre), l', post.
        repeat split; [simpl; f_equal; exact Heq | lia | | exact Hpost].
        constructor; [exact Hlt | exact Hpre].
    + destruct (IH Htl lt lw)
        as [[Hr Hall] | (pre & l' & post & Heq & Hlt & Hpre & Hpost)].
      * left. split; [exact Hr |]. constructor; [exact Hnot | exact Hall].
      * right. exists ((t, l) :: pre), l', post.
        repeat split; [simpl; f_equal; exact Heq | exact Hlt | | exact Hpost].
        constructor; [cbn [fst]; lia | exact Hpre].
Qed.

(** C6, as the code has it.  For a cycle whose entries are all what
    their threads announce now, and with a member whose wait began after
    the clock's epoch, [select_waiter] returns a member of the cycle
    whose [wait_start_time] is the latest; of several members with the
    latest time it returns the one the walk over the cycle meets
    first. *)
Theorem select_waiter_latest_first (m : Mem) (lockcycle : list (Z * Z)) :
  Forall (fresh m) lockcycle ->
  Exists (fun waiter => 0 < start_of m (fst waiter)) lockcycle ->
  exists pre l post,
    lockcycle = pre ++ (select_waiter lockcycle m, l) :: post
    /\ Forall (fun x => start_of m (fst x)
                        < start_of m (select_waiter lockcycle m)) pre
    /\ Forall (fun x => start_of m (fst x)
                        <= start_of m (select_waiter lockcycle m)) post.
Proof.
  intros Hfresh Hex. unfold select_waiter.
  destruct (select_waiter_loop_fresh m lockcycle Hfresh 0 INVALID_THREADID)
    as [[_ Hall] | (pre & l & post & Heq & _ & Hpre & Hpost)].
  - exfalso. apply Exists_exists in Hex. destruct Hex as (x & Hin & Hpos).
    rewrite Forall_forall in Hall. specialize (Hall x Hin). simpl in Hall. lia.
  - exists pre, l, post. repeat split; assumption.
Qed.

(** *** [verify_lock_cycle] *)

Lemma verify_scan_no_victim (waiter token : Z)
    (q : list (WaitNode WaitNodeData)) (w : World Mem) :
  Forall (fun nd => is_victim waiter token nd = false) q ->
  unpark_scan (verify_filter waiter token) q false w = Some ((q, false), w).
Proof.
  induction 1 as [| nd rest Hnd _ IH]; [reflexivity |].
  cbn [unpark_scan]. unfold verify_filter at 1. unfold is_victim in Hnd.
  rewrite Hnd. unfold bind at 1. unfold ret at 1. unfold bind at 1.
  rewrite IH. reflexivity.
Qed.

Lemma verify_scan_victim (waiter token : Z)
    (q r : list (WaitNode WaitNodeData)) (w w' : World Mem) :
  unpark_scan (verify_filter waiter token) q false w = Some ((r, true), w') ->
  exists pre nd post,
    q = pre ++ nd :: post
    /\ Forall (fun nd => is_victim waiter token nd = false) pre
    /\ is_victim waiter token nd = true
    /\ r = pre ++ post
    /\ w' = mkWorld (store_bool (is_dead_locked (data nd)) true (mem w))
                    (env w).
Proof.
  revert r. induction q as [| nd rest IH]; intros r; [discriminate |].
  cbn [unpark_scan]. unfold verify_filter at 1.
  destruct ((tid (data nd) =? waiter)
            && (FairMutex.wait_token (data nd) =? token)) eqn:Hv.
  - mrun. intros [= <- <-]. exists [], nd, rest.
    repeat split; [constructor | exact Hv].
  - unfold bind at 1. unfold ret at 1. unfold bind at 1.
    destruct (unpark_scan (verify_filter waiter token) rest false w)
      as [[[r1 u] w1] |] eqn:Hs; [| discriminate].
    unfold ret. intros [= <- -> <-].
    destruct (IH r1 eq_refl) as (pre & nd' & post & -> & Hpre & Hnd & -> & ->).
    exists (nd :: pre), nd', post.
    repeat split; [constructor; assumption | exact Hnd].
Qed.

Lemma verify_lock_cycle_run (lockcycle : list (Z * Z)) (d : Detector)
    (w : World Mem) :
  lockcycle <> [] ->
  verify_lock_cycle lockcycle d w
  = let waiter := select_waiter lockcycle (mem w) in
    let info := fst (waiters_subscript waiter d) in
    match unpark_scan (verify_filter waiter (wait_token info))
            (queue get_lot (lock info) (mem (moved w))) false (moved w) with
    | Some ((r, unparked), w1) =>
        Some ((unparked, snd (waiters_subscript waiter d)),
              mkWorld (set_queue get_lot set_parkinglot (lock info) r
                         (mem w1)) (env w1))
    | None => None
    end.
Proof.
  intros Hne. destruct lockcycle as [| x rest]; [congruence |].
  unfold verify_lock_cycle. unfold bind at 1. unfold gets at 1.
  cbv zeta.
  destruct (waiters_subscript (select_waiter (x :: rest) (mem w)) d)
    as [info d1]. cbn [fst snd].
  unfold unpark. unfold bind at 1. unfold bind at 1. unfold yield at 1.
  unfold bind at 1. unfold gets at 1. unfold bind at 1.
  destruct (unpark_scan _ _ _ _) as [[[r u] w1] |]; reflexivity.
Qed.

Lemma queue_set_queue_same (key key' : Z) (m : Mem) :
  queue get_lot key' (set_queue get_lot set_parkinglot key
                        (queue get_lot key m) m)
  = queue get_lot key' m.
Proof.
  rewrite queue_set_queue. destruct (decide (key = key')); congruence.
Qed.



Lemma verify_true_unparks (lockcycle : list (Z * Z)) (d d' : Detector)
    (w w' : World Mem) :
  verify_lock_cycle lockcycle d w = Some ((true, d'), w') ->
  exists key pre nd post,
    queue get_lot key (mem (moved w)) = pre ++ nd :: post
    /\ tid (data nd) = select_waiter lockcycle (mem w)
    /\ queue get_lot key (mem w') = pre ++ post
    /\ deref (is_dead_locked (data nd)) (mem w') = true.
Proof.
  destruct lockcycle as [| x rest]; [discriminate |].
  rewrite verify_lock_cycle_run by discriminate. cbv zeta.
  destruct (unpark_scan _ _ _ _) as [[[r u] w1] |] eqn:Hs;
    [| discriminate].
  intros [= -> <- <-].
  destruct (verify_scan_victim _ _ _ _ _ _ Hs)
    as (pre & nd & post & Hq & _ & Hv & -> & ->).
  eexists. exists pre, nd, post. split; [exact Hq |].
  unfold is_victim in Hv. apply andb_true_iff in Hv.
  destruct Hv as [Hv _]. apply Z.eqb_eq in Hv.
  split; [exact Hv |]. cbn [mem]. split.
  - rewrite queue_set_queue, decide_True by done. reflexivity.
  - unfold deref, set_queue, store_bool. simpl.
    rewrite lookup_insert_eq. reflexivity.
Qed.



End Detector.

(** ** The waiter count has no floor *)

Section Underflow.
Context `{ThreadRegistry}.

(** C10. [decrement_num_waiters] returns true from every world, after
    as many passes as the other threads disturb; what it stores is the
    count it found less one modulo [2^32], whoever holds the mutex and
    also when the count is 0, which becomes [2^32 - 1].  The path of
    [park] on which the parking lot answers [Skip] and the flag is set
    runs it twice for the one registration. *)
Theorem decrement_num_waiters_wraps (this : Z) (w : World Mem) :
  (exists n : nat,
      decrement_num_waiters this w
      = Some (true, commit this Word.decrement_num_waiters
                      (Nat.iter n moved w)))
  /\ (forall h n,
        Word.decrement_num_waiters (mkLockWord h n)
        = mkLockWord h ((n - 1) mod 2 ^ 32))
  /\ (forall h,
        Word.decrement_num_waiters (mkLockWord h 0)
        = mkLockWord h (2 ^ 32 - 1))
  /\ (env w = [] ->
      num_waiters (word_at this (mem w)) = 0 ->
      exists w',
        decrement_num_waiters this w = Some (true, w')
        /\ word_at this (mem w')
           = mkLockWord (holder (word_at this (mem w))) (2 ^ 32 - 1))
  /\ (forall (E : bool)
             (lot : Z -> Z -> WaitNodeData -> (Mem -> bool)
                    -> M Mem ParkResult)
             (me : Z) (waitdata : WaitNodeData) (w1 wa w2 wd : World Mem),
        increment_num_waiters this w = Some (true, w1) ->
        park_announce E me this w1 = Some (waitdata, wa) ->
        lot me this waitdata (park_validate me this) wa = Some (Skip, w2) ->
        deref (frame_of me) (mem w2) = true ->
        park_denounce E me w2 = Some (tt, wd) ->
        env w2 = [] ->
        park E lot me this w
        = Some (PARKRES_LOCKED,
                commit this Word.decrement_num_waiters
                  (commit this Word.decrement_num_waiters wd))).
Proof.
  split; [apply decrement_num_waiters_spec |].
  split; [reflexivity |]. split; [reflexivity |]. split.
  - intros Hq Hz. eexists. split; [apply decrement_num_waiters_quiet, Hq |].
    unfold commit. cbn [mem]. rewrite word_at_store_word_eq.
    unfold Word.decrement_num_waiters. rewrite Hz. reflexivity.
  - intros E lot me waitdata w1 wa w2 wd.
    apply park_skip_flagged_decrements_twice.
Qed.
End Underflow.

(** ** The passes of [detect_lock_cycle] *)

Section CycleWalk.
Import DeadlockDetector.
Lemma count_spec (waiterid : Z) (lockcycle : list (Z * Z)) :
  count waiterid lockcycle = true <-> waiterid ∈ map fst lockcycle.
Proof.
  unfold count. rewrite existsb_exists, list_elem_of_In, in_map_iff. split.
  - intros (x & Hin & Heq). exists x. split; [lia | exact Hin].
  - intros (x & Heq & Hin). exists x. split; [exact Hin | lia].
Qed.



Lemma waiters_subscript_present (t : Z) (d : Detector) :
  is_Some (waiters d !! t) -> snd (waiters_subscript t d) = d.
Proof.
  intros [i Hi]. unfold waiters_subscript. rewrite Hi. reflexivity.
Qed.





End CycleWalk.

(** ** [run] *)

Section Run.
Import DeadlockDetector.
Context `{ThreadRegistry}.



End Run.
End FairMutexSpec.

(** ** The standard mutex: the protocol of the word *)

Module MutexFacts.
Import Mutex MutexProps MutexSpec.

Lemma lnot_mask : Z.lnot Word.M_CONTENDED_MASK = Z.ones 31.
Proof. reflexivity. Qed.

Lemma as_uncontented_word_safe (w : Z) :
  Word.as_uncontented_word (E := true) w = w mod 2 ^ 31.
Proof.
  cbn [Word.as_uncontented_word]. rewrite lnot_mask.
  apply Z.land_ones. lia.
Qed.

Lemma is_locked_safe (w : Z) :
  Word.is_locked (E := true) w = negb (w =? 2 ^ 31 - 1).
Proof. reflexivity. Qed.

(** X1.  In the deadlock-safe instantiation, for a thread identifier [t]
    with [0 <= t < 2^31 - 1], both words that name [t] as holder,
    [get_lock_word] and [get_contented_word], are locked and differ from
    one another, and [as_uncontented_word] takes either of them to
    [get_lock_word]: it strips the mark and keeps the identifier.  The
    identifier [2^31 - 1] is the sentinel [M_UNLOCKED] itself: its
    [get_lock_word] is not locked. *)
Theorem holder_words_decode (t : Z) :
  0 <= t < 2 ^ 31 - 1 ->
  Word.is_locked (E := true) (Word.get_lock_word true t) = true
  /\ Word.is_locked (E := true) (Word.get_contented_word true t) = true
  /\ Word.get_contented_word true t <> Word.get_lock_word true t
  /\ Word.as_uncontented_word (E := true) (Word.get_contented_word true t)
     = Word.get_lock_word true t
  /\ Word.as_uncontented_word (E := true) (Word.get_lock_word true t)
     = Word.get_lock_word true t
  /\ Word.is_locked (E := true) (Word.get_lock_word true (2 ^ 31 - 1)) = false.
Proof.
  intros Ht. rewrite !as_uncontented_word_safe, !is_locked_safe.
  cbn [Word.get_contented_word Word.get_lock_word].
  rewrite lor_mask by lia.
  split; [apply negb_true_iff, Z.eqb_neq; lia |].
  split; [apply negb_true_iff, Z.eqb_neq; lia |].
  split; [lia |].
  split.
  - replace (t - 2 ^ 31) with (t + (-1) * 2 ^ 31) by lia.
    rewrite Z.mod_add by lia. apply Z.mod_small. lia.
  - split; [apply Z.mod_small; lia | reflexivity].
Qed.

(** ** What [lock] returns *)

Section Lock.
Context `{ThreadRegistry}.
Context {E : bool}.

Lemma word_at_stored (this : Z) (v : WordType E) (m : Mem E) :
  word_at this (store_word this v m) = v.
Proof. rewrite words_at_store_word, decide_True by done. reflexivity. Qed.

End Lock.


(** X3.  In the lean instantiation [lock] never returns [DEADLOCKED]:
    whenever it returns, it returns [LOCKED]. *)
Theorem lean_lock_never_deadlocked `{ThreadRegistry} (fuel : nat)
    (me this : Z) (w w' : World (Mem false)) (r : MutexLockResult) :
  lock fuel me this w = Some (r, w') -> r = LOCKED.
Proof.
  assert (Hc : forall fuel (w : World (Mem false)),
             lock_contended fuel me this w = Some (r, w') -> r = LOCKED).
  { clear fuel w. induction fuel as [| fuel IH]; intros w; [discriminate |].
    cbn [lock_contended]. unfold bind at 1.
    destruct (try_lock_contended me this w) as [[[|] w1] |];
      [| | discriminate].
    - intros [= <-]. reflexivity.
    - unfold bind at 1. unfold park. unfold bind at 1.
      destruct (ParkingLot.park _ _ _ _ _ _ _) as [[res w2] |];
        [| discriminate].
      unfold ret at 1. apply IH. }
  revert w. induction fuel as [| fuel IH]; intros w; [discriminate |].
  cbn [lock]. unfold bind at 1.
  destruct (try_lock me this w) as [[[|] w1] |]; [| | discriminate].
  - intros [= <-]. reflexivity.
  - unfold bind at 1.
    destruct (uncontended_path_available me this w1) as [[[|] w2] |];
      [| | discriminate]; cbn [negb].
    + mrun. apply IH.
    + apply Hc.
Qed.

Section Announce.
Context `{ThreadRegistry}.

Lemma slot_store_slot {E} (t t' l : Z) (m : Mem E) :
  slot t' (store_slot t l m) = if decide (t = t') then l else slot t' m.
Proof.
  unfold slot, store_slot. simpl.
  rewrite lookup_insert. destruct (decide (t = t')); reflexivity.
Qed.

(** X8.  In the deadlock-safe instantiation, whenever [park] returns,
    with true or with false, the caller's slot of [thread_waiting_on] is
    null. *)
Theorem park_clears_announcement (me this : Z) (w w' : World (Mem true))
    (deadlock : bool) :
  park me this w = Some (deadlock, w') ->
  slot me (mem w') = nullptr.
Proof.
  destruct deadlock.
  - intros Hp. apply park_true in Hp. destruct Hp as (w1 & _ & Hc).
    apply check_deadlock_true in Hc. destruct Hc as (ws & _ & Hv).
    apply verify_deadlock_true in Hv. destruct Hv as (_ & _ & ->).
    cbn [mem]. rewrite slot_store_slot, decide_True by done. reflexivity.
  - unfold park, announce_wait, denounce_wait.
    unfold bind at 1. unfold modify at 1. cbn [mem env].
    unfold bind at 1.
    destruct (park_for _ _ _ _ _ _ _) as [[res w1] |]; [| discriminate].
    unfold bind at 1.
    destruct (match res with
              | Timeout => check_deadlock me this
              | _ => ret false
              end w1) as [[[|] w2] |]; [discriminate | | discriminate].
    mrun. intros [= <-]. cbn [mem].
    rewrite slot_store_slot, decide_True by done. reflexivity.
Qed.

Lemma detect_deadlock_world {E} (me this : Z) (w w1 : World (Mem E))
    (r : bool * gmap Z Z) :
  detect_deadlock me this w = Some (r, w1) -> w1 = w.
Proof.
  unfold detect_deadlock.
  destruct (detect_deadlock_loop _ _ _ _); congruence.
Qed.

(** X10.  A [check_deadlock] that returns false has stored nothing: the
    world is the one it was called in or, when the search had found a
    cycle that did not verify, that world after the move the other
    threads made while the caller waited for [dead_lock_verify_mutex],
    which is released again. *)
Theorem check_deadlock_false_stores_nothing {E} (me this : Z)
    (w w' : World (Mem E)) :
  check_deadlock me this w = Some (false, w') ->
  w' = w \/ w' = moved w.
Proof.
  unfold check_deadlock. destruct E; [| intros [= <-]; left; reflexivity].
  unfold bind at 1.
  destruct (detect_deadlock me this w) as [[[found ws] w1] |] eqn:Hd;
    [| discriminate].
  apply detect_deadlock_world in Hd. subst w1.
  destruct found; [| intros [= <-]; left; reflexivity].
  unfold verify_deadlock, lock_guard, lock_guard_release, denounce_wait.
  mrun. intros Hv. right.
  destruct (dead_lock_verify_mutex (mem (moved w))) eqn:Hheld;
    mrun_in Hv; [discriminate |].
  destruct (still_current ws (set_verify_mutex true (mem (moved w))));
    mrun_in Hv; [discriminate |].
  injection Hv as <-. unfold set_verify_mutex. cbn.
  destruct (moved w) as [[ws' tw lot held] e]. cbn in *. subst held.
  reflexivity.
Qed.
End Announce.

(** ** [lock] on a mutex that stays held *)

Section Held.
Import Exclusion.
Context `{ThreadRegistry}.
Variable this : Z.

Lemma holds_on_ret {E A} (a : A) (Q : A -> Prop) :
  Q a -> holds_on (E := E) this (ret a) Q.
Proof. intros Hq w a' w' Hh [= <- <-]. auto. Qed.

Lemma holds_on_bind {E A B} (c : M (Mem E) A) (k : A -> M (Mem E) B)
    (P : A -> Prop) (Q : B -> Prop) :
  holds_on this c P ->
  (forall a, P a -> holds_on this (k a) Q) ->
  holds_on this (bind c k) Q.
Proof.
  intros Hc Hk w b w' Hh. unfold bind.
  destruct (c w) as [[a w1] |] eqn:Hcw; [| discriminate].
  destruct (Hc w a w1 Hh Hcw) as [Hh1 Hp]. apply (Hk a Hp w1 b w' Hh1).
Qed.

Lemma holds_on_gets {E A} (f : Mem E -> A) :
  holds_on this (gets f) (fun _ => True).
Proof. intros w a w' Hh [= <- <-]. auto. Qed.

Lemma holds_on_stuck {E A} (Q : A -> Prop) :
  holds_on (E := E) this stuck Q.
Proof. intros w a w'. discriminate. Qed.

Lemma holds_on_modify {E} (f : Mem E -> Mem E) :
  keeps_held this f -> holds_on this (modify f) (fun _ => True).
Proof.
  intros Hf w a w' [Hl He] [= <- <-]. split; [| exact I].
  split; [apply Hf, Hl | exact He].
Qed.

Lemma held_for_good_moved {E} (w : World (Mem E)) :
  held_for_good this w -> held_for_good this (moved w).
Proof.
  intros [Hl He]. unfold moved. destruct (env w) as [| f rest] eqn:Henv.
  - split; [exact Hl |]. rewrite Henv. constructor.
  - inversion He as [| ? ? Hf Hrest]; subst.
    split; [apply Hf, Hl | exact Hrest].
Qed.

Lemma holds_on_yield {E} : holds_on (E := E) this yield (fun _ => True).
Proof.
  intros w a w' Hh [= <- <-]. split; [| exact I].
  apply held_for_good_moved, Hh.
Qed.

Lemma keeps_held_words {E} (f : Mem E -> Mem E) :
  (forall m, words (f m) = words m) -> keeps_held this f.
Proof. intros Hf m. unfold word_at. rewrite Hf. auto. Qed.

(** A compare-exchange that expects the unlocked word fails. *)
Lemma holds_on_cas_free {E} (desired : WordType E) :
  holds_on this
    (compare_exchange_strong this (Word.get_unlocked_word E) desired)
    (fun swapped => swapped = false).
Proof.
  intros w a w' Hh. rewrite compare_exchange_strong_step.
  apply held_for_good_moved in Hh. pose proof (proj1 Hh) as Hl.
  unfold Word.is_locked, Word.get_value in Hl.
  apply negb_true_iff in Hl. rewrite Hl. intros [= <- <-]. auto.
Qed.

(** One that stores a locked word leaves the mutex held. *)
Lemma holds_on_cas_locked {E} (expected desired : WordType E) :
  Word.is_locked desired = true ->
  holds_on this (compare_exchange_strong this expected desired)
           (fun _ => True).
Proof.
  intros Hd w a w' Hh. rewrite compare_exchange_strong_step.
  apply held_for_good_moved in Hh.
  destruct (Word.eqb _ _); intros [= <- <-]; [| auto].
  split; [| exact I]. split; [| apply Hh]. cbn [mem].
  rewrite words_at_store_word, decide_True by done. exact Hd.
Qed.

Lemma contented_word_locked {E} (me : Z) :
  Word.is_locked (Word.get_contented_word E me) = true.
Proof.
  destruct E; [| reflexivity].
  rewrite is_locked_safe. apply negb_true_iff, Z.eqb_neq.
  cbn [Word.get_contented_word].
  assert (Hneg : Z.lor me Word.M_CONTENDED_MASK < 0).
  { apply Z.lor_neg. right. reflexivity. }
  lia.
Qed.

Lemma holds_on_uncontended_path_available {E} (me : Z) :
  holds_on (E := E) this (uncontended_path_available me this)
           (fun _ => True).
Proof.
  assert (Hloop : forall fuel,
             holds_on (E := E) this
               (uncontended_path_available_loop fuel me this)
               (fun _ => True)).
  { induction fuel as [| fuel IH]; [apply holds_on_stuck |].
    cbn [uncontended_path_available_loop].
    eapply holds_on_bind; [apply holds_on_gets |]. intros old _.
    destruct (negb (Word.is_locked old)); [apply holds_on_ret; exact I |].
    eapply holds_on_bind.
    - destruct (Word.is_lock_contented old).
      + apply holds_on_ret with (Q := fun _ => True). exact I.
      + apply holds_on_cas_locked, contented_word_locked.
    - intros contended _. destruct contended; [apply holds_on_ret; exact I |].
      eapply holds_on_bind; [apply holds_on_yield |]. intros _ _. exact IH. }
  intros w a w'. apply Hloop.
Qed.

Lemma holds_on_park_for {E} (me : Z) (validate : Mem E -> bool) :
  holds_on this (park_for get_lot set_parkinglot me this tt validate)
           (fun _ => True).
Proof.
  unfold park_for.
  eapply holds_on_bind; [apply holds_on_yield |]. intros _ _.
  eapply holds_on_bind; [apply holds_on_gets |]. intros v _.
  destruct v; [| apply holds_on_ret; exact I].
  eapply holds_on_bind;
    [apply holds_on_modify, keeps_held_words; reflexivity |]. intros _ _.
  eapply holds_on_bind; [apply holds_on_yield |]. intros _ _.
  eapply holds_on_bind; [apply holds_on_gets |]. intros asleep _.
  destruct asleep; [| apply holds_on_ret; exact I].
  eapply holds_on_bind;
    [apply holds_on_modify, keeps_held_words; reflexivity |]. intros _ _.
  apply holds_on_ret. exact I.
Qed.

Lemma holds_on_lot_park {E} (me : Z) (validate : Mem E -> bool) :
  holds_on this (ParkingLot.park get_lot set_parkinglot me this tt validate)
           (fun _ => True).
Proof.
  unfold ParkingLot.park.
  eapply holds_on_bind; [apply holds_on_yield |]. intros _ _.
  eapply holds_on_bind; [apply holds_on_gets |]. intros v _.
  destruct v; [| apply holds_on_ret; exact I].
  eapply holds_on_bind;
    [apply holds_on_modify, keeps_held_words; reflexivity |]. intros _ _.
  eapply holds_on_bind; [apply holds_on_yield |]. intros _ _.
  eapply holds_on_bind; [apply holds_on_gets |]. intros asleep _.
  destruct asleep; [apply holds_on_stuck | apply holds_on_ret; exact I].
Qed.

Lemma holds_on_check_deadlock {E} (me : Z) :
  holds_on (E := E) this (check_deadlock me this) (fun _ => True).
Proof.
  unfold check_deadlock. destruct E; [| apply holds_on_ret; exact I].
  eapply holds_on_bind with (P := fun _ => True).
  - intros w r w' Hh Hd. apply detect_deadlock_world in Hd. subst w'. auto.
  - intros [found waiters] _. destruct found; [| apply holds_on_ret; exact I].
    unfold verify_deadlock, lock_guard, lock_guard_release, denounce_wait.
    eapply holds_on_bind with (P := fun _ => True).
    + eapply holds_on_bind; [apply holds_on_yield |]. intros _ _.
      eapply holds_on_bind; [apply holds_on_gets |]. intros held _.
      destruct held; [apply holds_on_stuck |].
      apply holds_on_modify, keeps_held_words. reflexivity.
    + intros _ _.
      eapply holds_on_bind; [apply holds_on_gets |]. intros ok _.
      destruct ok.
      * eapply holds_on_bind;
          [apply holds_on_modify, keeps_held_words; reflexivity |].
        intros _ _.
        eapply holds_on_bind;
          [apply holds_on_modify, keeps_held_words; reflexivity |].
        intros _ _. apply holds_on_ret. exact I.
      * eapply holds_on_bind;
          [apply holds_on_modify, keeps_held_words; reflexivity |].
        intros _ _. apply holds_on_ret. exact I.
Qed.

(** [park] reports a deadlock in the deadlock-safe instantiation only. *)
Lemma holds_on_park {E} (me : Z) :
  holds_on (E := E) this (park me this)
           (fun deadlock => deadlock = true -> E = true).
Proof.
  unfold park. destruct E.
  - unfold announce_wait, denounce_wait.
    eapply holds_on_bind;
      [apply holds_on_modify, keeps_held_words; reflexivity |]. intros _ _.
    eapply holds_on_bind; [apply holds_on_park_for |]. intros res _.
    eapply holds_on_bind with (P := fun _ => True).
    + destruct res; try (apply holds_on_ret; exact I).
      apply holds_on_check_deadlock.
    + intros deadlock _. destruct deadlock; [apply holds_on_ret; auto |].
      eapply holds_on_bind;
        [apply holds_on_modify, keeps_held_words; reflexivity |].
      intros _ _. apply holds_on_ret. auto.
  - eapply holds_on_bind; [apply holds_on_lot_park |]. intros _ _.
    apply holds_on_ret. discriminate.
Qed.

Lemma holds_on_lock_contended {E} (fuel : nat) (me : Z) :
  holds_on (E := E) this (lock_contended fuel me this)
           (fun r => r = DEADLOCKED /\ E = true).
Proof.
  induction fuel as [| fuel IH]; [apply holds_on_stuck |].
  cbn [lock_contended].
  eapply holds_on_bind; [apply holds_on_cas_free |]. intros acquired ->.
  eapply holds_on_bind; [apply holds_on_park |]. intros deadlock Hd.
  destruct deadlock; [apply holds_on_ret; auto | exact IH].
Qed.

(** X2.  [lock] takes no mutex that is held.  Called on a mutex whose
    word is locked, while the other threads release nothing (each move
    they still make leaves a locked word of this mutex locked), [lock]
    does not return [LOCKED]: its compare-exchanges from the unlocked
    word fail, and the one word it stores is the contended one.  If it
    returns at all it returns [DEADLOCKED], in the deadlock-safe
    instantiation, and the mutex is held as before.  This holds in both
    instantiations and however many passes the loops make. *)
Theorem lock_respects_the_holder {E} (fuel : nat) (me : Z)
    (w w' : World (Mem E)) (r : MutexLockResult) :
  held_for_good this w ->
  lock fuel me this w = Some (r, w') ->
  r = DEADLOCKED /\ E = true /\ held_for_good this w'.
Proof.
  intros Hh Hl.
  assert (Hlock : forall fuel,
             holds_on (E := E) this (lock fuel me this)
                      (fun r => r = DEADLOCKED /\ E = true)).
  { clear. induction fuel as [| fuel IH]; [apply holds_on_stuck |].
    cbn [lock].
    eapply holds_on_bind; [apply holds_on_cas_free |]. intros acquired ->.
    eapply holds_on_bind; [apply holds_on_uncontended_path_available |].
    intros fast _. destruct fast; cbn [negb].
    - eapply holds_on_bind; [apply holds_on_yield |]. intros _ _. exact IH.
    - apply holds_on_lock_contended. }
  destruct (Hlock fuel w r w' Hh Hl) as (Hh' & -> & ->). auto.
Qed.
End Held.

(** ** [uncontended_path_available] *)

Section Mark.
Context `{ThreadRegistry}.

Lemma uncontended_path_available_loop_marks {E} (fuel : nat) (me this : Z)
    (w w' : World (Mem E)) (fast : bool) :
  uncontended_path_available_loop fuel me this w = Some (fast, w') ->
  if fast then Word.is_locked (word_at this (mem w')) = false
  else (Word.is_locked (word_at this (mem w')) = true
        /\ Word.is_lock_contented (word_at this (mem w')) = true)
       \/ word_at this (mem w') = Word.get_contented_word E me.
Proof.
  revert w. induction fuel as [| fuel IH]; intros w; [discriminate |].
  cbn [uncontended_path_available_loop]. unfold load.
  unfold bind at 1. unfold gets at 1.
  destruct (Word.is_locked (word_at this (mem w))) eqn:Hl; cbn [negb].
  2: { intros [= <- <-]. exact Hl. }
  unfold bind at 1.
  destruct (Word.is_lock_contented (word_at this (mem w))) eqn:Hc.
  { intros [= <- <-]. left. split; assumption. }
  rewrite compare_exchange_strong_step.
  destruct (Word.eqb _ _).
  - intros [= <- <-]. right. cbn [mem]. apply word_at_stored.
  - mrun. apply IH.
Qed.

(** X4.  In the lean instantiation, when [uncontended_path_available]
    returns true the word it read last is [LS_UNLOCKED]; when it returns
    false the word is [LS_CONTENTED], found so or put there by its
    compare-exchange.  The slow path is entered only with the mutex
    marked contended. *)
Theorem uncontended_path_available_lean (me this : Z)
    (w w' : World (Mem false)) (fast : bool) :
  uncontended_path_available me this w = Some (fast, w') ->
  word_at this (mem w') = if fast then LS_UNLOCKED else LS_CONTENTED.
Proof.
  intros Hu. apply uncontended_path_available_loop_marks in Hu.
  destruct fast.
  - destruct (word_at this (mem w')); [reflexivity | discriminate ..].
  - destruct Hu as [[_ Hc] | Hc]; [| exact Hc].
    destruct (word_at this (mem w')); [discriminate .. | reflexivity].
Qed.
End Mark.


(** ** The search of [check_deadlock] *)

Section Search.
Import WaitGraph.
Context `{ThreadRegistry}.

Lemma detect_deadlock_loop_closed (fuel : nat) (waiting_on : Z)
    (ws ws' : gmap Z Z) (m : Mem true) :
  detect_deadlock_loop fuel waiting_on ws m = Some (true, ws') ->
  ws ⊆ ws'
  /\ (forall t l, ws' !! t = Some l ->
        ws !! t = Some l
        \/ (ws !! t = None /\ slot t m = l /\ l <> nullptr /\ valid_thread t))
  /\ (forall t l, ws' !! t = Some l ->
        ws !! t = None \/ l = waiting_on -> closed ws' m l).
Proof.
  revert waiting_on ws.
  induction fuel as [| fuel IH]; intros waiting_on ws; [discriminate |].
  cbn [detect_deadlock_loop].
  destruct (negb (Word.is_locked _)) eqn:Hl; [discriminate |].
  apply negb_false_iff in Hl.
  fold (holder_of waiting_on m). fold (holder_of waiting_on m) in Hl.
  set (h := holder_of waiting_on m) in *.
  destruct (Z.leb_spec 0 h) as [H0 |]; [| discriminate].
  destruct (Z.ltb_spec h MAX_THREADS) as [H1 |]; [| discriminate].
  cbn [andb negb].
  destruct (Z.eqb_spec (slot h m) nullptr) as [| Hnn]; [discriminate |].
  case_bool_decide as Hin.
  - intros [= <-]. split; [reflexivity |]. split; [auto |].
    intros t l Hl' [Hnone | ->]; [congruence |].
    split; [exact Hl |]. split; [split; assumption | exact Hin].
  - intros Hrec. apply IH in Hrec. destruct Hrec as (Hsub & Hnew & Hcl).
    assert (Hnone : ws !! h = None).
    { destruct (ws !! h) eqn:Hh; [| reflexivity].
      exfalso. apply Hin. eexists. reflexivity. }
    assert (Hh' : ws' !! h = Some (slot h m)).
    { eapply lookup_weaken; [| exact Hsub]. apply lookup_insert_eq. }
    split; [| split].
    + etransitivity; [| exact Hsub]. apply insert_subseteq. exact Hnone.
    + intros t l Hl'. destruct (Hnew t l Hl') as [Hold | (Hn & Hs & Hnz & Hv)].
      * destruct (decide (h = t)) as [<- | Hne].
        -- rewrite lookup_insert_eq in Hold. injection Hold as <-.
           right. split; [exact Hnone |]. split; [reflexivity |].
           split; [exact Hnn | split; assumption].
        -- rewrite lookup_insert_ne in Hold by exact Hne. left. exact Hold.
      * right. destruct (decide (h = t)) as [<- | Hne].
        -- rewrite lookup_insert_eq in Hn. discriminate.
        -- rewrite lookup_insert_ne in Hn by exact Hne. auto.
    + intros t l Hl' [Ht | ->].
      * destruct (decide (h = t)) as [<- | Hne].
        -- rewrite Hh' in Hl'. injection Hl' as <-.
           apply (Hcl h). exact Hh'. right. reflexivity.
        -- apply (Hcl t); [exact Hl' |]. left.
           rewrite lookup_insert_ne by exact Hne. exact Ht.
      * split; [exact Hl |]. split; [split; assumption |].
        fold h. rewrite Hh'. eexists. reflexivity.
Qed.

(** X9.  With the other threads at rest, so that every load of the
    search reads the one memory [mem w]: when the search of
    [check_deadlock] answers true, the map [waiters] it built is closed
    in that memory.  It has the caller with the mutex the caller asked
    for; every mutex in it is locked, and the thread its word names as
    holder lies within the array and is itself a key of the map; every
    key other than the caller is a thread of the registry whose slot of
    [thread_waiting_on] holds the non-null mutex recorded for it.  The
    search changes nothing.  Nothing is said of a search that stores of
    other threads fall into. *)
Theorem detect_deadlock_cycle_is_closed (me this : Z)
    (w w1 : World (Mem true)) (waiters : gmap Z Z) :
  env w = [] ->
  detect_deadlock me this w = Some ((true, waiters), w1) ->
  w1 = w
  /\ waiters !! me = Some this
  /\ forall t l, waiters !! t = Some l ->
       closed waiters (mem w) l
       /\ (t <> me -> slot t (mem w) = l /\ l <> nullptr /\ valid_thread t).
Proof.
  intros _ Hd. pose proof (detect_deadlock_world _ _ _ _ _ Hd) as ->.
  split; [reflexivity |]. unfold detect_deadlock in Hd.
  destruct (detect_deadlock_loop _ _ _ _) as [[found ws] |] eqn:Hloop;
    [| discriminate].
  injection Hd as -> ->.
  apply detect_deadlock_loop_closed in Hloop.
  destruct Hloop as (Hsub & Hnew & Hcl).
  assert (Hme : waiters !! me = Some this).
  { eapply lookup_weaken; [| exact Hsub]. apply lookup_singleton_eq. }
  split; [exact Hme |]. intros t l Hl. split.
  - apply (Hcl t l Hl). destruct (decide (me = t)) as [<- | Hne].
    + right. congruence.
    + left. apply lookup_singleton_ne. exact Hne.
  - intros Hne. destruct (Hnew t l Hl) as [Hold | (_ & Hs & Hnz & Hv)].
    + rewrite lookup_singleton_ne in Hold by congruence. discriminate.
    + auto.
Qed.

End Search.


(** ** Whole calls with the other threads at rest *)

Section Quiet.
Context `{ThreadRegistry}.

Lemma is_locked_false_eqb {E} (v : WordType E) :
  Word.is_locked v = false -> Word.eqb v (Word.get_unlocked_word E) = true.
Proof. unfold Word.is_locked, Word.get_value. apply negb_false_iff. Qed.

Lemma is_locked_true_eqb {E} (v : WordType E) :
  Word.is_locked v = true -> Word.eqb v (Word.get_unlocked_word E) = false.
Proof. unfold Word.is_locked, Word.get_value. apply negb_true_iff. Qed.

Lemma words_at_set_queue {E} (this key : Z) (q : list (WaitNode unit))
    (m : Mem E) :
  word_at this (set_queue get_lot set_parkinglot key q m) = word_at this m.
Proof. reflexivity. Qed.

Lemma try_lock_on_free {E} (me this : Z) (w : World (Mem E)) :
  env w = [] ->
  Word.is_locked (word_at this (mem w)) = false ->
  try_lock me this w
  = Some (true, mkWorld (store_word this (Word.get_lock_word E me) (mem w)) []).
Proof.
  intros Hq Hfree. unfold try_lock. rewrite compare_exchange_strong_step.
  rewrite moved_quiet by exact Hq.
  rewrite (is_locked_false_eqb _ Hfree), Hq. reflexivity.
Qed.

Lemma try_lock_on_held {E} (me this : Z) (w : World (Mem E)) :
  env w = [] ->
  Word.is_locked (word_at this (mem w)) = true ->
  try_lock me this w = Some (false, w).
Proof.
  intros Hq Hheld. unfold try_lock. rewrite compare_exchange_strong_step.
  rewrite moved_quiet by exact Hq.
  rewrite (is_locked_true_eqb _ Hheld). reflexivity.
Qed.

(** X7.  With the other threads at rest, [lock] on a free mutex returns
    [LOCKED] from its first compare-exchange and leaves the caller's
    [get_lock_word()] in the word; while it is there, [try_lock] by any
    thread returns false and changes nothing; [unlock] then puts the
    unlocked word back, the words of the other mutexes and
    [thread_waiting_on] being as they were at the start.  The thread
    identifier must not be the sentinel. *)
Theorem lock_unlock_round_trip {E} (fuel : nat) (me this : Z)
    (w : World (Mem E)) :
  env w = [] ->
  Word.is_locked (word_at this (mem w)) = false ->
  Word.is_locked (Word.get_lock_word E me) = true ->
  exists w1 w2,
    lock (S fuel) me this w = Some (LOCKED, w1)
    /\ word_at this (mem w1) = Word.get_lock_word E me
    /\ (forall other, try_lock other this w1 = Some (false, w1))
    /\ unlock this w1 = Some (tt, w2)
    /\ word_at this (mem w2) = Word.get_unlocked_word E
    /\ (forall this', this' <> this ->
          word_at this' (mem w2) = word_at this' (mem w))
    /\ thread_waiting_on (mem w2) = thread_waiting_on (mem w).
Proof.
  intros Hq Hfree Hme.
  set (w1 := mkWorld (store_word this (Word.get_lock_word E me) (mem w)) []).
  assert (Hw1 : word_at this (mem w1) = Word.get_lock_word E me)
    by apply word_at_stored.
  exists w1. eexists. split; [| split; [exact Hw1 | split; [| split]]].
  - cbn [lock]. unfold bind at 1.
    rewrite (try_lock_on_free _ _ _ Hq Hfree). reflexivity.
  - intros other. apply try_lock_on_held; [reflexivity |]. rewrite Hw1. exact Hme.
  - apply unlock_unfold.
  - destruct (Word.is_lock_contented (word_at this (mem w1))); cbv zeta;
      subst w1; unfold released, moved; cbn [mem env];
      (split; [| split]);
      try (intros this' Hne);
      rewrite ?words_at_set_queue, ?words_at_store_word,
        ?decide_True, ?decide_False by done;
      reflexivity.
Qed.

Lemma dequeue_not_parked {E} (me key : Z) (m : Mem E) :
  parked get_lot me key (dequeue get_lot set_parkinglot me key m) = false.
Proof.
  unfold parked, dequeue. rewrite lot_queue_set_queue, decide_True by done.
  apply not_true_is_false. intros Hex.
  apply existsb_exists in Hex. destruct Hex as (nd & Hin & Hown).
  apply list_elem_of_In, list_elem_of_filter in Hin.
  destruct Hin as [Hno _]. rewrite Hown in Hno. exact Hno.
Qed.

Lemma parked_after_enqueue {E} (me key : Z) (m : Mem E) :
  parked get_lot me key
    (enqueue get_lot set_parkinglot key (mkNode me tt) m) = true.
Proof.
  unfold parked, enqueue. rewrite lot_queue_set_queue, decide_True by done.
  rewrite existsb_app. cbn [existsb owner]. rewrite Z.eqb_refl.
  apply orb_true_iff. right. reflexivity.
Qed.

(** A caller that nobody wakes sleeps its time out. *)
Lemma park_for_times_out {E} (me key : Z) (validate : Mem E -> bool)
    (w : World (Mem E)) :
  env w = [] ->
  validate (mem w) = true ->
  park_for get_lot set_parkinglot me key tt validate w
  = Some (Timeout,
          mkWorld (dequeue get_lot set_parkinglot me key
                     (enqueue get_lot set_parkinglot key (mkNode me tt)
                        (mem w))) []).
Proof.
  intros Hq Hv. unfold park_for. mrun.
  rewrite (moved_quiet w Hq), Hv. cbn [mem env]. unfold moved. cbn [mem env].
  rewrite Hq. cbn [mem env]. rewrite parked_after_enqueue. reflexivity.
Qed.

(** X12.  In the deadlock-safe instantiation, with the other threads at
    rest and [dead_lock_verify_mutex] free, a thread that calls [lock] on
    a mutex it holds itself gets [DEADLOCKED]: its wait times out, the
    search finds the cycle of length one and the verification confirms
    it.  The word still names the caller as holder, the caller's slot is
    null and it has left the parking lot. *)
Theorem relock_is_deadlock (fuel : nat) (me this : Z) (w : World (Mem true)) :
  env w = [] ->
  valid_thread me -> me < 2 ^ 31 - 1 ->
  this <> nullptr ->
  word_at this (mem w) = Word.get_lock_word true me ->
  dead_lock_verify_mutex (mem w) = false ->
  exists w',
    lock (S fuel) me this w = Some (DEADLOCKED, w')
    /\ word_at this (mem w') = Word.get_lock_word true me
    /\ slot me (mem w') = nullptr
    /\ parked get_lot me this (mem w') = false.
Proof.
  intros Hq [Hme0 Hme1] Hme Hthis Hword Hfree.
  assert (Hlocked : Word.is_locked (word_at this (mem w)) = true).
  { rewrite Hword, is_locked_safe. apply negb_true_iff, Z.eqb_neq.
    cbn [Word.get_lock_word]. lia. }
  assert (Hcont : Word.is_lock_contented (word_at this (mem w)) = true).
  { rewrite Hword. cbn [Word.get_lock_word].
    rewrite is_lock_contented_safe by lia. apply Z.leb_le. lia. }
  set (m1 := dequeue get_lot set_parkinglot me this
               (enqueue get_lot set_parkinglot this (mkNode me tt)
                  (store_slot me this (mem w)))).
  assert (Hpark : park_for get_lot set_parkinglot me this tt
                    (is_lock_contented this)
                    (mkWorld (store_slot me this (mem w)) (env w))
                  = Some (Timeout, mkWorld m1 [])).
  { apply park_for_times_out; [exact Hq | exact Hcont]. }
  assert (Hword1 : word_at this m1 = me) by exact Hword.
  assert (Hslot1 : slot me m1 = this).
  { subst m1. unfold dequeue, enqueue, set_queue, slot. cbn.
    rewrite lookup_insert_eq. reflexivity. }
  assert (Hdet : detect_deadlock me this (mkWorld m1 [])
                 = Some ((true, {[me := this]}), mkWorld m1 [])).
  { unfold detect_deadlock. cbn [detect_deadlock_loop mem].
    rewrite Hword1, as_uncontented_word_safe, Z.mod_small by lia.
    rewrite is_locked_safe. rewrite (proj2 (Z.eqb_neq _ _)) by lia.
    unfold Word.get_value. cbn [negb].
    rewrite (proj2 (Z.leb_le _ _) Hme0), (proj2 (Z.ltb_lt _ _) Hme1).
    cbn [andb negb]. rewrite Hslot1.
    rewrite (proj2 (Z.eqb_neq _ _) Hthis).
    rewrite bool_decide_eq_true_2; [reflexivity |].
    rewrite lookup_singleton_eq. eexists. reflexivity. }
  set (m2 := store_slot me nullptr m1).
  assert (Hcheck : check_deadlock me this (mkWorld m1 [])
                   = Some (true, mkWorld m2 [])).
  { unfold check_deadlock. unfold bind at 1. rewrite Hdet.
    unfold verify_deadlock, lock_guard, lock_guard_release, denounce_wait.
    mrun. unfold moved. cbn [mem env].
    assert (Hf1 : dead_lock_verify_mutex m1 = false) by exact Hfree.
    rewrite Hf1. mrun.
    assert (Hcur : still_current {[me := this]} (set_verify_mutex true m1)
                   = true).
    { apply still_current_spec. apply map_Forall_singleton. exact Hslot1. }
    rewrite Hcur. mrun. subst m2. unfold set_verify_mutex, store_slot. cbn.
    rewrite Hfree. reflexivity. }
  exists (mkWorld m2 []). split; [| split; [exact Hword | split]].
  - cbn [lock]. unfold bind at 1.
    rewrite (try_lock_on_held _ _ _ Hq Hlocked). unfold bind at 1.
    unfold uncontended_path_available.
    cbn [uncontended_path_available_loop]. unfold load.
    unfold bind at 1. unfold gets at 1. rewrite Hlocked. cbn [negb].
    unfold bind at 1. rewrite Hcont. unfold ret at 1. cbn [negb].
    apply (lock_contended_deadlocked fuel me this w w).
    + unfold try_lock_contended. rewrite compare_exchange_strong_step.
      rewrite moved_quiet by exact Hq.
      rewrite (is_locked_true_eqb _ Hlocked). reflexivity.
    + eapply park_timeout_deadlock; [exact Hpark | exact Hcheck].
  - subst m2. cbn [mem]. rewrite slot_store_slot, decide_True by done.
    reflexivity.
  - subst m2 m1. cbn [mem]. apply dequeue_not_parked.
Qed.

(** X11.  In the deadlock-safe instantiation, with the other threads at
    rest: when the mutex is held by another thread that waits for
    nothing, [park] sleeps its timeout out, finds no deadlock and
    returns false; the words are untouched, the caller's slot is null
    again, the other slots are unchanged and the caller has left the
    parking lot. *)
Theorem park_times_out_against_live_holder (me h this : Z)
    (w : World (Mem true)) :
  env w = [] ->
  valid_thread h -> h < 2 ^ 31 - 1 -> h <> me ->
  word_at this (mem w) = Word.get_lock_word true h ->
  slot h (mem w) = nullptr ->
  exists w',
    park me this w = Some (false, w')
    /\ words (mem w') = words (mem w)
    /\ slot me (mem w') = nullptr
    /\ (forall t, t <> me -> slot t (mem w') = slot t (mem w))
    /\ parked get_lot me this (mem w') = false
    /\ env w' = [].
Proof.
  intros Hq [Hh0 Hh1] Hh Hne Hword Hlive.
  assert (Hcont : Word.is_lock_contented (word_at this (mem w)) = true).
  { rewrite Hword. cbn [Word.get_lock_word].
    rewrite is_lock_contented_safe by lia. apply Z.leb_le. lia. }
  set (m1 := dequeue get_lot set_parkinglot me this
               (enqueue get_lot set_parkinglot this (mkNode me tt)
                  (store_slot me this (mem w)))).
  assert (Hpark : park_for get_lot set_parkinglot me this tt
                    (is_lock_contented this)
                    (mkWorld (store_slot me this (mem w)) (env w))
                  = Some (Timeout, mkWorld m1 [])).
  { apply park_for_times_out; [exact Hq | exact Hcont]. }
  assert (Hword1 : word_at this m1 = h) by exact Hword.
  assert (Hslot1 : slot h m1 = nullptr).
  { subst m1. unfold dequeue, enqueue, set_queue, slot. cbn.
    rewrite lookup_insert_ne by congruence. exact Hlive. }
  assert (Hcheck : check_deadlock me this (mkWorld m1 [])
                   = Some (false, mkWorld m1 [])).
  { unfold check_deadlock. unfold bind at 1.
    unfold detect_deadlock. cbn [detect_deadlock_loop mem].
    rewrite Hword1, as_uncontented_word_safe, Z.mod_small by lia.
    rewrite is_locked_safe. rewrite (proj2 (Z.eqb_neq _ _)) by lia.
    unfold Word.get_value. cbn [negb].
    rewrite (proj2 (Z.leb_le _ _) Hh0), (proj2 (Z.ltb_lt _ _) Hh1).
    cbn [andb negb]. rewrite Hslot1. reflexivity. }
  exists (mkWorld (store_slot me nullptr m1) []).
  split; [| split; [reflexivity | split; [| split; [| split]]]].
  - unfold park, announce_wait, denounce_wait.
    unfold bind at 1. unfold modify at 1. cbn [mem env].
    unfold bind at 1. rewrite Hpark. unfold bind at 1. rewrite Hcheck.
    reflexivity.
  - cbn [mem]. rewrite slot_store_slot, decide_True by done. reflexivity.
  - intros t Ht. cbn [mem]. rewrite slot_store_slot, decide_False by congruence.
    subst m1. unfold dequeue, enqueue, set_queue, slot. cbn.
    rewrite lookup_insert_ne by congruence. reflexivity.
  - cbn [mem]. subst m1. apply dequeue_not_parked.
  - reflexivity.
Qed.

(** X5.  In the deadlock-safe instantiation, with the other threads at
    rest: on a word that is a holder's plain identifier
    [uncontended_path_available] returns false and stores nothing; on a
    word that carries the mark it stores the caller's
    [get_contented_word()] and returns false, so that the identifier in
    the word is the caller's from then on. *)
Theorem uncontended_path_available_safe (me h this : Z)
    (w : World (Mem true)) :
  env w = [] ->
  0 <= h < 2 ^ 31 - 1 -> 0 <= me < 2 ^ 31 ->
  (word_at this (mem w) = Word.get_lock_word true h ->
   uncontended_path_available me this w = Some (false, w))
  /\ (word_at this (mem w) = Word.get_contented_word true h ->
      uncontended_path_available me this w
      = Some (false,
              mkWorld (store_word this (Word.get_contented_word true me)
                         (mem w)) [])
      /\ Word.as_uncontented_word (E := true)
           (Word.get_contented_word true me) = me).
Proof.
  intros Hq Hh Hme. split; intros Hword.
  - unfold uncontended_path_available.
    cbn [uncontended_path_available_loop]. unfold load.
    unfold bind at 1. unfold gets at 1. rewrite Hword.
    rewrite is_locked_safe. cbn [Word.get_lock_word].
    rewrite (proj2 (Z.eqb_neq _ _)) by lia. cbn [negb].
    unfold bind at 1. rewrite is_lock_contented_safe by lia.
    rewrite (proj2 (Z.leb_le _ _)) by lia. reflexivity.
  - split.
    + unfold uncontended_path_available.
      cbn [uncontended_path_available_loop]. unfold load.
      unfold bind at 1. unfold gets at 1. rewrite Hword.
      rewrite is_locked_safe. cbn [Word.get_contented_word].
      rewrite (lor_mask h) by lia.
      rewrite (proj2 (Z.eqb_neq _ _)) by lia. cbn [negb].
      unfold bind at 1. rewrite is_lock_contented_safe by lia.
      rewrite (proj2 (Z.leb_gt _ _)) by lia.
      rewrite compare_exchange_strong_step.
      rewrite moved_quiet by exact Hq. rewrite Hword.
      cbn [Word.get_contented_word]. rewrite (lor_mask h) by lia.
      rewrite word_eqb_refl, Hq. reflexivity.
    + rewrite as_uncontented_word_safe. cbn [Word.get_contented_word].
      rewrite lor_mask by lia.
      replace (me - 2 ^ 31) with (me + (-1) * 2 ^ 31) by lia.
      rewrite Z.mod_add by lia. apply Z.mod_small. lia.
Qed.

End Quiet.

(** ** A waiter and the holder that wakes it *)

Section Handover.
Import Scenario.
Context `{ThreadRegistry}.

Lemma lot_park_run {E} (me key : Z) (validate : Mem E -> bool)
    (w : World (Mem E)) :
  ParkingLot.park get_lot set_parkinglot me key tt validate w
  = if validate (mem (moved w))
    then let w2 := moved (mkWorld (enqueue get_lot set_parkinglot key
                                     (mkNode me tt) (mem (moved w)))
                                  (env (moved w))) in
         if parked get_lot me key (mem w2) then None else Some (Unpark, w2)
    else Some (Skip, moved w).
Proof.
  unfold ParkingLot.park. mrun.
  destruct (validate (mem (moved w))); [| reflexivity].
  cbv zeta. destruct (parked _ _ _ _); reflexivity.
Qed.

Lemma lot_park_for_run {E} (me key : Z) (validate : Mem E -> bool)
    (w : World (Mem E)) :
  park_for get_lot set_parkinglot me key tt validate w
  = if validate (mem (moved w))
    then let w2 := moved (mkWorld (enqueue get_lot set_parkinglot key
                                     (mkNode me tt) (mem (moved w)))
                                  (env (moved w))) in
         if parked get_lot me key (mem w2)
         then Some (Timeout,
                    mkWorld (dequeue get_lot set_parkinglot me key (mem w2))
                            (env w2))
         else Some (Unpark, w2)
    else Some (Skip, moved w).
Proof.
  unfold park_for. mrun.
  destruct (validate (mem (moved w))); [| reflexivity].
  cbv zeta. destruct (parked _ _ _ _); reflexivity.
Qed.

(** What [unlock] by the holder makes of a memory in which one waiter
    sleeps and the word tells [unlock] to wake. *)
Lemma settled_unlock_wakes {E} (me this : Z) (m : Mem E) :
  Word.is_lock_contented (word_at this m) = true ->
  queue get_lot this m = [mkNode me tt] ->
  settled (unlock this) m
  = set_queue get_lot set_parkinglot this []
      (store_word this (Word.get_unlocked_word E) m).
Proof.
  intros Hc Hq. unfold settled. rewrite unlock_unfold. cbn [mem].
  rewrite Hc. cbv zeta. unfold released, moved. cbn [mem env].
  change (queue get_lot this (store_word this (Word.get_unlocked_word E) m))
    with (queue get_lot this m).
  rewrite Hq. reflexivity.
Qed.

(** X27.  In the lean instantiation: a thread calls [lock] on a mutex
    whose word is [LS_LOCKED] and whose queue is empty, and the holder
    calls [unlock] once the caller is asleep.  The caller marks the
    word contended, parks, is woken by that [unlock] and returns
    [LOCKED]; the word is [LS_CONTENTED] and the queue is empty
    again. *)
Theorem lean_lock_is_woken_by_unlock (fuel : nat) (me this : Z)
    (m : Mem false) :
  word_at this m = LS_LOCKED ->
  queue get_lot this m = [] ->
  exists w',
    lock (S (S fuel)) me this
      (mkWorld m [id; id; id; id; settled (unlock this)])
    = Some (LOCKED, w')
    /\ word_at this (mem w') = LS_CONTENTED
    /\ queue get_lot this (mem w') = []
    /\ env w' = [].
Proof.
  intros Hword Hempty.
  set (U := settled (unlock (E := false) this)).
  set (m2 := store_word (E := false) this LS_CONTENTED m).
  set (m3 := enqueue get_lot set_parkinglot this (mkNode me tt) m2).
  set (m4 := set_queue get_lot set_parkinglot this []
               (store_word (E := false) this LS_UNLOCKED m3)).
  assert (HU : U m3 = m4).
  { unfold U, m4. apply (settled_unlock_wakes (E := false) me).
    - unfold m3, enqueue. rewrite words_at_set_queue. unfold m2.
      rewrite word_at_stored. reflexivity.
    - unfold m3, enqueue. rewrite lot_queue_set_queue, decide_True by done.
      change (queue get_lot this m2) with (queue get_lot this m).
      rewrite Hempty. reflexivity. }
  assert (Hpark : park me this (mkWorld m2 [id; U])
                  = Some (false, mkWorld m4 [])).
  { unfold park. unfold bind at 1. rewrite lot_park_run.
    change (moved (mkWorld m2 [id; U])) with (mkWorld m2 [U]).
    cbn [mem env]. unfold is_lock_contented at 1. unfold m2 at 1.
    rewrite word_at_stored. cbn [Word.is_lock_contented Word.LockState_eqb].
    fold m3. cbv zeta.
    change (moved (mkWorld m3 [U])) with (mkWorld (U m3) []).
    rewrite HU. cbn [mem].
    assert (Hp : parked get_lot me this m4 = false).
    { unfold parked, m4. rewrite lot_queue_set_queue, decide_True by done.
      reflexivity. }
    rewrite Hp. reflexivity. }
  exists (mkWorld (store_word (E := false) this LS_CONTENTED m4) []).
  split; [| split; [apply word_at_stored | split; [| reflexivity]]].
  - cbn [lock]. unfold bind at 1. unfold try_lock.
    rewrite compare_exchange_strong_step.
    change (moved (mkWorld m [id; id; id; id; U]))
      with (mkWorld m [id; id; id; U]).
    cbn [mem env]. rewrite Hword. cbn [Word.eqb Word.LockState_eqb
                                        Word.get_unlocked_word].
    unfold bind at 1. unfold uncontended_path_available.
    cbn [env length uncontended_path_available_loop]. unfold load.
    unfold bind at 1. unfold gets at 1. cbn [mem]. rewrite Hword.
    cbn [Word.is_locked Word.eqb Word.LockState_eqb Word.get_value
         Word.get_unlocked_word negb Word.is_lock_contented].
    unfold bind at 1. rewrite compare_exchange_strong_step.
    change (moved (mkWorld m [id; id; id; U])) with (mkWorld m [id; id; U]).
    cbn [mem env]. rewrite Hword.
    cbn [Word.eqb Word.LockState_eqb Word.get_contented_word negb].
    fold m2. unfold ret at 1. cbn [negb lock_contended].
    unfold bind at 1. unfold try_lock_contended at 1.
    rewrite compare_exchange_strong_step.
    change (moved (mkWorld m2 [id; id; U])) with (mkWorld m2 [id; U]).
    cbn [mem env]. unfold m2 at 1. rewrite word_at_stored.
    cbn [Word.eqb Word.LockState_eqb Word.get_unlocked_word].
    unfold bind at 1. rewrite Hpark.
    unfold bind at 1. unfold try_lock_contended.
    rewrite compare_exchange_strong_step.
    change (moved (mkWorld m4 [])) with (mkWorld m4 []). cbn [mem env].
    assert (Hw4 : word_at this m4 = LS_UNLOCKED).
    { unfold m4. rewrite words_at_set_queue. apply word_at_stored. }
    rewrite Hw4. reflexivity.
  - cbn [mem].
    change (queue get_lot this (store_word (E := false) this LS_CONTENTED m4))
      with (queue get_lot this m4).
    unfold m4. rewrite lot_queue_set_queue, decide_True by done. reflexivity.
Qed.

(** X28.  In the deadlock-safe instantiation: a thread calls [lock] on
    a mutex whose word is the plain identifier of its holder and whose
    queue is empty, and the holder calls [unlock] once the caller is
    asleep.  The caller announces its wait, parks, is woken by that
    [unlock] before its timeout, withdraws the announcement and returns
    [LOCKED]; the word is the caller's [get_contented_word()], its slot
    is null and the queue is empty again. *)
Theorem safe_lock_is_woken_by_unlock (fuel : nat) (me h this : Z)
    (m : Mem true) :
  0 <= h < 2 ^ 31 - 1 ->
  word_at this m = Word.get_lock_word true h ->
  queue get_lot this m = [] ->
  exists w',
    lock (S (S fuel)) me this
      (mkWorld m [id; id; id; settled (unlock this)])
    = Some (LOCKED, w')
    /\ word_at this (mem w') = Word.get_contented_word true me
    /\ slot me (mem w') = nullptr
    /\ queue get_lot this (mem w') = []
    /\ env w' = [].
Proof.
  intros Hh Hword Hempty.
  set (U := settled (unlock (E := true) this)).
  assert (Hlocked : Word.is_locked (word_at this m) = true).
  { rewrite Hword, is_locked_safe. apply negb_true_iff, Z.eqb_neq.
    cbn [Word.get_lock_word]. lia. }
  assert (Hcont : Word.is_lock_contented (word_at this m) = true).
  { rewrite Hword. cbn [Word.get_lock_word].
    rewrite is_lock_contented_safe by lia. apply Z.leb_le. lia. }
  set (m2 := store_slot me this m).
  set (m3 := enqueue get_lot set_parkinglot this (mkNode me tt) m2).
  set (m4 := set_queue get_lot set_parkinglot this []
               (store_word (E := true) this Word.M_UNLOCKED m3)).
  assert (HU : U m3 = m4).
  { unfold U, m4. apply (settled_unlock_wakes (E := true) me).
    - exact Hcont.
    - unfold m3, enqueue. rewrite lot_queue_set_queue, decide_True by done.
      change (queue get_lot this m2) with (queue get_lot this m).
      rewrite Hempty. reflexivity. }
  set (m5 := store_slot me nullptr m4).
  assert (Hpark : park me this (mkWorld m [id; U])
                  = Some (false, mkWorld m5 [])).
  { unfold park, announce_wait, denounce_wait.
    unfold bind at 1. unfold modify at 1. cbn [mem env]. fold m2.
    unfold bind at 1. rewrite lot_park_for_run.
    change (moved (mkWorld m2 [id; U])) with (mkWorld m2 [U]).
    cbn [mem env].
    assert (Hv : is_lock_contented this m2 = true) by exact Hcont.
    rewrite Hv. fold m3. cbv zeta.
    change (moved (mkWorld m3 [U])) with (mkWorld (U m3) []).
    rewrite HU. cbn [mem env].
    assert (Hp : parked get_lot me this m4 = false).
    { unfold parked, m4. rewrite lot_queue_set_queue, decide_True by done.
      reflexivity. }
    rewrite Hp. reflexivity. }
  exists (mkWorld (store_word (E := true) this (Word.get_contented_word true me) m5) []).
  split; [| split; [apply word_at_stored | split; [| split; [| reflexivity]]]].
  - assert (Ht : try_lock me this (mkWorld m [id; id; id; U])
                 = Some (false, mkWorld m [id; id; U])).
    { unfold try_lock. rewrite compare_exchange_strong_step.
      change (moved (mkWorld m [id; id; id; U]))
        with (mkWorld m [id; id; U]).
      cbn [mem env]. rewrite (is_locked_true_eqb _ Hlocked). reflexivity. }
    assert (Hu : uncontended_path_available me this (mkWorld m [id; id; U])
                 = Some (false, mkWorld m [id; id; U])).
    { unfold uncontended_path_available.
      cbn [env length uncontended_path_available_loop]. unfold load.
      unfold bind at 1. unfold gets at 1. cbn [mem]. rewrite Hlocked.
      cbn [negb]. unfold bind at 1. rewrite Hcont. reflexivity. }
    assert (Hc : try_lock_contended me this (mkWorld m [id; id; U])
                 = Some (false, mkWorld m [id; U])).
    { unfold try_lock_contended. rewrite compare_exchange_strong_step.
      change (moved (mkWorld m [id; id; U])) with (mkWorld m [id; U]).
      cbn [mem env]. rewrite (is_locked_true_eqb _ Hlocked). reflexivity. }
    assert (Hw5 : word_at this m5 = Word.M_UNLOCKED).
    { unfold m5, m4.
      change (word_at this (store_slot me nullptr ?x)) with (word_at this x).
      rewrite words_at_set_queue. apply (word_at_stored (E := true)). }
    rewrite (lock_slow_path _ _ _ _ _ _ Ht Hu).
    cbn [lock_contended]. unfold bind at 1. rewrite Hc.
    unfold bind at 1. rewrite Hpark.
    unfold bind at 1. unfold try_lock_contended.
    rewrite compare_exchange_strong_step.
    change (moved (mkWorld m5 [])) with (mkWorld m5 []). cbn [mem env].
    rewrite Hw5. cbn [Word.get_unlocked_word Word.eqb].
    rewrite Z.eqb_refl. reflexivity.
  - cbn [mem].
    change (slot me (store_word (E := true) this (Word.get_contented_word true me) m5))
      with (slot me m5).
    unfold m5. rewrite slot_store_slot, decide_True by done. reflexivity.
  - cbn [mem].
    change (queue get_lot this
              (store_word (E := true) this (Word.get_contented_word true me) m5))
      with (queue get_lot this m4).
    unfold m4. rewrite lot_queue_set_queue, decide_True by done. reflexivity.
Qed.
End Handover.

(** ** [unlock] in the lean instantiation *)

(** X6.  In the lean instantiation [unlock] returns from every world.
    Its exchange stores [LS_UNLOCKED]; when the word it replaced was
    [LS_CONTENTED] it removes the first node of the queue of the mutex,
    as the other threads left it, and keeps the rest of that queue, the
    other queues and the words; when the word was anything else it does
    nothing after the exchange. *)
Theorem unlock_lean_wakes_when_contended `{ThreadRegistry} (this : Z)
    (w : World (Mem false)) :
  word_at this (mem (released this w)) = LS_UNLOCKED
  /\ exists w',
       unlock this w = Some (tt, w')
       /\ match word_at this (mem w) with
          | LS_CONTENTED =>
              let w1 := moved (released this w) in
              queue get_lot this (mem w') = tail (queue get_lot this (mem w1))
              /\ (forall key, key <> this ->
                    queue get_lot key (mem w') = queue get_lot key (mem w1))
              /\ words (mem w') = words (mem w1)
          | _ => w' = released this w
          end.
Proof.
  split; [apply word_at_stored |].
  eexists. split; [apply unlock_unfold |].
  cbn [Word.is_lock_contented].
  destruct (word_at this (mem w)) eqn:Hw; cbn [Word.LockState_eqb]; cbv zeta;
    try reflexivity.
  cbn [mem]. split; [| split].
  - rewrite lot_queue_set_queue, decide_True by done. reflexivity.
  - intros key Hne. rewrite lot_queue_set_queue, decide_False by done.
    reflexivity.
  - reflexivity.
Qed.

End MutexFacts.

(** ** The fair mutex: counting, parking and handing over *)

Module FairMutexFacts.
Import FairMutex FairMutexProps FairMutexSpec.

Section Count.
Context `{ThreadRegistry}.

(** X13.  On a word whose count lies within 32 bits,
    [decrement_num_waiters] undoes [increment_num_waiters] and the other
    way round, also across the wrap at [2^32]; [transfer_lock] after an
    increment gives the new holder the count as it was; neither the
    increment nor the decrement changes whether the word is locked. *)
Theorem num_waiters_round_trip (w : LockWord) (t : Z) :
  0 <= num_waiters w < 2 ^ 32 ->
  Word.decrement_num_waiters (Word.increment_num_waiters w) = w
  /\ Word.increment_num_waiters (Word.decrement_num_waiters w) = w
  /\ Word.transfer_lock t (Word.increment_num_waiters w)
     = mkLockWord t (num_waiters w)
  /\ Word.is_locked (Word.increment_num_waiters w) = Word.is_locked w
  /\ Word.is_locked (Word.decrement_num_waiters w) = Word.is_locked w.
Proof.
  intros Hn. destruct w as [h n]. cbn [num_waiters] in Hn.
  unfold Word.decrement_num_waiters, Word.increment_num_waiters,
    Word.transfer_lock, Word.is_locked, wrap_unsigned.
  cbn [holder num_waiters].
  assert (Hup : ((n + 1) mod 2 ^ 32 - 1) mod 2 ^ 32 = n).
  { destruct (decide (n = 2 ^ 32 - 1)) as [-> | Hne]; [reflexivity |].
    rewrite (Z.mod_small (n + 1)) by lia.
    replace (n + 1 - 1) with n by lia. apply Z.mod_small. lia. }
  assert (Hdown : ((n - 1) mod 2 ^ 32 + 1) mod 2 ^ 32 = n).
  { destruct (decide (n = 0)) as [-> | Hne]; [reflexivity |].
    rewrite (Z.mod_small (n - 1)) by lia.
    replace (n - 1 + 1) with n by lia. apply Z.mod_small. lia. }
  rewrite Hup, Hdown. repeat split.
Qed.

(** X14.  [increment_num_waiters] returns from every world.  It returns
    true exactly when the word it read last was locked, and then the
    word is that one with the count increased and the holder unchanged;
    when the word was unlocked it returns false and has stored nothing.
    With the other threads at rest the word it reads is the one of the
    world it was called in. *)
Theorem increment_num_waiters_only_when_locked (this : Z) (w : World Mem) :
  exists (registered : bool) (w0 w' : World Mem),
    increment_num_waiters this w = Some (registered, w')
    /\ Word.is_locked (word_at this (mem w0)) = registered
    /\ w' = (if registered
             then commit this Word.increment_num_waiters w0 else w0)
    /\ holder (word_at this (mem w')) = holder (word_at this (mem w0))
    /\ (env w = [] -> w0 = w).
Proof.
  destruct (increment_num_waiters_spec this w) as [n Hn]. cbv zeta in Hn.
  exists (Word.is_locked (word_at this (mem (Nat.iter n moved w)))),
    (Nat.iter n moved w).
  eexists. split; [| split; [reflexivity | split; [reflexivity | split]]].
  - rewrite Hn. destruct (Word.is_locked _); reflexivity.
  - destruct (Word.is_locked _); [| reflexivity].
    unfold commit. cbn [mem]. rewrite word_at_store_word_eq. reflexivity.
  - intros Hq. apply iter_moved_quiet, Hq.
Qed.
End Count.

(** ** [park] once the parking lot has woken the caller *)

Section Woken.
Context `{ThreadRegistry}.
Variable E : bool.
Variable lot : Z -> Z -> WaitNodeData -> (Mem -> bool) -> M Mem ParkResult.

(** X15.  When the parking lot answers [Unpark]: with the caller's flag
    [is_dead_locked] clear, [park] returns [PARKRES_LOCKED] and leaves
    the waiter count to the thread that handed the mutex over; with the
    flag set, [park] takes the caller off the count once and returns
    [PARKRES_DEADLOCKED].  [lock] returns [LOCKED], respectively
    [DEADLOCKED], from the same pass of its loop. *)
Theorem park_unpark_reports_flag (me this : Z) (waitdata : WaitNodeData)
    (w w1 wa w2 wd : World Mem) :
  increment_num_waiters this w = Some (true, w1) ->
  park_announce E me this w1 = Some (waitdata, wa) ->
  lot me this waitdata (park_validate me this) wa = Some (Unpark, w2) ->
  park_denounce E me w2 = Some (tt, wd) ->
  exists w',
    park E lot me this w
    = Some (if deref (frame_of me) (mem w2)
            then PARKRES_DEADLOCKED else PARKRES_LOCKED, w')
    /\ (if deref (frame_of me) (mem w2)
        then exists n : nat,
               w' = commit this Word.decrement_num_waiters
                      (Nat.iter n moved wd)
        else w' = wd)
    /\ (forall (fuel : nat) (w0 wt : World Mem),
          try_lock me this w0 = Some (false, wt) ->
          moved wt = w ->
          lock E lot (S fuel) me this w0
          = Some (if deref (frame_of me) (mem w2)
                  then DEADLOCKED else LOCKED, w')).
Proof.
  intros Hi Ha Hl Hd.
  pose proof (park_run E lot me this w w1 Hi) as Hp.
  rewrite (park_lambda_run E lot _ _ _ _ _ _ _ _ Ha Hl Hd) in Hp.
  destruct (deref (frame_of me) (mem w2)).
  - destruct (decrement_num_waiters_spec this wd) as [n Hn].
    rewrite Hn in Hp. cbn [fst snd] in Hp.
    eexists. split; [exact Hp |]. split; [exists n; reflexivity |].
    intros fuel w0 wt Ht <-. rewrite (lock_run E lot _ _ _ _ _ Ht), Hp.
    reflexivity.
  - cbn [fst snd] in Hp. eexists. split; [exact Hp |].
    split; [reflexivity |].
    intros fuel w0 wt Ht <-. rewrite (lock_run E lot _ _ _ _ _ Ht), Hp.
    reflexivity.
Qed.
End Woken.


(** ** Whole calls with the other threads at rest *)

Section Quiet.
Context `{ThreadRegistry}.
Variable E : bool.

Lemma try_lock_free (me this : Z) (w : World Mem) :
  env w = [] ->
  word_at this (mem w) = Word.get_unlocked_word ->
  try_lock me this w
  = Some (true, mkWorld (store_word this (Word.get_lock_word me) (mem w)) []).
Proof.
  intros Hq Hw. unfold try_lock. rewrite compare_exchange_strong_run.
  rewrite moved_quiet by exact Hq. rewrite Hw, eqb_refl, Hq. reflexivity.
Qed.

Lemma try_lock_held (me this : Z) (w : World Mem) :
  env w = [] ->
  Word.is_locked (word_at this (mem w)) = true ->
  try_lock me this w = Some (false, w).
Proof.
  intros Hq Hl. unfold try_lock. rewrite compare_exchange_strong_run.
  rewrite moved_quiet by exact Hq.
  destruct (Word.eqb _ _) eqn:He; [| reflexivity].
  apply eqb_eq in He. rewrite He in Hl. unfold Word.is_locked in Hl.
  cbn in Hl. rewrite Z.eqb_refl in Hl. discriminate.
Qed.

(** X16.  With the other threads at rest, on a free fair mutex: [lock]
    returns [LOCKED] and leaves [{me, 0}] in the word; [park] would
    return [PARKRES_RETRY] without storing anything; while the mutex is
    held, [try_lock] by any thread returns false and changes nothing;
    [unlock] puts [{INVALID_HOLDER, 0}] back and leaves the other
    mutexes, the parking lot and [global_wait_info] as they were. *)
Theorem fair_lock_unlock_round_trip
    (lot : Z -> Z -> WaitNodeData -> (Mem -> bool) -> M Mem ParkResult)
    (fuel : nat) (me this : Z) (w : World Mem) :
  env w = [] ->
  valid_thread me ->
  word_at this (mem w) = Word.get_unlocked_word ->
  exists w1 w2,
    lock E lot (S fuel) me this w = Some (LOCKED, w1)
    /\ word_at this (mem w1) = Word.get_lock_word me
    /\ (forall other, try_lock other this w1 = Some (false, w1))
    /\ park E lot me this w = Some (PARKRES_RETRY, w)
    /\ unlock (S fuel) this w1 = Some (tt, w2)
    /\ word_at this (mem w2) = Word.get_unlocked_word
    /\ (forall this', this' <> this ->
          word_at this' (mem w2) = word_at this' (mem w))
    /\ parkinglot (mem w2) = parkinglot (mem w)
    /\ global_wait_info (mem w2) = global_wait_info (mem w).
Proof.
  intros Hq Hme Hfree.
  set (w1 := mkWorld (store_word this (Word.get_lock_word me) (mem w)) []).
  assert (Hw1 : word_at this (mem w1) = Word.get_lock_word me)
    by apply word_at_store_word_eq.
  exists w1. eexists.
  split; [| split; [exact Hw1 | split; [| split; [| split]]]].
  - cbn [lock]. unfold bind at 1.
    rewrite (try_lock_free _ _ _ Hq Hfree). reflexivity.
  - intros other. apply try_lock_held; [reflexivity |]. rewrite Hw1.
    unfold Word.is_locked, Word.get_lock_word, Word.INVALID_HOLDER.
    cbn [holder]. apply negb_true_iff, Z.eqb_neq.
    unfold valid_thread in Hme. lia.
  - unfold park. unfold bind at 1.
    rewrite (increment_num_waiters_quiet _ _ Hq), Hfree.
    unfold Word.is_locked, Word.get_unlocked_word. cbn [holder].
    rewrite Z.eqb_refl. reflexivity.
  - apply unlock_no_waiters; [rewrite Hw1; reflexivity | reflexivity].
  - cbn [mem]. split; [apply word_at_store_word_eq |].
    split; [| split; reflexivity].
    intros this' Hne. subst w1. cbn [mem].
    rewrite !word_at_store_word, !decide_False by congruence. reflexivity.
Qed.

(** ** What [unlock] has done when it returns *)

(** X19.  Whenever [unlock] returns, whatever the other threads do, the
    pass of its loop that returned began in a world [w0] that the call
    came to from the world it was called in by moves of the other
    threads alone (a scan of an empty queue writing the empty queue
    back).  In that pass [unlock] either loaded a word without waiters,
    found the same word after the next move of the others and stored
    the unlocked word in its place; or it loaded a word with waiters and
    handed the mutex to the first node of the queue it found: the word
    has that node's [tid] as holder and a waiter less, and the queue is
    what followed the node. *)
Theorem unlock_releases_or_hands_over (fuel : nat) (this : Z)
    (w w' : World Mem) :
  unlock fuel this w = Some (tt, w') ->
  exists w0,
    FairOrder.passes this w w0
    /\ ((Word.has_waiters (word_at this (mem w0)) = false
         /\ word_at this (mem (moved w0)) = word_at this (mem w0)
         /\ w' = mkWorld (store_word this Word.get_unlocked_word
                            (mem (moved w0))) (env (moved w0)))
        \/ (Word.has_waiters (word_at this (mem w0)) = true
            /\ exists nd rest (n : nat),
                 queue get_lot this (mem (moved w0)) = nd :: rest
                 /\ w' = handed_off this (tid (data nd)) rest
                           (Nat.iter n moved (moved w0)))).
Proof.
  revert w. induction fuel as [| fuel IH]; intros w; [discriminate |].
  cbn [unlock]. unfold load. unfold bind at 1. unfold gets at 1.
  destruct (Word.has_waiters (word_at this (mem w))) eqn:Hw.
  - destruct (unpark_unlock_filter this w) as [n Hn].
    unfold bind at 1. rewrite Hn.
    destruct (queue get_lot this (mem (moved w))) as [| nd rest] eqn:Hq.
    + mrun. intros Hu. apply IH in Hu. destruct Hu as (w0 & Hp & Hrest).
      exists w0. split; [| exact Hrest].
      apply FairOrder.passes_moved, FairOrder.passes_rescan; [exact Hq |].
      apply FairOrder.passes_moved. exact Hp.
    + intros [= <-]. exists w. split; [apply FairOrder.passes_here |]. right.
      split; [exact Hw |]. exists nd, rest, n. split; [exact Hq | reflexivity].
  - unfold bind at 1. rewrite compare_exchange_strong_run.
    destruct (Word.eqb _ _) eqn:He.
    + intros [= <-]. exists w. split; [apply FairOrder.passes_here |]. left.
      apply eqb_eq in He. split; [exact Hw |]. split; [exact He | reflexivity].
    + mrun. intros Hu. apply IH in Hu. destruct Hu as (w0 & Hp & Hrest).
      exists w0. split; [| exact Hrest].
      apply FairOrder.passes_moved, FairOrder.passes_moved. exact Hp.
Qed.

(** X20.  With the other threads at rest, [unlock] of a mutex whose word
    counts a waiter while the queue of the mutex is empty never returns,
    whatever passes it is given: it spins until the waiter has reached
    the parking lot. *)
Theorem unlock_waits_for_counted_waiter (fuel : nat) (this : Z)
    (w : World Mem) :
  env w = [] ->
  Word.has_waiters (word_at this (mem w)) = true ->
  queue get_lot this (mem w) = [] ->
  unlock fuel this w = None.
Proof.
  revert w. induction fuel as [| fuel IH]; intros w Hq Hw Hempty;
    [reflexivity |].
  cbn [unlock]. unfold load. unfold bind at 1. unfold gets at 1. rewrite Hw.
  destruct (unpark_unlock_filter this w) as [n Hn].
  unfold bind at 1. rewrite Hn. rewrite (moved_quiet w Hq), Hempty.
  mrun. unfold moved. cbn [env mem]. rewrite Hq. cbn [mem env].
  apply IH.
  - reflexivity.
  - exact Hw.
  - cbn [mem]. rewrite queue_set_queue, decide_True by done. reflexivity.
Qed.

Lemma parked_enqueue (me key : Z) (d : WaitNodeData) (m : Mem) :
  parked get_lot me key
    (enqueue get_lot set_parkinglot key (mkNode me d) m) = true.
Proof.
  unfold parked, enqueue. rewrite queue_set_queue, decide_True by done.
  rewrite existsb_app. cbn [existsb owner]. rewrite Z.eqb_refl.
  apply orb_true_iff. right. reflexivity.
Qed.

Lemma folly_park_run (me key : Z) (d : WaitNodeData)
    (validate : Mem -> bool) (w : World Mem) :
  folly_park me key d validate w
  = if validate (mem (moved w))
    then let w2 := moved (mkWorld (enqueue get_lot set_parkinglot key
                                     (mkNode me d) (mem (moved w)))
                                  (env (moved w))) in
         if parked get_lot me key (mem w2) then None else Some (Unpark, w2)
    else Some (Skip, moved w).
Proof.
  unfold folly_park, ParkingLot.park. mrun.
  destruct (validate (mem (moved w))); [| reflexivity].
  cbv zeta. destruct (parked _ _ _ _); reflexivity.
Qed.

(** A caller whom nobody wakes sleeps on. *)
Lemma folly_park_sleeps (me key : Z) (d : WaitNodeData)
    (validate : Mem -> bool) (w : World Mem) :
  env w = [] ->
  validate (mem w) = true ->
  folly_park me key d validate w = None.
Proof.
  intros Hq Hv. rewrite folly_park_run.
  rewrite (moved_quiet w Hq), Hv. cbv zeta.
  rewrite moved_quiet by exact Hq. cbn [mem]. rewrite parked_enqueue.
  reflexivity.
Qed.

(** X17.  With the other threads at rest, [lock] on a fair mutex that
    another thread holds never returns, whatever passes it is given: it
    registers as a waiter, parks and sleeps. *)
Theorem lock_sleeps_while_held (fuel : nat) (me this : Z) (w : World Mem) :
  env w = [] ->
  Word.is_locked (word_at this (mem w)) = true ->
  holder (word_at this (mem w)) <> me ->
  lock E folly_park fuel me this w = None.
Proof.
  intros Hq Hl Hne. destruct fuel as [| fuel]; [reflexivity |].
  rewrite (lock_run E folly_park fuel me this w w (try_lock_held _ _ _ Hq Hl)).
  rewrite (moved_quiet w Hq).
  assert (Hi : increment_num_waiters this w
               = Some (true, commit this Word.increment_num_waiters w)).
  { rewrite (increment_num_waiters_quiet _ _ Hq), Hl. reflexivity. }
  rewrite (park_run E folly_park me this w _ Hi).
  destruct (park_announce_run E me this
              (commit this Word.increment_num_waiters w))
    as (waitdata & wa & Ha & _ & _ & Hflag & Hwords & _ & Henv).
  unfold park_lambda. unfold bind at 1. rewrite Ha. unfold bind at 1.
  rewrite folly_park_sleeps; [reflexivity | |].
  - rewrite Henv. exact Hq.
  - unfold park_validate. rewrite Hflag.
    unfold is_locked_by_me, word_at. rewrite Hwords.
    fold (word_at this (mem (commit this Word.increment_num_waiters w))).
    unfold commit. cbn [mem]. rewrite word_at_store_word_eq.
    unfold Word.is_locked_by_me, Word.increment_num_waiters. cbn [holder].
    rewrite (proj2 (Z.eqb_neq _ _) Hne). reflexivity.
Qed.

(** ** The order of hand-overs *)

Import FairOrder.

(** X21.  With the other threads at rest, on a mutex whose word counts
    as many waiters as its queue holds: that many calls of [unlock] in a
    row, each by the thread the call before has made holder, hand the
    mutex to the waiters in the order of the queue, and leave the queue
    empty and the count at 0. *)
Theorem waiters_are_served_in_order (fuel : nat) (this : Z)
    (q : list (WaitNode WaitNodeData)) (w : World Mem) :
  env w = [] ->
  queue get_lot this (mem w) = q ->
  num_waiters (word_at this (mem w)) = Z.of_nat (length q) ->
  Z.of_nat (length q) < 2 ^ 32 ->
  exists w',
    hand_overs (S fuel) (length q) this w
    = Some (map (fun nd => tid (data nd)) q, w')
    /\ queue get_lot this (mem w') = []
    /\ num_waiters (word_at this (mem w')) = 0
    /\ env w' = [].
Proof.
  revert w. induction q as [| nd rest IH]; intros w Hq Hqueue Hn Hbound.
  - exists w. cbn [length hand_overs map]. repeat split; assumption.
  - cbn [length] in *.
    assert (Hw : Word.has_waiters (word_at this (mem w)) = true).
    { unfold Word.has_waiters. rewrite Hn.
      apply negb_true_iff, Z.eqb_neq. lia. }
    destruct (unlock_hand_off fuel this nd rest w Hw) as [n Hu].
    { rewrite moved_quiet by exact Hq. exact Hqueue. }
    rewrite (moved_quiet w Hq), iter_moved_quiet in Hu by exact Hq.
    set (w1 := handed_off this (tid (data nd)) rest w) in *.
    assert (Hword1 : word_at this (mem w1)
                     = mkLockWord (tid (data nd)) (Z.of_nat (length rest))).
    { subst w1. unfold handed_off, commit. cbn [mem env].
      rewrite word_at_set_queue, word_at_store_word_eq.
      unfold Word.transfer_lock. rewrite Hn, wrap_unsigned_small by lia.
      f_equal. lia. }
    destruct (IH w1) as (w' & Hrest & Hempty & Hzero & Hq').
    + subst w1. unfold handed_off, commit. cbn [env]. exact Hq.
    + subst w1. unfold handed_off. cbn [mem].
      rewrite queue_set_queue, decide_True by done. reflexivity.
    + rewrite Hword1. reflexivity.
    + lia.
    + exists w'. split; [| auto].
      cbn [hand_overs map]. unfold bind at 1. rewrite Hu.
      unfold bind at 1. unfold gets at 1. rewrite Hword1. cbn [holder].
      unfold bind at 1. rewrite Hrest. reflexivity.
Qed.

(** ** A waiter and the holder that wakes it *)

Import Scenario.

(** X18.  A thread calls [lock] on a fair mutex that another thread
    holds, and the holder calls [unlock] once the caller is asleep: the
    caller returns [LOCKED], the word names it as holder with the count
    of waiters as it was before the call, the queue of the mutex is
    empty as before and the caller's flag is clear. *)
Theorem lock_is_handed_the_mutex (fuel fuel' : nat) (me h this n : Z)
    (m : Mem) :
  word_at this m = mkLockWord h n ->
  Word.is_locked (mkLockWord h n) = true ->
  h <> me ->
  0 <= n < 2 ^ 32 - 1 ->
  queue get_lot this m = [] ->
  exists w',
    lock E folly_park (S fuel) me this
      (mkWorld m [id; id; id; id; settled (unlock (S fuel') this)])
    = Some (LOCKED, w')
    /\ word_at this (mem w') = mkLockWord me n
    /\ queue get_lot this (mem w') = []
    /\ deref (frame_of me) (mem w') = false
    /\ env w' = [].
Proof.
  intros Hword Hlocked Hne Hn Hempty.
  set (U := settled (unlock (S fuel') this)).
  assert (Ht : try_lock me this (mkWorld m [id; id; id; id; U])
               = Some (false, mkWorld m [id; id; id; U])).
  { unfold try_lock. rewrite compare_exchange_strong_run.
    unfold moved. cbn [mem env id].
    destruct (Word.eqb _ _) eqn:He; [| reflexivity].
    apply eqb_eq in He. rewrite Hword in He. rewrite He in Hlocked.
    unfold Word.is_locked in Hlocked. cbn in Hlocked.
    rewrite Z.eqb_refl in Hlocked. discriminate. }
  rewrite (lock_run E folly_park fuel me this _ _ Ht).
  unfold moved at 1. cbn [mem env id].
  set (m1 := store_word this (mkLockWord h (n + 1)) m).
  assert (Hi : increment_num_waiters this (mkWorld m [id; id; U])
               = Some (true, mkWorld m1 [id; U])).
  { unfold increment_num_waiters. cbn [env length].
    cbn [increment_num_waiters_loop]. unfold load.
    unfold bind at 1. unfold gets at 1. cbn [mem]. rewrite Hword, Hlocked.
    cbn [negb]. unfold bind at 1. rewrite compare_exchange_strong_run.
    unfold moved. cbn [mem env id]. rewrite Hword, eqb_refl.
    subst m1. unfold Word.increment_num_waiters. cbn [holder num_waiters].
    rewrite wrap_unsigned_small by lia. reflexivity. }
  rewrite (park_run E folly_park me this _ _ Hi).
  destruct (park_announce_run E me this (mkWorld m1 [id; U]))
    as (waitdata & wa & Ha & Htid & _ & Hflag & Hwords & Hlot & Henv).
  destruct wa as [ma ea]. cbn [mem env] in *. subst ea.
  assert (Hworda : word_at this ma = mkLockWord h (n + 1)).
  { unfold word_at. rewrite Hwords. apply word_at_store_word_eq. }
  assert (Hqa : queue get_lot this ma = []).
  { unfold queue, get_lot. rewrite Hlot. exact Hempty. }
  set (nd := mkNode me waitdata).
  set (m3 := enqueue get_lot set_parkinglot this nd ma).
  assert (Hq3 : queue get_lot this m3 = [nd]).
  { subst m3. unfold enqueue. rewrite queue_set_queue, decide_True by done.
    rewrite Hqa. reflexivity. }
  assert (Hu : unlock (S fuel') this (mkWorld m3 [])
               = Some (tt, handed_off this me [] (mkWorld m3 []))).
  { destruct (unlock_hand_off fuel' this nd [] (mkWorld m3 [])) as [k Hk].
    - cbn [mem]. unfold m3, enqueue. rewrite word_at_set_queue, Hworda.
      unfold Word.has_waiters. cbn [num_waiters].
      apply negb_true_iff, Z.eqb_neq. lia.
    - exact Hq3.
    - rewrite Hk, moved_quiet, iter_moved_quiet by reflexivity.
      cbn [data nd]. rewrite Htid. reflexivity. }
  set (m4 := mem (handed_off this me [] (mkWorld m3 []))).
  assert (Hl : folly_park me this waitdata (park_validate me this)
                 (mkWorld ma [id; U]) = Some (Unpark, mkWorld m4 [])).
  { rewrite folly_park_run.
    change (moved (mkWorld ma [id; U])) with (mkWorld ma [U]).
    cbn [mem env].
    assert (Hv : park_validate me this ma = true).
    { unfold park_validate. rewrite Hflag. unfold is_locked_by_me.
      rewrite Hworda. unfold Word.is_locked_by_me. cbn [holder].
      rewrite (proj2 (Z.eqb_neq _ _) Hne). reflexivity. }
    rewrite Hv. fold nd. fold m3. cbv zeta.
    change (moved (mkWorld m3 [U])) with (mkWorld (U m3) []).
    assert (HU : U m3 = m4).
    { unfold U, settled. rewrite Hu. reflexivity. }
    rewrite HU. cbn [mem].
    assert (Hp : parked get_lot me this m4 = false).
    { subst m4. unfold parked, handed_off. cbn [mem].
      rewrite queue_set_queue, decide_True by done. reflexivity. }
    rewrite Hp. reflexivity. }
  destruct (park_denounce E me (mkWorld m4 [])) as [[[] wd] |] eqn:Hd.
  2: { unfold park_denounce in Hd. destruct E; discriminate. }
  destruct (park_denounce_frames E me _ _ Hd) as (Hf & Hw & Hp & He).
  cbn [mem env] in *.
  assert (Hflag4 : deref (frame_of me) m4 = false) by exact Hflag.
  rewrite (park_lambda_run E folly_park _ _ _ _ _ _ _ _ Ha Hl Hd).
  cbn [mem]. rewrite Hflag4. cbn [fst snd].
  exists wd. split; [reflexivity |]. split; [| split; [| split]].
  - unfold word_at. rewrite Hw. fold (word_at this m4).
    subst m4. unfold handed_off, commit. cbn [mem env].
    rewrite word_at_set_queue, word_at_store_word_eq.
    unfold m3, enqueue. rewrite word_at_set_queue, Hworda.
    unfold Word.transfer_lock. cbn [num_waiters].
    rewrite wrap_unsigned_small by lia. f_equal. lia.
  - unfold queue, get_lot. rewrite Hp.
    change (queue get_lot this m4 = []). subst m4. unfold handed_off.
    cbn [mem]. rewrite queue_set_queue, decide_True by done. reflexivity.
  - unfold deref. rewrite Hf. exact Hflag4.
  - exact He.
Qed.
End Quiet.


(** ** The detector *)

Section Verify.
Import DeadlockDetector.
Context `{ThreadRegistry}.

Lemma verify_scan_first_match (waiter token : Z)
    (pre post : list (WaitNode WaitNodeData)) (nd : WaitNode WaitNodeData)
    (w : World Mem) :
  Forall (fun nd => is_victim waiter token nd = false) pre ->
  is_victim waiter token nd = true ->
  unpark_scan (verify_filter waiter token) (pre ++ nd :: post) false w
  = Some ((pre ++ post, true),
          mkWorld (store_bool (is_dead_locked (data nd)) true (mem w))
                  (env w)).
Proof.
  intros Hpre Hnd. induction Hpre as [| x pre Hx _ IH].
  - cbn [app unpark_scan]. unfold verify_filter at 1.
    unfold is_victim in Hnd. rewrite Hnd. reflexivity.
  - cbn [app unpark_scan]. unfold verify_filter at 1.
    unfold is_victim in Hx. rewrite Hx.
    unfold bind at 1. unfold ret at 1. unfold bind at 1. rewrite IH.
    reflexivity.
Qed.

(** X24.  [verify_lock_cycle] on a cycle that is not empty scans the
    queue of the mutex recorded for the thread [select_waiter] chose.
    If every node of that thread in the queue carries another wait token
    than the recorded one, it returns false and leaves queues, flags and
    words alone.  If the queue has a node with the identifier of the
    thread and the recorded token, it returns true, removes the first
    such node and keeps the others in their order, sets the flag of that
    node and no other, and leaves the words, and so the waiter count,
    alone. *)
Theorem verify_wakes_first_match (lockcycle : list (Z * Z)) (d : Detector)
    (w : World Mem) :
  lockcycle <> [] ->
  let victim := select_waiter lockcycle (mem w) in
  let info := fst (waiters_subscript victim d) in
  let q := queue get_lot (lock info) (mem (moved w)) in
  (Forall (fun nd => tid (data nd) = victim ->
                     FairMutex.wait_token (data nd) <> wait_token info) q ->
   exists d' w',
     verify_lock_cycle lockcycle d w = Some ((false, d'), w')
     /\ (forall key,
           queue get_lot key (mem w') = queue get_lot key (mem (moved w)))
     /\ frames (mem w') = frames (mem (moved w))
     /\ words (mem w') = words (mem (moved w)))
  /\ (forall pre nd post,
        q = pre ++ nd :: post ->
        Forall (fun nd => is_victim victim (wait_token info) nd = false) pre ->
        is_victim victim (wait_token info) nd = true ->
        exists d' w',
          verify_lock_cycle lockcycle d w = Some ((true, d'), w')
          /\ queue get_lot (lock info) (mem w') = pre ++ post
          /\ (forall key, key <> lock info ->
                queue get_lot key (mem w')
                = queue get_lot key (mem (moved w)))
          /\ frames (mem w')
             = <[is_dead_locked (data nd) := true]> (frames (mem (moved w)))
          /\ words (mem w') = words (mem (moved w))).
Proof.
  intros Hne victim info q. split.
  - intros Hall. rewrite (verify_lock_cycle_run _ _ _ Hne). cbv zeta.
    fold victim. fold info. fold q.
    rewrite verify_scan_no_victim.
    + eexists. eexists. split; [reflexivity |]. cbn [mem].
      split; [| split; reflexivity].
      intros key. apply queue_set_queue_same.
    + eapply Forall_impl; [exact Hall |]. intros nd Hnd. cbv beta in Hnd.
      unfold is_victim. apply andb_false_iff.
      destruct (Z.eqb_spec (tid (data nd)) victim) as [Heq | Hneq];
        [right | left; reflexivity].
      apply Z.eqb_neq. apply Hnd, Heq.
  - intros pre nd post Hq Hpre Hnd.
    rewrite (verify_lock_cycle_run _ _ _ Hne). cbv zeta.
    fold victim. fold info. fold q. rewrite Hq.
    rewrite (verify_scan_first_match _ _ _ _ _ _ Hpre Hnd).
    eexists. eexists. split; [reflexivity |]. cbn [mem].
    split; [| split; [| split; reflexivity]].
    + rewrite queue_set_queue, decide_True by done. reflexivity.
    + intros key Hkey. rewrite queue_set_queue, decide_False by congruence.
      reflexivity.
Qed.
End Verify.

Section Idle.
Import DeadlockDetector.
Context `{ThreadRegistry}.

Lemma gather_loop_idle (ids : list Z) (d : Detector) (w : World Mem) :
  Forall (fun t => waiting_on (wait_info t (mem w)) = nullptr) ids ->
  gather_loop ids d w = Some (d, w).
Proof.
  induction 1 as [| t ids Ht _ IH]; [reflexivity |].
  cbn [gather_loop]. unfold bind at 1. unfold gets at 1. rewrite Ht.
  cbn [Z.eqb nullptr negb]. unfold bind at 1. unfold ret at 1. exact IH.
Qed.

(** X26.  When no thread of the registry announces a wait,
    [detect_deadlocks] returns 0 and leaves the world as it is, the
    moves of the other threads included: it never calls the parking
    lot. *)
Theorem detect_deadlocks_idle (fuel : nat) (w : World Mem) :
  (forall t, valid_thread t -> waiting_on (wait_info t (mem w)) = nullptr) ->
  detect_deadlocks (S fuel) w = Some (0, w).
Proof.
  intros Hidle. unfold detect_deadlocks. cbn [detect_deadlocks_loop].
  unfold bind at 1. unfold run. unfold bind at 1.
  unfold gather_waiters_and_holders_info. rewrite gather_loop_idle.
  - cbn [waiters]. rewrite map_to_list_empty. reflexivity.
  - apply Forall_forall. intros t Hin. apply Hidle.
    apply list_elem_of_In, in_map_iff in Hin.
    destruct Hin as (k & <- & Hk). apply in_seq in Hk.
    unfold valid_thread. lia.
Qed.
End Idle.


Section Cycle.
Import DeadlockDetector.
Context `{ThreadRegistry}.

Lemma assign_new (waiterid l : Z) (lockcycle : list (Z * Z)) :
  count waiterid lockcycle = false ->
  assign waiterid l lockcycle = lockcycle ++ [(waiterid, l)].
Proof.
  induction lockcycle as [| x rest IH]; [reflexivity |].
  cbn [count existsb]. intros Hc. apply orb_false_iff in Hc.
  destruct Hc as [Hx Hrest]. cbn [assign]. rewrite Hx.
  cbn [app]. f_equal. apply IH. exact Hrest.
Qed.

Lemma count_false_not_in (waiterid : Z) (lockcycle : list (Z * Z)) :
  count waiterid lockcycle = false <-> ~ In waiterid (map fst lockcycle).
Proof.
  rewrite <- not_true_iff_false, count_spec, list_elem_of_In. reflexivity.
Qed.

Lemma count_in (t l : Z) (lockcycle : list (Z * Z)) :
  In (t, l) lockcycle -> count t lockcycle = true.
Proof.
  intros Hin. apply count_spec, list_elem_of_In, in_map_iff.
  exists (t, l). split; [reflexivity | exact Hin].
Qed.

Lemma holders_subscript_spec (l : Z) (d : Detector) :
  holders (snd (holders_subscript l d)) !! l
  = Some (fst (holders_subscript l d))
  /\ holders d ⊆ holders (snd (holders_subscript l d))
  /\ waiters (snd (holders_subscript l d)) = waiters d.
Proof.
  unfold holders_subscript. destruct (holders d !! l) as [t |] eqn:Hl;
    cbn [fst snd holders waiters].
  - split; [exact Hl |]. split; reflexivity.
  - split; [apply lookup_insert_eq |]. split; [| reflexivity].
    apply insert_subseteq. exact Hl.
Qed.

Lemma NoDup_keys_inj (lockcycle : list (Z * Z)) (t l l' : Z) :
  NoDup (map fst lockcycle) ->
  In (t, l) lockcycle -> In (t, l') lockcycle -> l = l'.
Proof.
  induction lockcycle as [| [t0 l0] rest IH]; intros Hnd Hin Hin';
    [destruct Hin |].
  cbn [map fst] in Hnd. apply NoDup_cons in Hnd. destruct Hnd as [Hnot Hrest].
  rewrite list_elem_of_In in Hnot.
  destruct Hin as [Heq | Hin], Hin' as [Heq' | Hin'].
  - congruence.
  - exfalso. injection Heq as -> ->. apply Hnot. apply in_map_iff.
    exists (t, l'). auto.
  - exfalso. injection Heq' as -> ->. apply Hnot. apply in_map_iff.
    exists (t, l). auto.
  - apply IH; assumption.
Qed.

Lemma detect_lock_cycle_loop_closed (fuel : nat) (l : Z)
    (lockcycle r : list (Z * Z)) (d d' : Detector) :
  detect_lock_cycle_loop fuel l lockcycle d = Some (r, d') ->
  r <> [] ->
  NoDup (map fst lockcycle) ->
  waiters d' = waiters d
  /\ holders d ⊆ holders d'
  /\ NoDup (map fst r)
  /\ (forall x, In x lockcycle -> In x r)
  /\ (forall t lk, In (t, lk) r ->
        In (t, lk) lockcycle
        \/ (count t lockcycle = false
            /\ exists i, waiters d !! t = Some i /\ lock i = lk))
  /\ (forall t lk, In (t, lk) r ->
        count t lockcycle = false \/ lk = l ->
        exists h, holders d' !! lk = Some h /\ count h r = true).
Proof.
  revert l lockcycle d.
  induction fuel as [| fuel IH]; intros l lockcycle d; [discriminate |].
  cbn [detect_lock_cycle_loop].
  destruct (holders_subscript_spec l d) as (Hhl & Hsub & Hws).
  destruct (holders_subscript l d) as [h d1]. cbn [fst snd] in *.
  case_bool_decide as Hin; cbn [negb]; [| intros [= <- <-] Hne; congruence].
  pose proof (waiters_subscript_present h d1 Hin) as Hd2.
  destruct Hin as [i Hi].
  assert (Hinfo : fst (waiters_subscript h d1) = i).
  { unfold waiters_subscript. rewrite Hi. reflexivity. }
  destruct (waiters_subscript h d1) as [info d2]. cbn [fst snd] in *.
  subst d2 info.
  destruct (count h lockcycle) eqn:Hc.
  - intros [= <- <-] Hne Hnd.
    split; [exact Hws |]. split; [exact Hsub |]. split; [exact Hnd |].
    split; [auto |]. split; [auto |].
    intros t lk Hin [Hnew | ->].
    + rewrite (count_in _ _ _ Hin) in Hnew. discriminate.
    + exists h. split; assumption.
  - intros Hrec Hne Hnd. rewrite (assign_new _ _ _ Hc) in Hrec.
    apply IH in Hrec; [| exact Hne |].
    2: { rewrite map_app. cbn [map fst]. apply NoDup_app.
         split; [exact Hnd |]. split; [| apply NoDup_singleton].
         intros x Hx Hx'. apply list_elem_of_singleton in Hx'. subst x.
         apply count_false_not_in in Hc. apply Hc, list_elem_of_In, Hx. }
    destruct Hrec as (Hws' & Hsub' & Hnd' & Hkeep & Hnew & Hcl).
    assert (Hlast : In (h, lock i) r).
    { apply Hkeep, in_or_app. right. left. reflexivity. }
    split; [congruence |].
    split; [etransitivity; eassumption |]. split; [exact Hnd' |].
    split; [intros x Hx; apply Hkeep, in_or_app; left; exact Hx |].
    split.
    + intros t lk Hin. destruct (Hnew t lk Hin) as [Hold | (Hc' & j & Hj & Hlk)].
      * apply in_app_or in Hold. destruct Hold as [Hold | [[= <- <-] | []]];
          [left; exact Hold |].
        right. split; [exact Hc |]. exists i. split; [congruence | reflexivity].
      * right. split.
        -- apply count_false_not_in. apply count_false_not_in in Hc'.
           intros Hx. apply Hc'. rewrite map_app. apply in_or_app. auto.
        -- exists j. split; [congruence | exact Hlk].
    + intros t lk Hin [Hnew' | ->].
      * destruct (decide (t = h)) as [-> | Hth].
        -- assert (lk = lock i) as ->
             by (apply (NoDup_keys_inj r h); assumption).
           apply (Hcl h); [exact Hin | right; reflexivity].
        -- apply (Hcl t); [exact Hin |]. left.
           apply count_false_not_in. apply count_false_not_in in Hnew'.
           rewrite map_app. intros Hx. apply in_app_or in Hx.
           destruct Hx as [Hx | [Hx | []]]; [auto | cbn in Hx; congruence].
      * exists h. split.
        -- eapply lookup_weaken; eassumption.
        -- eapply count_in. exact Hlast.
Qed.

(** X23.  [detect_lock_cycle] changes no memory.  The cycle it returns is
    empty or closed: it has the entry the walk began with and no thread
    twice; each of its mutexes has in [holders], as the walk leaves
    them, a thread that is in the cycle; and every entry but the first
    is a waiter of the detector with the mutex recorded for it. *)
Theorem detect_lock_cycle_is_closed (waiterid l : Z) (d d' : Detector)
    (w w' : World Mem) (lockcycle : list (Z * Z)) :
  detect_lock_cycle waiterid l d w = Some ((lockcycle, d'), w') ->
  w' = w
  /\ (lockcycle = []
      \/ (In (waiterid, l) lockcycle
          /\ NoDup (map fst lockcycle)
          /\ forall t lk, In (t, lk) lockcycle ->
               (exists h, holders d' !! lk = Some h
                          /\ count h lockcycle = true)
               /\ (t <> waiterid ->
                   exists i, waiters d !! t = Some i /\ lock i = lk))).
Proof.
  unfold detect_lock_cycle.
  destruct (detect_lock_cycle_loop _ _ _ _) as [[r d1] |] eqn:Hloop;
    [| discriminate].
  intros [= -> -> <-]. split; [reflexivity |].
  destruct lockcycle as [| x rest]; [left; reflexivity |]. right.
  apply detect_lock_cycle_loop_closed in Hloop; [| discriminate |].
  2: { cbn. apply NoDup_singleton. }
  destruct Hloop as (_ & _ & Hnd & Hkeep & Hnew & Hcl).
  split; [apply Hkeep; left; reflexivity |]. split; [exact Hnd |].
  intros t lk Hin. split.
  - apply (Hcl t lk Hin). destruct (Hnew t lk Hin) as [[[= -> ->] | []] | [Hc _]].
    + right. reflexivity.
    + left. exact Hc.
  - intros Hne. destruct (Hnew t lk Hin) as [[[= -> ->] | []] | [_ Hi]].
    + congruence.
    + exact Hi.
Qed.
End Cycle.


Section Gather.
Import DeadlockDetector FairWaitGraph.
Context `{ThreadRegistry}.

Lemma same_state_refl (m : Mem) : same_state m m.
Proof. repeat split. Qed.

Lemma same_state_set_queue (m0 m : Mem) (key : Z) :
  same_state m0 m ->
  same_state m0 (set_queue get_lot set_parkinglot key
                   (queue get_lot key m) m).
Proof.
  intros (Hw & Hg & Hf & Hc & Hq). repeat split; try assumption.
  intros key'. rewrite queue_set_queue_same. apply Hq.
Qed.

Lemma same_state_asleep (m0 m : Mem) (t : Z) :
  same_state m0 m -> asleep m t = asleep m0 t.
Proof.
  intros (Hw & Hg & _ & _ & Hq). unfold asleep, wait_info, word_at.
  rewrite Hg, Hw, Hq. reflexivity.
Qed.

(** The scan of [gather_waiters_and_holders_info] retains every node. *)
Lemma gather_scan (l waiter_id token : Z) (q : list (WaitNode WaitNodeData))
    (d : Detector) (w : World Mem) :
  unpark_scan (gather_filter l waiter_id token) q d w
  = Some ((q,
           if existsb (fun nd => tid (data nd) =? waiter_id) q
              && Word.is_locked (word_at l (mem w))
           then mkDetector
                  (<[waiter_id := mkWaiterInfo l token]> (waiters d))
                  (<[l := holder (word_at l (mem w))]> (holders d))
           else d), w).
Proof.
  induction q as [| nd rest IH]; [reflexivity |].
  cbn [unpark_scan existsb]. unfold gather_filter at 1.
  destruct (tid (data nd) =? waiter_id); cbn [orb andb].
  - unfold load. mrun. reflexivity.
  - unfold bind at 1. unfold ret at 1. unfold bind at 1. rewrite IH.
    reflexivity.
Qed.

Lemma gather_loop_spec (m0 : Mem) (ids : list Z) (d : Detector)
    (w : World Mem) :
  env w = [] ->
  same_state m0 (mem w) ->
  exists d' w',
    gather_loop ids d w = Some (d', w')
    /\ env w' = []
    /\ same_state m0 (mem w')
    /\ (forall t,
          waiters d' !! t
          = if existsb (Z.eqb t) ids && asleep m0 t
            then Some (recorded m0 t) else waiters d !! t)
    /\ (forall l,
          holders d' !! l
          = if existsb (fun t => asleep m0 t
                                 && (waiting_on (wait_info t m0) =? l)) ids
            then Some (holder (word_at l m0)) else holders d !! l).
Proof.
  revert d w. induction ids as [| id rest IH]; intros d w Hq Hsame.
  - exists d, w. split; [reflexivity |]. split; [exact Hq |].
    split; [exact Hsame |]. split; reflexivity.
  - cbn [gather_loop]. unfold bind at 1. unfold gets at 1.
    pose proof (same_state_asleep _ _ id Hsame) as Hasleep.
    destruct Hsame as (Hw & Hg & Hf & Hc & Hqu).
    assert (Hinfo : wait_info id (mem w) = wait_info id m0)
      by (unfold wait_info; rewrite Hg; reflexivity).
    rewrite Hinfo. set (l := waiting_on (wait_info id m0)) in *.
    set (token := current_wait_token (wait_info id m0)).
    set (d1 := if asleep m0 id
               then mkDetector (<[id := recorded m0 id]> (waiters d))
                               (<[l := holder (word_at l m0)]> (holders d))
               else d).
    assert (Hstep : exists w1,
               (if negb (l =? nullptr)
                then unpark get_lot set_parkinglot l
                       (gather_filter l id token) d
                else ret d) w = Some (d1, w1)
               /\ env w1 = [] /\ same_state m0 (mem w1)).
    { destruct (Z.eqb_spec l nullptr) as [Hl | Hl]; cbn [negb].
      - exists w. split; [| split; [exact Hq | repeat split; assumption]].
        subst d1. unfold asleep. fold l.
        rewrite (proj2 (Z.eqb_eq _ _) Hl). reflexivity.
      - exists (mkWorld (set_queue get_lot set_parkinglot l
                           (queue get_lot l (mem w)) (mem w)) []).
        split; [| split; [reflexivity |]].
        + unfold unpark. unfold bind at 1. unfold yield at 1.
          rewrite (moved_quiet w Hq). unfold bind at 1. unfold gets at 1.
          unfold bind at 1. rewrite gather_scan. mrun. rewrite Hq.
          subst d1. unfold asleep, recorded. fold l. fold token.
          rewrite (proj2 (Z.eqb_neq _ _) Hl). cbn [negb andb].
          rewrite Hqu. unfold word_at. rewrite Hw. reflexivity.
        + cbn [mem]. apply same_state_set_queue. repeat split; assumption. }
    destruct Hstep as (w1 & Hstep & Hq1 & Hsame1).
    unfold bind at 1. rewrite Hstep.
    destruct (IH d1 w1 Hq1 Hsame1) as (d' & w' & Hloop & Hq' & Hsame' & Hws & Hhs).
    exists d', w'. split; [exact Hloop |]. split; [exact Hq' |].
    split; [exact Hsame' |]. split.
    + intros t. rewrite Hws. cbn [existsb].
      destruct (existsb (Z.eqb t) rest && asleep m0 t) eqn:Hrest.
      * apply andb_true_iff in Hrest. destruct Hrest as [Hr ->].
        rewrite Hr, orb_true_r. reflexivity.
      * destruct (Z.eqb_spec t id) as [-> | Hne]; cbn [orb].
        -- subst d1. destruct (asleep m0 id); cbn [andb waiters].
           ++ apply lookup_insert_eq.
           ++ reflexivity.
        -- rewrite Hrest. subst d1. destruct (asleep m0 id); cbn [waiters];
             [apply lookup_insert_ne; congruence | reflexivity].
    + intros l'. rewrite Hhs. cbn [existsb]. fold l.
      destruct (existsb _ rest); [rewrite orb_true_r; reflexivity |].
      rewrite orb_false_r. subst d1.
      destruct (asleep m0 id); cbn [andb holders]; [| reflexivity].
      destruct (Z.eqb_spec l l') as [<- | Hne].
      * apply lookup_insert_eq.
      * apply lookup_insert_ne. exact Hne.
Qed.

(** What the pass over the registry, begun with empty maps, has
    recorded. *)
Lemma registry_lookups_gathered (m : Mem) (d : Detector) :
  let ids := map Z.of_nat (seq 0 (Z.to_nat MAX_THREADS)) in
  (forall t,
      waiters d !! t
      = if existsb (Z.eqb t) ids && asleep m t
        then Some (recorded m t) else waiters (mkDetector ∅ ∅) !! t) ->
  (forall l,
      holders d !! l
      = if existsb (fun t => asleep m t
                             && (waiting_on (wait_info t m) =? l)) ids
        then Some (holder (word_at l m))
        else holders (mkDetector ∅ ∅) !! l) ->
  gathered_from m d.
Proof.
  intros ids Hws Hhs.
  assert (Hids : forall t, In t ids <-> valid_thread t).
  { intros t. unfold ids, valid_thread. rewrite in_map_iff. split.
    - intros (k & <- & Hk). apply in_seq in Hk. lia.
    - intros Ht. exists (Z.to_nat t). split; [lia |]. apply in_seq. lia. }
  split.
  - intros t info. rewrite Hws. cbn [waiters]. rewrite lookup_empty.
    destruct (existsb (Z.eqb t) ids && asleep m t) eqn:Hc.
    + apply andb_true_iff in Hc. destruct Hc as [Hin Has].
      apply existsb_exists in Hin. destruct Hin as (t' & Hin & Heq).
      apply Z.eqb_eq in Heq. subst t'. apply Hids in Hin.
      split.
      * intros [= <-]. split; [exact Hin |].
        split; [split; [reflexivity | exact Has] | reflexivity].
      * intros (_ & _ & ->). reflexivity.
    + split; [discriminate |]. intros (Hv & [_ Has] & _). exfalso.
      rewrite Has, andb_true_r in Hc.
      apply not_true_iff_false in Hc. apply Hc.
      apply existsb_exists. exists t.
      split; [apply Hids, Hv | apply Z.eqb_refl].
  - intros l h. rewrite Hhs. cbn [holders]. rewrite lookup_empty.
    destruct (existsb _ ids) eqn:Hc.
    + apply existsb_exists in Hc. destruct Hc as (t & Hin & Hc).
      apply andb_true_iff in Hc. destruct Hc as [Has Hl].
      apply Z.eqb_eq in Hl. apply Hids in Hin. split.
      * intros [= <-]. split; [reflexivity |].
        exists t. split; [exact Hin | split; assumption].
      * intros [-> _]. reflexivity.
    + split; [discriminate |]. intros (_ & t & Hv & Hl & Has). exfalso.
      apply not_true_iff_false in Hc. apply Hc.
      apply existsb_exists. exists t. split; [apply Hids, Hv |].
      rewrite Has. apply Z.eqb_eq. exact Hl.
Qed.

(** X22.  With the other threads at rest,
    [gather_waiters_and_holders_info] returns and leaves the memory as
    it was, every queue of the parking lot with its nodes in their
    order.  The waiters it records are exactly the threads of the
    registry that announce a non-null mutex, have a node with their
    identifier in the queue of that mutex, and whose mutex is locked,
    each with the mutex and the wait token it announces; the holders it
    records are exactly the holders of those mutexes. *)
Theorem gather_records_the_sleepers (d0 : Detector) (w : World Mem) :
  env w = [] ->
  exists d w',
    gather_waiters_and_holders_info d0 w = Some (d, w')
    /\ env w' = []
    /\ same_state (mem w) (mem w')
    /\ gathered_from (mem w) d.
Proof.
  intros Hq. unfold gather_waiters_and_holders_info.
  destruct (gather_loop_spec (mem w)
              (map Z.of_nat (seq 0 (Z.to_nat MAX_THREADS)))
              (mkDetector ∅ ∅) w Hq (same_state_refl _))
    as (d & w' & Hloop & Hq' & Hsame & Hws & Hhs).
  exists d, w'. split; [exact Hloop |]. split; [exact Hq' |].
  split; [exact Hsame |].
  apply registry_lookups_gathered; assumption.
Qed.
End Gather.


(** ** [run] wakes a thread only out of a deadlock *)

Section RunSound.
Import DeadlockDetector FairWaitGraph.
Context `{ThreadRegistry}.

Lemma waits_for_held (m : Mem) (t l : Z) :
  waits_for m t l ->
  l <> nullptr /\ holder (word_at l m) <> INVALID_THREADID.
Proof.
  intros [<- Has]. unfold asleep in Has.
  apply andb_true_iff in Has. destruct Has as [Has Hl].
  apply andb_true_iff in Has. destruct Has as [Hn _].
  split.
  - apply negb_true_iff, Z.eqb_neq in Hn. exact Hn.
  - unfold Word.is_locked in Hl. apply negb_true_iff, Z.eqb_neq in Hl.
    exact Hl.
Qed.

Lemma select_waiter_same (lockcycle : list (Z * Z)) (m m' : Mem) :
  global_wait_info m' = global_wait_info m ->
  select_waiter lockcycle m' = select_waiter lockcycle m.
Proof.
  intros Hg. unfold select_waiter. generalize 0 INVALID_THREADID.
  induction lockcycle as [| x rest IH]; intros lt lw; [reflexivity |].
  cbn [select_waiter_loop]. unfold wait_info. rewrite Hg. cbv zeta.
  destruct (negb _); [reflexivity |]. apply IH.
Qed.

Lemma select_waiter_loop_member (lockcycle : list (Z * Z))
    (latest_time latest_waiter : Z) (m : Mem) :
  let r := select_waiter_loop lockcycle latest_time latest_waiter m in
  r = latest_waiter \/ r = INVALID_THREADID \/ count r lockcycle = true.
Proof.
  revert latest_time latest_waiter.
  induction lockcycle as [| [t l] rest IH]; intros lt lw; [left; reflexivity |].
  cbn [select_waiter_loop]. cbv zeta. cbn [fst snd].
  destruct (negb _); [right; left; reflexivity |].
  destruct (IH (if lt <? wait_start_time (wait_info t m)
                then wait_start_time (wait_info t m) else lt)
               (if lt <? wait_start_time (wait_info t m) then t else lw))
    as [Hr | [Hr | Hr]].
  - destruct (lt <? _).
    + right. right. rewrite Hr. cbn [count existsb fst].
      rewrite Z.eqb_refl. reflexivity.
    + left. exact Hr.
  - right. left. exact Hr.
  - right. right. cbn [count existsb]. apply orb_true_iff. right. exact Hr.
Qed.

Lemma select_waiter_member (lockcycle : list (Z * Z)) (m : Mem) :
  select_waiter lockcycle m = INVALID_THREADID
  \/ count (select_waiter lockcycle m) lockcycle = true.
Proof.
  destruct (select_waiter_loop_member lockcycle 0 INVALID_THREADID m)
    as [Hr | [Hr | Hr]]; auto.
Qed.

(** A scan of [verify_lock_cycle] that wakes nobody changes nothing. *)
Lemma verify_scan_false (waiter token : Z)
    (q r : list (WaitNode WaitNodeData)) (w w1 : World Mem) :
  unpark_scan (verify_filter waiter token) q false w
  = Some ((r, false), w1) ->
  r = q /\ w1 = w.
Proof.
  revert r. induction q as [| nd rest IH]; intros r.
  - intros [= <- <-]. auto.
  - cbn [unpark_scan]. unfold verify_filter at 1.
    destruct (_ && _); [mrun; discriminate |].
    unfold bind at 1. unfold ret at 1. unfold bind at 1.
    destruct (unpark_scan _ rest false w) as [[[r1 u] w2] |] eqn:Hs;
      [| discriminate].
    unfold ret. intros [= <- -> <-].
    destruct (IH r1 eq_refl) as [-> ->]. auto.
Qed.

Lemma chain_app (held_by : Z -> Z -> Prop) (c1 c2 : list (Z * Z)) (z : Z) :
  chain held_by (c1 ++ c2) z
  <-> chain held_by c1 (next_thread c2 z) /\ chain held_by c2 z.
Proof.
  induction c1 as [| x c1 IH]; cbn [app chain]; [tauto |].
  rewrite IH. destruct c1; cbn [app next_thread]; tauto.
Qed.

Lemma chain_mono (held_by held_by' : Z -> Z -> Prop) (c : list (Z * Z))
    (z : Z) :
  (forall l t, held_by l t -> held_by' l t) ->
  chain held_by c z -> chain held_by' c z.
Proof.
  intros Hm. induction c as [| x c IH]; cbn [chain]; [tauto |].
  intros [Hx Hc]. auto.
Qed.

(** The walk builds a chain, and the thread it stops at closes a cycle
    with the entries from its own onward. *)
Lemma detect_lock_cycle_loop_chain (fuel : nat) (l t : Z)
    (c r : list (Z * Z)) (d d' : Detector) :
  detect_lock_cycle_loop fuel l (c ++ [(t, l)]) d = Some (r, d') ->
  r <> [] ->
  chain (fun lk h => holders d !! lk = Some h) c t ->
  exists stem cyc,
    r = stem ++ cyc
    /\ cyc <> []
    /\ chain (fun lk h => holders d' !! lk = Some h) cyc (next_thread cyc 0).
Proof.
  revert l t c d.
  induction fuel as [| fuel IH]; intros l t c d; [discriminate |].
  cbn [detect_lock_cycle_loop].
  destruct (holders_subscript_spec l d) as (Hhl & Hsub & Hws).
  destruct (holders_subscript l d) as [h d1]. cbn [fst snd] in *.
  case_bool_decide as Hin; cbn [negb]; [| intros [= <- <-] Hne; congruence].
  pose proof (waiters_subscript_present h d1 Hin) as Hd2.
  destruct (waiters_subscript h d1) as [info d2]. cbn [fst snd] in *.
  subst d2.
  intros Hrun Hne Hc.
  assert (Hc1 : chain (fun lk h0 => holders d1 !! lk = Some h0)
                      (c ++ [(t, l)]) h).
  { apply chain_app. cbn [next_thread chain fst snd]. split; [| auto].
    eapply chain_mono; [| exact Hc]. intros lk h0 Hlk. cbv beta in *.
    eapply lookup_weaken; eassumption. }
  destruct (count h (c ++ [(t, l)])) eqn:Hcount.
  - injection Hrun as <- <-.
    apply count_spec, list_elem_of_In, in_map_iff in Hcount.
    destruct Hcount as ([h' lh] & Hfst & Hmem). cbn [fst] in Hfst. subst h'.
    apply in_split in Hmem. destruct Hmem as (stem & post & Heq).
    exists stem, ((h, lh) :: post). split; [exact Heq |].
    split; [discriminate |]. cbn [next_thread fst].
    rewrite Heq in Hc1. apply chain_app in Hc1. apply Hc1.
  - rewrite (assign_new _ _ _ Hcount) in Hrun.
    apply (IH _ _ _ _ Hrun Hne Hc1).
Qed.
Section Gathered.
Variable m0 : Mem.
Variable d1 : Detector.
Hypothesis Hgathered : gathered_from m0 d1.

Lemma gathered_lock_has_holder (t : Z) (info : WaiterInfo) :
  waiters d1 !! t = Some info ->
  holders d1 !! lock info = Some (holder (word_at (lock info) m0)).
Proof.
  intros Ht. apply (proj1 Hgathered) in Ht. destruct Ht as (Hv & Hw & _).
  apply (proj2 Hgathered). split; [reflexivity |]. exists t. auto.
Qed.

Lemma gathered_holder_valid (l h : Z) :
  holders d1 !! l = Some h ->
  h = holder (word_at l m0) /\ h <> INVALID_THREADID /\ l <> nullptr.
Proof.
  intros Hl. apply (proj2 Hgathered) in Hl.
  destruct Hl as (-> & t & _ & Hw). apply waits_for_held in Hw.
  split; [reflexivity |]. split; apply Hw.
Qed.

(** The walk over gathered waiters adds no zeroed entry. *)
Lemma detect_lock_cycle_loop_pure (fuel : nat) (l : Z)
    (lockcycle r : list (Z * Z)) (d d' : Detector) :
  agrees d1 d ->
  is_Some (holders d1 !! l) ->
  detect_lock_cycle_loop fuel l lockcycle d = Some (r, d') ->
  d' = d.
Proof.
  intros (Hh & Hw & Hinv). revert l lockcycle.
  induction fuel as [| fuel IH]; intros l lockcycle [h Hl]; [discriminate |].
  cbn [detect_lock_cycle_loop]. unfold holders_subscript.
  rewrite Hh, Hl.
  destruct (gathered_holder_valid l h Hl) as (_ & Hvalid & _).
  case_bool_decide as Hin; cbn [negb]; [| intros [= _ <-]; reflexivity].
  destruct Hin as [i Hi]. unfold waiters_subscript. rewrite Hi.
  destruct (count h lockcycle); [intros [= _ <-]; reflexivity |].
  apply IH. rewrite Hw in Hi by exact Hvalid.
  rewrite (gathered_lock_has_holder h i Hi). eexists. reflexivity.
Qed.

Lemma run_loop_sound (ws : list (Z * WaiterInfo)) (d d' : Detector)
    (w w' : World Mem) :
  env w = [] ->
  same_state m0 (mem w) ->
  lot_ok m0 ->
  agrees d1 d ->
  (forall t i, In (t, i) ws -> waiters d1 !! t = Some i) ->
  run_loop ws d w = Some ((true, d'), w') ->
  exists lockcycle cyc key pre nd post,
    deadlocked m0 lockcycle
    /\ NoDup (map fst lockcycle)
    /\ wait_cycle m0 cyc
    /\ (forall x, In x cyc -> In x lockcycle)
    /\ queue get_lot key m0 = pre ++ nd :: post
    /\ queue get_lot key (mem w') = pre ++ post
    /\ tid (data nd) = select_waiter lockcycle m0
    /\ count (tid (data nd)) lockcycle = true
    /\ (forall t l, In (t, l) lockcycle ->
          start_of m0 t <= start_of m0 (tid (data nd)))
    /\ deref (is_dead_locked (data nd)) (mem w') = true.
Proof.
  revert d w. induction ws as [| [t i] rest IH];
    intros d w Hq Hsame Hlot Hagree Hws; [discriminate |].
  cbn [run_loop fst snd]. unfold bind at 1.
  assert (Hti : waiters d1 !! t = Some i) by (apply Hws; left; reflexivity).
  destruct (detect_lock_cycle t (lock i) d w) as [[[lc dA] wA] |] eqn:Hdet;
    [| discriminate].
  assert (HwA : wA = w /\ dA = d
                /\ (lc = []
                    \/ (NoDup (map fst lc) /\ deadlocked m0 lc
                        /\ exists cyc,
                             wait_cycle m0 cyc
                             /\ forall x, In x cyc -> In x lc))).
  { unfold detect_lock_cycle in Hdet.
    destruct (detect_lock_cycle_loop _ _ _ _) as [[r dr] |] eqn:Hloop;
      [| discriminate].
    injection Hdet as -> -> <-. split; [reflexivity |].
    assert (dA = d) as ->.
    { eapply detect_lock_cycle_loop_pure; [exact Hagree | | exact Hloop].
      rewrite (gathered_lock_has_holder t i Hti). eexists. reflexivity. }
    split; [reflexivity |].
    destruct lc as [| x lc']; [left; reflexivity |]. right.
    assert (Hcyc : exists cyc,
               wait_cycle m0 cyc /\ forall y, In y cyc -> In y (x :: lc')).
    { destruct (detect_lock_cycle_loop_chain _ (lock i) t [] _ _ _ Hloop)
        as (stem & cyc & Heq & Hne & Hchain); [discriminate | exact I |].
      exists cyc. split.
      - split; [exact Hne |]. eapply chain_mono; [| exact Hchain].
        intros lk h Hlk. cbv beta in *. rewrite (proj1 Hagree) in Hlk.
        destruct (gathered_holder_valid lk h Hlk) as (-> & _). reflexivity.
      - intros y Hy. rewrite Heq. apply in_or_app. right. exact Hy. }
    apply detect_lock_cycle_loop_closed in Hloop;
      [| discriminate | apply NoDup_singleton].
    destruct Hloop as (_ & _ & Hnd & _ & Hnew & Hcl).
    split; [exact Hnd |]. split; [| exact Hcyc].
    destruct Hagree as (Hh & Hw & Hinv).
    intros t' lk Hin.
    assert (Hclosed : exists h, holders d1 !! lk = Some h
                                /\ count h (x :: lc') = true).
    { rewrite <- Hh. apply (Hcl t' lk Hin).
      destruct (Hnew t' lk Hin) as [[[= <- <-] | []] | [Hc _]];
        [right; reflexivity | left; exact Hc]. }
    destruct Hclosed as (h & Hlk & Hcount).
    destruct (gathered_holder_valid lk h Hlk) as (-> & _ & Hlknn).
    assert (Hreal : exists i', waiters d1 !! t' = Some i' /\ lock i' = lk).
    { destruct (Hnew t' lk Hin) as [[[= <- <-] | []] | (_ & i' & Hi' & Hlk')].
      - exists i. auto.
      - destruct (decide (t' = INVALID_THREADID)) as [-> | Hne].
        + apply Hinv in Hi'. congruence.
        + rewrite Hw in Hi' by exact Hne. exists i'. auto. }
    destruct Hreal as (i' & Hi' & <-).
    apply (proj1 Hgathered) in Hi'. destruct Hi' as (Hv & Hwf & _).
    auto. }
  destruct HwA as (-> & -> & Hlc).
  unfold bind at 1.
  destruct (verify_lock_cycle lc d w) as [[[u dB] wB] |] eqn:Hver;
    [| discriminate].
  destruct Hsame as (Hsw & Hsg & Hsf & Hsc & Hsq).
  destruct u.
  - intros [= <- <-].
    destruct Hlc as [-> | (Hnd & Hdead & cyc & Hcyc & Hincl)]; [discriminate |].
    destruct (verify_true_unparks _ _ _ _ _ Hver)
      as (key & pre & nd & post & Hqueue & Htid & Hqueue' & Hflag).
    rewrite (moved_quiet w Hq), Hsq in Hqueue.
    rewrite (select_waiter_same lc m0 (mem w) Hsg) in Htid.
    assert (Hv : valid_thread (tid (data nd))).
    { apply (Hlot key nd). rewrite Hqueue. apply in_or_app. right. left.
      reflexivity. }
    assert (Hnot : select_waiter lc m0 <> INVALID_THREADID).
    { rewrite <- Htid. unfold valid_thread, INVALID_THREADID in *. lia. }
    exists lc, cyc, key, pre, nd, post.
    split; [exact Hdead |]. split; [exact Hnd |]. split; [exact Hcyc |].
    split; [exact Hincl |]. split; [exact Hqueue |].
    split; [exact Hqueue' |]. split; [exact Htid |].
    split; [| split; [| exact Hflag]].
    + destruct (select_waiter_member lc m0) as [Hinv | Hmem];
        [contradiction | rewrite Htid; exact Hmem].
    + assert (Hfresh : Forall (fresh m0) lc).
      { apply Forall_forall. intros [t' l'] Hin.
        apply list_elem_of_In in Hin.
        destruct (Hdead t' l' Hin) as (_ & [Hl _] & _).
        unfold fresh. cbn [fst snd]. congruence. }
      rewrite Htid.
      destruct (select_waiter_loop_fresh m0 lc Hfresh 0 INVALID_THREADID)
        as [[Hr _] | (pre' & l' & post' & Heq & _ & Hpre & Hpost)];
        [contradiction |].
      fold (select_waiter lc m0) in Heq, Hpre, Hpost.
      intros t' l'' Hin. rewrite Heq in Hin.
      rewrite Forall_forall in Hpre. rewrite Forall_forall in Hpost.
      apply in_app_or in Hin. destruct Hin as [Hin | [[= <- _] | Hin]].
      * apply list_elem_of_In in Hin. specialize (Hpre _ Hin).
        cbn [fst] in Hpre. lia.
      * lia.
      * apply list_elem_of_In in Hin. specialize (Hpost _ Hin).
        cbn [fst] in Hpost. exact Hpost.
  - assert (HB : wB = mkWorld (set_queue get_lot set_parkinglot
                                 (lock (fst (waiters_subscript
                                               (select_waiter lc (mem w)) d)))
                                 (queue get_lot
                                    (lock (fst (waiters_subscript
                                                  (select_waiter lc (mem w)) d)))
                                    (mem w)) (mem w)) []
                 /\ dB = snd (waiters_subscript (select_waiter lc (mem w)) d)
                 \/ (wB = w /\ dB = d)).
    { destruct lc as [| x lc'].
      - right. cbn in Hver. injection Hver as <- <-. auto.
      - left. rewrite verify_lock_cycle_run in Hver by discriminate.
        cbv zeta in Hver. rewrite (moved_quiet w Hq) in Hver.
        destruct (unpark_scan _ _ _ _) as [[[r u] w1] |] eqn:Hs;
          [| discriminate].
        injection Hver as -> <- <-.
        destruct (verify_scan_false _ _ _ _ _ _ Hs) as [-> ->].
        rewrite Hq. auto. }
    apply IH.
    + destruct HB as [[-> _] | [-> _]]; [reflexivity | exact Hq].
    + destruct HB as [[-> _] | [-> _]].
      * cbn [mem]. apply same_state_set_queue. repeat split; assumption.
      * repeat split; assumption.
    + exact Hlot.
    + destruct HB as [[_ ->] | [_ ->]]; [| exact Hagree].
      destruct Hagree as (Hh & Hw & Hinv).
      unfold waiters_subscript.
      destruct (waiters d !! select_waiter lc (mem w)) eqn:Hsel;
        cbn [snd]; [repeat split; assumption |].
      assert (Hsi : select_waiter lc (mem w) = INVALID_THREADID).
      { destruct (select_waiter_member lc (mem w)) as [Hi | Hmem];
          [exact Hi |]. exfalso.
        destruct Hlc as [-> | (_ & Hdead & _)]; [discriminate |].
        apply count_spec, list_elem_of_In, in_map_iff in Hmem.
        destruct Hmem as ([t' lk] & Heq & Hin). cbn [fst] in Heq.
        destruct (Hdead t' lk Hin) as (Hv & Hwf & _).
        assert (Hrec : waiters d1 !! t' = Some (recorded m0 t')).
        { apply (proj1 Hgathered). split; [exact Hv |].
          split; [| reflexivity]. destruct Hwf as [Hl Has].
          split; [reflexivity | exact Has]. }
        rewrite <- Hw in Hrec.
        - rewrite Heq in Hrec. congruence.
        - unfold valid_thread, INVALID_THREADID in *. lia. }
      rewrite Hsi. split; [exact Hh |]. cbn [waiters]. split.
      * intros t' Hne. rewrite lookup_insert_ne by congruence. apply Hw, Hne.
      * intros i'. rewrite lookup_insert_eq. intros [= <-]. reflexivity.
    + intros t' i' Hin. apply Hws. right. exact Hin.
Qed.
End Gathered.

(** X25.  With the other threads at rest and a parking lot whose nodes
    carry identifiers of threads, a pass of [run] returns true only if
    the memory it started from holds a deadlock: a set of threads, no
    thread twice in it, every one of them asleep on the mutex the set
    gives for it while a thread of the set holds that mutex; and within
    the set a cycle, each thread of which waits for a mutex the next one
    holds, the last for a mutex of the first.  The node [run] has taken
    out of the parking lot and flagged is one of the thread
    [select_waiter] chooses: a thread of the set, and none of the set
    began its wait later.  That thread need not be on the cycle itself:
    the set can hold threads that wait for a thread of the cycle without
    being waited for. *)
Theorem run_wakes_only_a_deadlocked_thread (d0 d' : Detector)
    (w w' : World Mem) :
  env w = [] ->
  lot_ok (mem w) ->
  run d0 w = Some ((true, d'), w') ->
  exists lockcycle cyc key pre nd post,
    deadlocked (mem w) lockcycle
    /\ NoDup (map fst lockcycle)
    /\ wait_cycle (mem w) cyc
    /\ (forall x, In x cyc -> In x lockcycle)
    /\ queue get_lot key (mem w) = pre ++ nd :: post
    /\ queue get_lot key (mem w') = pre ++ post
    /\ tid (data nd) = select_waiter lockcycle (mem w)
    /\ count (tid (data nd)) lockcycle = true
    /\ (forall t l, In (t, l) lockcycle ->
          start_of (mem w) t <= start_of (mem w) (tid (data nd)))
    /\ deref (is_dead_locked (data nd)) (mem w') = true.
Proof.
  intros Hq Hlot. unfold run. unfold bind at 1.
  unfold gather_waiters_and_holders_info.
  destruct (gather_loop_spec (mem w)
              (map Z.of_nat (seq 0 (Z.to_nat MAX_THREADS)))
              (mkDetector ∅ ∅) w Hq (same_state_refl _))
    as (d1 & w1 & Hg & Hq1 & Hsame & Hws & Hhs).
  pose proof (registry_lookups_gathered (mem w) d1 Hws Hhs) as Hgath.
  rewrite Hg. apply (run_loop_sound (mem w) d1 Hgath); try assumption.
  - repeat split. intros i Hi.
    apply (proj1 Hgath) in Hi. destruct Hi as (Hv & _).
    unfold valid_thread, INVALID_THREADID in Hv. lia.
  - intros t i Hin. apply list_elem_of_In, elem_of_map_to_list in Hin.
    exact Hin.
Qed.
End RunSound.

End FairMutexFacts.

(** ** The theorems at work *)

Module Witness.
Import Scenario.
#[local] Existing Instance registry4.

Lemma is_lock_contented_safe_inverted_witness :
  0 <= 3 < 2 ^ 31
  /\ Mutex.Word.is_lock_contented (E := true)
       (Mutex.Word.get_contented_word true 3) = false.
Proof.
  split; [lia |].
  apply (proj1 (MutexSpec.is_lock_contented_safe_inverted 3 ltac:(lia))).
Defined.

Lemma unlock_safe_unparks_when_uncontended_witness :
  0 <= 0 < 2 ^ 31
  /\ Mutex.word_at 1 (mem (Std.held_with_sleeper 0))
     = Mutex.Word.get_lock_word true 0
  /\ exists w',
       Mutex.unlock 1 (Std.held_with_sleeper 0) = Some (tt, w')
       /\ queue Mutex.get_lot 1 (mem w')
          = tail (queue Mutex.get_lot 1
                    (mem (moved (MutexProps.released 1
                                   (Std.held_with_sleeper 0))))).
Proof.
  split; [lia |]. split; [reflexivity |].
  apply (proj1 (MutexSpec.unlock_safe_unparks_when_uncontended
                  1 0 (Std.held_with_sleeper 0) ltac:(lia))).
  reflexivity.
Defined.

(** The waiter of a contended mutex sleeps on after [unlock]. *)
Example unlock_safe_leaves_sleeper :
  Mutex.unlock 1 (Std.held_with_sleeper (Mutex.Word.get_contented_word true 0))
  = Some (tt,
          mkWorld (Mutex.mkMem (<[1 := Mutex.Word.M_UNLOCKED]> ∅) ∅
                     (<[1 := [mkNode 1 tt]]> ∅) false) []).
Proof. vm_compute. reflexivity. Qed.

(** Thread 0, which holds mutex 1, asks for mutex 2; thread 1 holds it
    and sleeps on mutex 1.  Nobody wakes thread 0; its wait times out, its
    search closes the cycle, and [lock] returns [DEADLOCKED]. *)
Example lock_times_out_into_deadlock :
  Mutex.lock 1 0 2
    (mkWorld (Mutex.mkMem (<[2 := 1]> (<[1 := 0]> ∅)) (<[1 := 1]> ∅)
                          (<[1 := [mkNode 1 tt]]> ∅) false) [])
  = Some (DEADLOCKED, Std.resolved).
Proof. vm_compute. reflexivity. Qed.

Lemma check_deadlock_true_only_if_verified_witness :
  Mutex.check_deadlock 0 2 Std.timed_out = Some (true, Std.resolved)
  /\ Mutex.slot 0 (mem Std.resolved) = nullptr.
Proof.
  assert (Hc : Mutex.check_deadlock 0 2 Std.timed_out
               = Some (true, Std.resolved)) by (vm_compute; reflexivity).
  split; [exact Hc |].
  destruct (MutexSpec.check_deadlock_true_only_if_verified
              0 2 Std.timed_out Std.resolved Hc)
    as (waiters & _ & _ & _ & _ & Hslot & _).
  exact Hslot.
Defined.

Import FairMutex FairMutexProps FairMutexSpec.

Lemma at_most_one_thread_is_holder_witness :
  reachable true Fair.held_by_0
  /\ holder_ok (word_at 1 (mem Fair.held_by_0)).
Proof.
  assert (Hr : reachable true Fair.held_by_0).
  { apply (reach_lock true 1 0 1 Fair.fresh_world LOCKED).
    - apply reach_start. constructor.
    - unfold valid_thread. simpl. lia.
    - vm_compute. reflexivity. }
  split; [exact Hr |].
  apply (proj1 (at_most_one_thread_is_holder true Fair.held_by_0 Hr 1)).
Defined.

(** C4, as the spec states it, fails: a thread that calls [lock] on a
    mutex it holds registers as a waiter, the parking lot answers [Skip]
    with the flag clear, and [lock] returns [LOCKED] from its first pass:
    [park] reports [PARKRES_LOCKED], not [PARKRES_RETRY]. *)
Lemma skip_is_not_retried :
  increment_num_waiters 1 Fair.held_by_0 = Some (true, Fair.registered)
  /\ park_lambda true folly_park 0 1 Fair.registered
     = Some ((Skip, false), Fair.denounced)
  /\ park true folly_park 0 1 Fair.held_by_0
     = Some (PARKRES_LOCKED, Fair.reported_locked)
  /\ park true folly_park 0 1 Fair.held_by_0
     <> Some (PARKRES_RETRY, Fair.reported_locked)
  /\ lock true folly_park 1 0 1 Fair.held_by_0
     = Some (LOCKED, Fair.reported_locked).
Proof.
  repeat split; try (vm_compute; reflexivity).
  vm_compute. discriminate.
Qed.

Lemma park_skip_reports_locked_witness :
  increment_num_waiters 1 Fair.held_by_0 = Some (true, Fair.registered)
  /\ park_announce true 0 1 Fair.registered
     = Some (mkWaitNodeData 0 1 0, Fair.announced)
  /\ folly_park 0 1 (mkWaitNodeData 0 1 0) (park_validate 0 1) Fair.announced
     = Some (Skip, Fair.announced)
  /\ deref (frame_of 0) (mem Fair.announced) = false
  /\ park_denounce true 0 Fair.announced = Some (tt, Fair.denounced)
  /\ exists w',
       park true folly_park 0 1 Fair.held_by_0 = Some (PARKRES_LOCKED, w').
Proof.
  assert (H1 : increment_num_waiters 1 Fair.held_by_0
               = Some (true, Fair.registered)) by (vm_compute; reflexivity).
  assert (H2 : park_announce true 0 1 Fair.registered
               = Some (mkWaitNodeData 0 1 0, Fair.announced))
    by (vm_compute; reflexivity).
  assert (H3 : folly_park 0 1 (mkWaitNodeData 0 1 0) (park_validate 0 1)
                 Fair.announced = Some (Skip, Fair.announced))
    by (vm_compute; reflexivity).
  assert (H4 : deref (frame_of 0) (mem Fair.announced) = false)
    by reflexivity.
  assert (H5 : park_denounce true 0 Fair.announced
               = Some (tt, Fair.denounced)) by (vm_compute; reflexivity).
  repeat (split; [assumption |]).
  destruct (park_skip_reports_locked true folly_park 0 1 _ _ _ _ _ _
              H1 H2 H3 H4 H5) as (w' & Hp & _).
  exists w'. exact Hp.
Defined.

Lemma unlock_transfers_or_releases_witness :
  Word.has_waiters (word_at 1 (mem Fair.one_sleeper)) = true
  /\ queue get_lot 1 (mem (moved Fair.one_sleeper)) = [Fair.sleeper]
  /\ exists w',
       unlock 1 1 Fair.one_sleeper = Some (tt, w')
       /\ word_at 1 (mem w') = mkLockWord 1 0
       /\ queue get_lot 1 (mem w') = [].
Proof.
  assert (H1 : Word.has_waiters (word_at 1 (mem Fair.one_sleeper)) = true)
    by reflexivity.
  assert (H2 : queue get_lot 1 (mem (moved Fair.one_sleeper)) = [Fair.sleeper])
    by reflexivity.
  split; [exact H1 |]. split; [exact H2 |].
  destruct (proj1 (unlock_transfers_or_releases 0 1 Fair.one_sleeper)
              Fair.sleeper [] H1 H2)
    as (n & w' & Hu & _ & _ & Hq & Hword).
  exists w'. split; [exact Hu |]. split; [| exact Hq].
  apply Hword; [reflexivity | vm_compute; split; reflexivity].
Defined.

(** C6, as the spec states it, fails: thread 0 and thread 1 wait for one
    another since the same tick; the walk that starts at thread 0 yields
    the cycle in one order and [select_waiter] picks thread 0, the walk
    that starts at thread 1 yields it in the other and [select_waiter]
    picks thread 1.  No comparison of thread identifiers breaks the tie.
    And [select_waiter] returns [INVALID_THREADID], no member, for a cycle
    with a member that has moved on and for one whose waits all began at
    the clock's epoch. *)
Lemma select_waiter_tie_follows_walk :
  DeadlockDetector.detect_lock_cycle 0 10 Fair.gathered (Fair.cycle 11)
  = Some (([(0, 10); (1, 11)], Fair.gathered), Fair.cycle 11)
  /\ DeadlockDetector.detect_lock_cycle 1 11 Fair.gathered (Fair.cycle 11)
     = Some (([(1, 11); (0, 10)], Fair.gathered), Fair.cycle 11)
  /\ DeadlockDetector.select_waiter [(0, 10); (1, 11)] (mem (Fair.cycle 11))
     = 0
  /\ DeadlockDetector.select_waiter [(1, 11); (0, 10)] (mem (Fair.cycle 11))
     = 1
  /\ DeadlockDetector.select_waiter [(0, 10); (1, 11)]
       (mem (Fair.cycle nullptr)) = INVALID_THREADID
  /\ DeadlockDetector.select_waiter [(0, 10); (1, 11)]
       (mem (Fair.cycle_at 0 11)) = INVALID_THREADID.
Proof. repeat split; vm_compute; reflexivity. Qed.

Lemma select_waiter_latest_first_witness :
  Forall (fresh (mem (Fair.cycle 11))) [(0, 10); (1, 11)]
  /\ Exists (fun waiter => 0 < start_of (mem (Fair.cycle 11)) (fst waiter))
            [(0, 10); (1, 11)]
  /\ exists pre l post,
       [(0, 10); (1, 11)]
       = pre ++ (DeadlockDetector.select_waiter [(0, 10); (1, 11)]
                   (mem (Fair.cycle 11)), l) :: post.
Proof.
  assert (H1 : Forall (fresh (mem (Fair.cycle 11))) [(0, 10); (1, 11)])
    by (repeat constructor).
  assert (H2 : Exists (fun waiter =>
                         0 < start_of (mem (Fair.cycle 11)) (fst waiter))
                      [(0, 10); (1, 11)])
    by (left; vm_compute; reflexivity).
  split; [exact H1 |]. split; [exact H2 |].
  destruct (select_waiter_latest_first _ _ H1 H2)
    as (pre & l & post & Heq & _).
  exists pre, l, post. exact Heq.
Defined.

Lemma cycle_world_ok (l : Z) : world_ok (Fair.cycle l).
Proof.
  split; [| constructor]. split.
  - intros this. unfold word_at. simpl.
    rewrite lookup_insert. destruct (decide (10 = this)) as [_ | _].
    + right. unfold valid_thread. simpl. lia.
    + rewrite lookup_insert. destruct (decide (11 = this)) as [_ | _].
      * right. unfold valid_thread. simpl. lia.
      * rewrite lookup_empty. left. reflexivity.
  - intros key nd. unfold queue, get_lot. simpl.
    rewrite lookup_insert. destruct (decide (10 = key)) as [_ | _].
    + simpl. intros [<- | []]. unfold valid_thread. simpl. lia.
    + rewrite lookup_insert. destruct (decide (11 = key)) as [_ | _].
      * simpl. intros [<- | []]. unfold valid_thread. simpl. lia.
      * rewrite lookup_empty. intros [].
Qed.




(** *** Whole runs

    Thread 1 asks for mutex 1, which thread 0 holds: it misses the fast
    path, pauses, registers, parks and sleeps; thread 0 unlocks; thread 1
    wakes as the holder. *)
Example lock_sleeps_until_handed_over :
  lock true folly_park 1 1 1
    (mkWorld (mem Fair.held_by_0) [id; id; id; id; settled (unlock 1 1)])
  = Some (LOCKED,
          mkWorld (mkMem (<[1 := mkLockWord 1 0]> ∅) (<[1 := []]> ∅)
                         (<[1 := mkThreadWaitInfo nullptr 100 1]> ∅)
                         (<[1 := false]> ∅) 100) []).
Proof. vm_compute. reflexivity. Qed.

(** Thread 1, which holds mutex 10, asks for mutex 11 and closes a cycle
    with thread 0; the detector runs while it sleeps, finds one deadlock
    and wakes the later of the two, thread 1, which returns [DEADLOCKED]
    and is off the waiter count of mutex 11 again. *)
Example lock_is_woken_as_victim :
  lock true folly_park 1 1 11
    (mkWorld Fair.half_cycle
       [id; id; id; id; settled (DeadlockDetector.detect_deadlocks 2)])
  = Some (DEADLOCKED,
          mkWorld
            (mkMem (<[10 := mkLockWord 1 1]> (<[11 := mkLockWord 0 0]> ∅))
                   (<[10 := [mkNode 0 (mkWaitNodeData 0 1 0)]]>
                      (<[11 := []]> ∅))
                   (<[0 := mkThreadWaitInfo 10 5 1]>
                      (<[1 := mkThreadWaitInfo nullptr 100 1]> ∅))
                   (<[0 := false]> (<[1 := true]> ∅)) 100) []).
Proof. vm_compute. reflexivity. Qed.

(** C9, as the spec states it, fails: the announcement that finds the
    counter at [2^64 - 1] returns 0, which is not greater. *)
Lemma wait_token_wraps :
  fst (WaitInfo.announce_wait true 7 1 Fair.last_token) = 0
  /\ ~ current_wait_token Fair.last_token
       < fst (WaitInfo.announce_wait true 7 1 Fair.last_token).
Proof. split; [reflexivity | vm_compute; discriminate]. Qed.

Lemma wait_tokens_increase_witness :
  0 <= current_wait_token (mkThreadWaitInfo nullptr 0 0)
  /\ current_wait_token (mkThreadWaitInfo nullptr 0 0)
     + Z.of_nat (length [(5, 10); (9, 11)]) < 2 ^ 64
  /\ StronglySorted Z.lt
       (wait_episodes true [(5, 10); (9, 11)] (mkThreadWaitInfo nullptr 0 0)).
Proof.
  assert (H1 : 0 <= current_wait_token (mkThreadWaitInfo nullptr 0 0))
    by (simpl; lia).
  assert (H2 : current_wait_token (mkThreadWaitInfo nullptr 0 0)
               + Z.of_nat (length [(5, 10); (9, 11)]) < 2 ^ 64)
    by (simpl; lia).
  split; [exact H1 |]. split; [exact H2 |].
  apply (proj1 (proj2 (wait_tokens_increase _ _ H1 H2))).
Defined.

Lemma decrement_num_waiters_wraps_witness :
  (exists w',
      decrement_num_waiters 1 Fair.fresh_world = Some (true, w')
      /\ word_at 1 (mem w') = mkLockWord (holder (word_at 1 (mem Fair.fresh_world)))
                                         (2 ^ 32 - 1))
  /\ park true Fair.skip_flagged_lot 0 1 Fair.held_by_0
     = Some (PARKRES_LOCKED,
             commit 1 Word.decrement_num_waiters
               (commit 1 Word.decrement_num_waiters Fair.flagged_denounced)).
Proof.
  destruct (decrement_num_waiters_wraps 1 Fair.fresh_world)
    as (_ & _ & _ & Hzero & _).
  destruct (decrement_num_waiters_wraps 1 Fair.held_by_0)
    as (_ & _ & _ & _ & Htwice).
  split; [apply Hzero; reflexivity |].
  apply (Htwice true Fair.skip_flagged_lot 0 (mkWaitNodeData 0 1 0)
           Fair.registered Fair.announced Fair.flagged);
    vm_compute; reflexivity.
Defined.
End Witness.

(** ** The further theorems at work *)

Module FactsWitness.
Import Scenario Cases.
#[local] Existing Instance registry4.

Lemma holder_words_decode_witness :
  0 <= 3 < 2 ^ 31 - 1
  /\ Mutex.Word.as_uncontented_word (E := true)
       (Mutex.Word.get_contented_word true 3)
     = Mutex.Word.get_lock_word true 3.
Proof.
  split; [lia |].
  destruct (MutexFacts.holder_words_decode 3 ltac:(lia))
    as (_ & _ & _ & Hd & _).
  exact Hd.
Defined.

Lemma lock_respects_the_holder_witness :
  Exclusion.held_for_good 1 (Std.with_word true 0)
  /\ exists w',
       Mutex.lock 1 0 1 (Std.with_word true 0) = Some (DEADLOCKED, w')
       /\ Exclusion.held_for_good 1 w'.
Proof.
  assert (Hh : Exclusion.held_for_good 1 (Std.with_word true 0))
    by (split; [reflexivity | constructor]).
  split; [exact Hh |].
  destruct (Mutex.lock 1 0 1 (Std.with_word true 0))
    as [[r w'] |] eqn:Hl; [| vm_compute in Hl; discriminate].
  destruct (MutexFacts.lock_respects_the_holder 1 1 0 _ _ _ Hh Hl)
    as (-> & _ & Hh').
  exists w'. split; [reflexivity | exact Hh'].
Defined.

Lemma lean_lock_never_deadlocked_witness :
  Mutex.lock 1 0 1 (Std.free false)
  = Some (LOCKED, Std.with_word false Mutex.LS_LOCKED)
  /\ LOCKED = LOCKED.
Proof.
  assert (Hl : Mutex.lock 1 0 1 (Std.free false)
               = Some (LOCKED, Std.with_word false Mutex.LS_LOCKED))
    by (vm_compute; reflexivity).
  split; [exact Hl |].
  apply (MutexFacts.lean_lock_never_deadlocked 1 0 1 _ _ _ Hl).
Defined.

Lemma uncontended_path_available_lean_witness :
  Mutex.uncontended_path_available (E := false) 1 1
    (Std.with_word false Mutex.LS_LOCKED)
  = Some (false, Std.with_word false Mutex.LS_CONTENTED)
  /\ Mutex.word_at 1 (mem (Std.with_word false Mutex.LS_CONTENTED))
     = Mutex.LS_CONTENTED.
Proof.
  assert (Hu : Mutex.uncontended_path_available (E := false) 1 1
                 (Std.with_word false Mutex.LS_LOCKED)
               = Some (false, Std.with_word false Mutex.LS_CONTENTED))
    by (vm_compute; reflexivity).
  split; [exact Hu |].
  apply (MutexFacts.uncontended_path_available_lean 1 1 _ _ false Hu).
Defined.

Lemma uncontended_path_available_safe_witness :
  env (Std.with_word true (Mutex.Word.get_contented_word true 0)) = []
  /\ 0 <= 0 < 2 ^ 31 - 1 /\ 0 <= 1 < 2 ^ 31
  /\ Mutex.uncontended_path_available 1 1
       (Std.with_word true (Mutex.Word.get_contented_word true 0))
     = Some (false,
             mkWorld (Mutex.store_word 1 (Mutex.Word.get_contented_word true 1)
                        (mem (Std.with_word true
                                (Mutex.Word.get_contented_word true 0)))) []).
Proof.
  split; [reflexivity |]. split; [lia |]. split; [lia |].
  apply (proj2 (MutexFacts.uncontended_path_available_safe 1 0 1
                  (Std.with_word true
                     (Mutex.Word.get_contented_word true 0))
                  eq_refl ltac:(lia) ltac:(lia))).
  reflexivity.
Defined.

Lemma lock_unlock_round_trip_witness :
  env (Std.free true) = []
  /\ Mutex.Word.is_locked (Mutex.word_at 1 (mem (Std.free true)))
     = false
  /\ Mutex.Word.is_locked (Mutex.Word.get_lock_word true 0) = true
  /\ exists w1 w2,
       Mutex.lock 1 0 1 (Std.free true) = Some (LOCKED, w1)
       /\ Mutex.unlock 1 w1 = Some (tt, w2)
       /\ Mutex.word_at 1 (mem w2) = Mutex.Word.get_unlocked_word true.
Proof.
  assert (H1 : Mutex.Word.is_locked
                 (Mutex.word_at 1 (mem (Std.free true))) = false)
    by reflexivity.
  assert (H2 : Mutex.Word.is_locked (Mutex.Word.get_lock_word true 0) = true)
    by reflexivity.
  split; [reflexivity |]. split; [exact H1 |]. split; [exact H2 |].
  destruct (MutexFacts.lock_unlock_round_trip 0 0 1 (Std.free true) eq_refl H1 H2)
    as (w1 & w2 & Hl & _ & _ & Hu & Hw & _).
  exists w1, w2. auto.
Defined.

Lemma park_clears_announcement_witness :
  Mutex.park 0 2 Std.crossing = Some (true, Scenario.Std.resolved)
  /\ Mutex.slot 0 (mem Scenario.Std.resolved) = nullptr.
Proof.
  assert (Hp : Mutex.park 0 2 Std.crossing = Some (true, Scenario.Std.resolved))
    by (vm_compute; reflexivity).
  split; [exact Hp |].
  apply (MutexFacts.park_clears_announcement 0 2 _ _ _ Hp).
Defined.

Lemma detect_deadlock_cycle_is_closed_witness :
  env Scenario.Std.timed_out = []
  /\ Mutex.detect_deadlock 0 2 Scenario.Std.timed_out
  = Some ((true, <[1 := 1]> {[0 := 2]}), Scenario.Std.timed_out)
  /\ WaitGraph.closed (<[1 := 1]> {[0 := 2]}) (mem Scenario.Std.timed_out) 1.
Proof.
  assert (Hd : Mutex.detect_deadlock 0 2 Scenario.Std.timed_out
               = Some ((true, <[1 := 1]> {[0 := 2]}), Scenario.Std.timed_out))
    by (vm_compute; reflexivity).
  split; [reflexivity |]. split; [exact Hd |].
  destruct (MutexFacts.detect_deadlock_cycle_is_closed 0 2
              Scenario.Std.timed_out _ _ eq_refl Hd)
    as (_ & _ & Hclosed).
  apply (Hclosed 1 1). reflexivity.
Defined.

Lemma check_deadlock_false_stores_nothing_witness :
  Mutex.check_deadlock 1 1 (Std.with_word true 0)
  = Some (false, Std.with_word true 0)
  /\ (Std.with_word true 0 = Std.with_word true 0
      \/ Std.with_word true 0 = moved (Std.with_word true 0)).
Proof.
  assert (Hc : Mutex.check_deadlock 1 1 (Std.with_word true 0)
               = Some (false, Std.with_word true 0))
    by (vm_compute; reflexivity).
  split; [exact Hc |].
  apply (MutexFacts.check_deadlock_false_stores_nothing 1 1 _ _ Hc).
Defined.

Lemma park_times_out_against_live_holder_witness :
  env (Std.with_word true 0) = []
  /\ valid_thread 0 /\ 0 < 2 ^ 31 - 1 /\ 0 <> 1
  /\ Mutex.word_at 1 (mem (Std.with_word true 0))
     = Mutex.Word.get_lock_word true 0
  /\ Mutex.slot 0 (mem (Std.with_word true 0)) = nullptr
  /\ exists w',
       Mutex.park 1 1 (Std.with_word true 0) = Some (false, w')
       /\ Mutex.slot 1 (mem w') = nullptr.
Proof.
  assert (Hv : valid_thread 0) by (unfold valid_thread; simpl; lia).
  assert (Hne : 0 <> 1) by lia.
  split; [reflexivity |]. split; [exact Hv |]. split; [lia |].
  split; [exact Hne |]. split; [reflexivity |]. split; [reflexivity |].
  destruct (MutexFacts.park_times_out_against_live_holder 1 0 1
              (Std.with_word true 0) eq_refl Hv ltac:(lia) Hne
              eq_refl eq_refl)
    as (w' & Hp & _ & Hs & _).
  exists w'. auto.
Defined.

Lemma relock_is_deadlock_witness :
  env (Std.with_word true 0) = []
  /\ valid_thread 0 /\ 0 < 2 ^ 31 - 1 /\ 1 <> nullptr
  /\ Mutex.word_at 1 (mem (Std.with_word true 0))
     = Mutex.Word.get_lock_word true 0
  /\ Mutex.dead_lock_verify_mutex (mem (Std.with_word true 0)) = false
  /\ exists w',
       Mutex.lock 1 0 1 (Std.with_word true 0) = Some (DEADLOCKED, w').
Proof.
  assert (Hv : valid_thread 0) by (unfold valid_thread; simpl; lia).
  assert (Hn : 1 <> nullptr) by (unfold nullptr; lia).
  split; [reflexivity |]. split; [exact Hv |]. split; [lia |].
  split; [exact Hn |]. split; [reflexivity |]. split; [reflexivity |].
  destruct (MutexFacts.relock_is_deadlock 0 0 1 (Std.with_word true 0)
              eq_refl Hv ltac:(lia) Hn eq_refl eq_refl)
    as (w' & Hl & _).
  exists w'. exact Hl.
Defined.


Lemma lean_lock_is_woken_by_unlock_witness :
  Mutex.word_at 1 (mem (Std.with_word false Mutex.LS_LOCKED))
  = Mutex.LS_LOCKED
  /\ queue Mutex.get_lot 1 (mem (Std.with_word false Mutex.LS_LOCKED)) = []
  /\ exists w',
       Mutex.lock 2 1 1
         (mkWorld (mem (Std.with_word false Mutex.LS_LOCKED))
                  [id; id; id; id; settled (Mutex.unlock 1)])
       = Some (LOCKED, w')
       /\ Mutex.word_at 1 (mem w') = Mutex.LS_CONTENTED.
Proof.
  assert (H1 : Mutex.word_at 1 (mem (Std.with_word false Mutex.LS_LOCKED))
               = Mutex.LS_LOCKED) by reflexivity.
  assert (H2 : queue Mutex.get_lot 1
                 (mem (Std.with_word false Mutex.LS_LOCKED)) = [])
    by reflexivity.
  split; [exact H1 |]. split; [exact H2 |].
  destruct (MutexFacts.lean_lock_is_woken_by_unlock 0 1 1
              (mem (Std.with_word false Mutex.LS_LOCKED)) H1 H2)
    as (w' & Hl & Hw & _).
  exists w'. auto.
Defined.

Lemma safe_lock_is_woken_by_unlock_witness :
  0 <= 0 < 2 ^ 31 - 1
  /\ Mutex.word_at 1 (mem (Std.with_word true 0))
     = Mutex.Word.get_lock_word true 0
  /\ queue Mutex.get_lot 1 (mem (Std.with_word true 0)) = []
  /\ exists w',
       Mutex.lock 2 1 1
         (mkWorld (mem (Std.with_word true 0))
                  [id; id; id; settled (Mutex.unlock 1)])
       = Some (LOCKED, w')
       /\ Mutex.word_at 1 (mem w') = Mutex.Word.get_contented_word true 1.
Proof.
  assert (H1 : Mutex.word_at 1 (mem (Std.with_word true 0))
               = Mutex.Word.get_lock_word true 0) by reflexivity.
  assert (H2 : queue Mutex.get_lot 1 (mem (Std.with_word true 0)) = [])
    by reflexivity.
  split; [lia |]. split; [exact H1 |]. split; [exact H2 |].
  destruct (MutexFacts.safe_lock_is_woken_by_unlock 0 1 0 1
              (mem (Std.with_word true 0)) ltac:(lia) H1 H2)
    as (w' & Hl & Hw & _).
  exists w'. auto.
Defined.

Import FairMutex FairMutexProps.

Lemma num_waiters_round_trip_witness :
  0 <= num_waiters (mkLockWord 0 (2 ^ 32 - 1)) < 2 ^ 32
  /\ Word.decrement_num_waiters
       (Word.increment_num_waiters (mkLockWord 0 (2 ^ 32 - 1)))
     = mkLockWord 0 (2 ^ 32 - 1).
Proof.
  assert (Hn : 0 <= num_waiters (mkLockWord 0 (2 ^ 32 - 1)) < 2 ^ 32)
    by (simpl; lia).
  split; [exact Hn |].
  destruct (FairMutexFacts.num_waiters_round_trip
              (mkLockWord 0 (2 ^ 32 - 1)) 1 Hn) as (Hd & _).
  exact Hd.
Defined.

Lemma park_unpark_reports_flag_witness :
  increment_num_waiters 1 Fair.holder_unlocks = Some (true, Fair.sleeper_counted)
  /\ park_announce true 1 1 Fair.sleeper_counted
     = Some (mkWaitNodeData 1 1 1, Fair.sleeper_announced)
  /\ folly_park 1 1 (mkWaitNodeData 1 1 1) (park_validate 1 1) Fair.sleeper_announced
     = Some (Unpark, Fair.handed_over)
  /\ park_denounce true 1 Fair.handed_over = Some (tt, Fair.awake)
  /\ park true folly_park 1 1 Fair.holder_unlocks
     = Some (PARKRES_LOCKED, Fair.awake).
Proof.
  assert (H1 : increment_num_waiters 1 Fair.holder_unlocks
               = Some (true, Fair.sleeper_counted)) by reflexivity.
  assert (H2 : park_announce true 1 1 Fair.sleeper_counted
               = Some (mkWaitNodeData 1 1 1, Fair.sleeper_announced))
    by reflexivity.
  assert (H3 : folly_park 1 1 (mkWaitNodeData 1 1 1) (park_validate 1 1)
                 Fair.sleeper_announced = Some (Unpark, Fair.handed_over))
    by reflexivity.
  assert (H4 : park_denounce true 1 Fair.handed_over = Some (tt, Fair.awake))
    by reflexivity.
  repeat (split; [assumption |]).
  destruct (FairMutexFacts.park_unpark_reports_flag true folly_park 1 1
              _ _ _ _ _ _ H1 H2 H3 H4) as (w' & Hp & Hw & _).
  change (deref (frame_of 1) (mem Fair.handed_over)) with false in Hp, Hw.
  cbv beta iota in Hp, Hw. subst w'. exact Hp.
Defined.

Lemma fair_lock_unlock_round_trip_witness :
  env Scenario.Fair.fresh_world = []
  /\ valid_thread 0
  /\ word_at 1 (mem Scenario.Fair.fresh_world) = Word.get_unlocked_word
  /\ exists w1 w2,
       lock true folly_park 1 0 1 Scenario.Fair.fresh_world
       = Some (LOCKED, w1)
       /\ unlock 1 1 w1 = Some (tt, w2)
       /\ word_at 1 (mem w2) = Word.get_unlocked_word.
Proof.
  assert (Hv : valid_thread 0) by (unfold valid_thread; simpl; lia).
  split; [reflexivity |]. split; [exact Hv |]. split; [reflexivity |].
  destruct (FairMutexFacts.fair_lock_unlock_round_trip true folly_park 0 0 1
              Scenario.Fair.fresh_world eq_refl Hv eq_refl)
    as (w1 & w2 & Hl & _ & _ & _ & Hu & Hw & _).
  exists w1, w2. auto.
Defined.

Lemma lock_sleeps_while_held_witness :
  env Scenario.Fair.held_by_0 = []
  /\ Word.is_locked (word_at 1 (mem Scenario.Fair.held_by_0)) = true
  /\ holder (word_at 1 (mem Scenario.Fair.held_by_0)) <> 1
  /\ lock true folly_park 3 1 1 Scenario.Fair.held_by_0 = None.
Proof.
  assert (Hl : Word.is_locked (word_at 1 (mem Scenario.Fair.held_by_0))
               = true) by reflexivity.
  assert (Hne : holder (word_at 1 (mem Scenario.Fair.held_by_0)) <> 1)
    by (vm_compute; discriminate).
  split; [reflexivity |]. split; [exact Hl |]. split; [exact Hne |].
  apply (FairMutexFacts.lock_sleeps_while_held true 3 1 1
           Scenario.Fair.held_by_0 eq_refl Hl Hne).
Defined.

Lemma lock_is_handed_the_mutex_witness :
  word_at 1 (mem Scenario.Fair.held_by_0) = mkLockWord 0 0
  /\ Word.is_locked (mkLockWord 0 0) = true
  /\ 0 <> 1
  /\ 0 <= 0 < 2 ^ 32 - 1
  /\ queue get_lot 1 (mem Scenario.Fair.held_by_0) = []
  /\ exists w',
       lock true folly_park 1 1 1
         (mkWorld (mem Scenario.Fair.held_by_0)
                  [id; id; id; id; Scenario.settled (unlock 1 1)])
       = Some (LOCKED, w')
       /\ word_at 1 (mem w') = mkLockWord 1 0.
Proof.
  assert (Hne : 0 <> 1) by lia.
  assert (H1 : word_at 1 (mem Scenario.Fair.held_by_0) = mkLockWord 0 0)
    by reflexivity.
  assert (H2 : Word.is_locked (mkLockWord 0 0) = true) by reflexivity.
  assert (H3 : queue get_lot 1 (mem Scenario.Fair.held_by_0) = [])
    by reflexivity.
  split; [exact H1 |]. split; [exact H2 |]. split; [exact Hne |].
  split; [lia |]. split; [exact H3 |].
  destruct (FairMutexFacts.lock_is_handed_the_mutex true 0 0 1 0 1 0
              (mem Scenario.Fair.held_by_0) H1 H2 Hne ltac:(lia) H3)
    as (w' & Hl & Hw & _).
  exists w'. auto.
Defined.

Lemma unlock_releases_or_hands_over_witness :
  unlock 1 1 Scenario.Fair.one_sleeper
  = Some (tt, handed_off 1 1 [] Scenario.Fair.one_sleeper)
  /\ exists w0,
       FairOrder.passes 1 Scenario.Fair.one_sleeper w0
       /\ ((Word.has_waiters (word_at 1 (mem w0)) = false
            /\ word_at 1 (mem (moved w0)) = word_at 1 (mem w0)
            /\ handed_off 1 1 [] Scenario.Fair.one_sleeper
               = mkWorld (store_word 1 Word.get_unlocked_word
                            (mem (moved w0))) (env (moved w0)))
           \/ (Word.has_waiters (word_at 1 (mem w0)) = true
               /\ exists nd rest (n : nat),
                    queue get_lot 1 (mem (moved w0)) = nd :: rest
                    /\ handed_off 1 1 [] Scenario.Fair.one_sleeper
                       = handed_off 1 (tid (data nd)) rest
                           (Nat.iter n moved (moved w0)))).
Proof.
  assert (Hu : unlock 1 1 Scenario.Fair.one_sleeper
               = Some (tt, handed_off 1 1 [] Scenario.Fair.one_sleeper))
    by (vm_compute; reflexivity).
  split; [exact Hu |].
  apply (FairMutexFacts.unlock_releases_or_hands_over 1 1 _ _ Hu).
Defined.

Lemma unlock_waits_for_counted_waiter_witness :
  env Scenario.Fair.registered = []
  /\ Word.has_waiters (word_at 1 (mem Scenario.Fair.registered)) = true
  /\ queue get_lot 1 (mem Scenario.Fair.registered) = []
  /\ unlock 5 1 Scenario.Fair.registered = None.
Proof.
  split; [reflexivity |]. split; [reflexivity |]. split; [reflexivity |].
  apply (FairMutexFacts.unlock_waits_for_counted_waiter 5 1
           Scenario.Fair.registered eq_refl eq_refl eq_refl).
Defined.

Lemma waiters_are_served_in_order_witness :
  env Fair.two_sleepers = []
  /\ num_waiters (word_at 1 (mem Fair.two_sleepers))
     = Z.of_nat (length (queue get_lot 1 (mem Fair.two_sleepers)))
  /\ Z.of_nat (length (queue get_lot 1 (mem Fair.two_sleepers))) < 2 ^ 32
  /\ exists w',
       FairOrder.hand_overs 1 2 1 Fair.two_sleepers = Some ([1; 2], w').
Proof.
  assert (H1 : num_waiters (word_at 1 (mem Fair.two_sleepers))
               = Z.of_nat (length (queue get_lot 1 (mem Fair.two_sleepers))))
    by reflexivity.
  assert (H2 : Z.of_nat (length (queue get_lot 1 (mem Fair.two_sleepers)))
               < 2 ^ 32) by (vm_compute; reflexivity).
  split; [reflexivity |]. split; [exact H1 |]. split; [exact H2 |].
  destruct (FairMutexFacts.waiters_are_served_in_order 0 1 _
              Fair.two_sleepers eq_refl eq_refl H1 H2) as (w' & Hh & _).
  exists w'. exact Hh.
Defined.

Import DeadlockDetector FairWaitGraph.

Lemma gather_records_the_sleepers_witness :
  env (Scenario.Fair.cycle 11) = []
  /\ exists d w',
       gather_waiters_and_holders_info (mkDetector ∅ ∅) (Scenario.Fair.cycle 11)
       = Some (d, w')
       /\ gathered_from (mem (Scenario.Fair.cycle 11)) d.
Proof.
  split; [reflexivity |].
  destruct (FairMutexFacts.gather_records_the_sleepers (mkDetector ∅ ∅)
              (Scenario.Fair.cycle 11) eq_refl)
    as (d & w' & Hg & _ & _ & Hd).
  exists d, w'. auto.
Defined.

Lemma detect_lock_cycle_is_closed_witness :
  detect_lock_cycle 0 10 Scenario.Fair.gathered (Scenario.Fair.cycle 11)
  = Some (([(0, 10); (1, 11)], Scenario.Fair.gathered), Scenario.Fair.cycle 11)
  /\ ([(0, 10); (1, 11)] = [] \/ In (0, 10) [(0, 10); (1, 11)]).
Proof.
  assert (Hd : detect_lock_cycle 0 10 Scenario.Fair.gathered
                 (Scenario.Fair.cycle 11)
               = Some (([(0, 10); (1, 11)], Scenario.Fair.gathered),
                       Scenario.Fair.cycle 11))
    by (vm_compute; reflexivity).
  split; [exact Hd |].
  destruct (FairMutexFacts.detect_lock_cycle_is_closed _ _ _ _ _ _ _ Hd)
    as (_ & [He | (Hin & _)]); [left; exact He | right; exact Hin].
Defined.

Lemma verify_wakes_first_match_witness :
  [(0, 10); (1, 11)] <> []
  /\ exists d' w',
       verify_lock_cycle [(0, 10); (1, 11)] Scenario.Fair.gathered
         (Scenario.Fair.cycle 11) = Some ((true, d'), w')
       /\ queue get_lot 10 (mem w') = [].
Proof.
  assert (Hne : [(0, 10); (1, 11)] <> ([] : list (Z * Z))) by discriminate.
  split; [exact Hne |].
  destruct (proj2 (FairMutexFacts.verify_wakes_first_match
                     [(0, 10); (1, 11)] Scenario.Fair.gathered
                     (Scenario.Fair.cycle 11) Hne)
              [] (mkNode 0 (mkWaitNodeData 0 1 0)) [])
    as (d' & w' & Hv & Hq & _).
  - reflexivity.
  - constructor.
  - reflexivity.
  - exists d', w'. split; [exact Hv | exact Hq].
Defined.

Lemma staggered_lot_ok : lot_ok (mem Fair.staggered).
Proof.
  intros key nd Hin.
  apply (proj2 (proj1 (Witness.cycle_world_ok 11)) key nd). exact Hin.
Qed.

Lemma run_wakes_only_a_deadlocked_thread_witness :
  env Fair.staggered = []
  /\ lot_ok (mem Fair.staggered)
  /\ run (mkDetector ∅ ∅) Fair.staggered
     = Some ((true, Scenario.Fair.gathered), Fair.staggered_woken)
  /\ exists lockcycle cyc nd,
       deadlocked (mem Fair.staggered) lockcycle
       /\ wait_cycle (mem Fair.staggered) cyc
       /\ (forall x, In x cyc -> In x lockcycle)
       /\ count (tid (data nd)) lockcycle = true
       /\ deref (is_dead_locked (data nd)) (mem Fair.staggered_woken) = true.
Proof.
  assert (Hr : run (mkDetector ∅ ∅) Fair.staggered
               = Some ((true, Scenario.Fair.gathered), Fair.staggered_woken))
    by (vm_compute; reflexivity).
  split; [reflexivity |]. split; [exact staggered_lot_ok |].
  split; [exact Hr |].
  destruct (FairMutexFacts.run_wakes_only_a_deadlocked_thread
              (mkDetector ∅ ∅) Scenario.Fair.gathered
              Fair.staggered Fair.staggered_woken
              eq_refl staggered_lot_ok Hr)
    as (lc & cyc & key & pre & nd & post & Hdead & _ & Hcyc & Hincl
        & _ & _ & _ & Hcount & _ & Hflag).
  exists lc, cyc, nd. split; [exact Hdead |]. split; [exact Hcyc |].
  split; [exact Hincl |]. split; [exact Hcount | exact Hflag].
Defined.

(** In [Fair.staggered] the pass wakes thread 1, the later of the two,
    in whichever order it visits the waiters it gathered. *)
Example staggered_victim_in_any_order :
  Forall (fun ws =>
            exists d',
              run_loop ws Scenario.Fair.gathered Fair.staggered
              = Some ((true, d'), Fair.staggered_woken))
         (permutations (map_to_list (waiters Scenario.Fair.gathered))).
Proof.
  apply Forall_forall. intros ws Hws. vm_compute in Hws.
  repeat (apply elem_of_cons in Hws; destruct Hws as [-> | Hws];
          [eexists; vm_compute; reflexivity |]).
  inversion Hws.
Qed.

(** The thread [run] wakes need not be on the cycle.  In
    [Fair.queued_behind] threads 0 and 1 are the cycle; thread 2, which
    holds no mutex, waits for mutex 10 and was the last to begin its
    wait.  The walk that starts at thread 2 leads into the cycle, and
    [run] wakes thread 2 and leaves the two threads of the cycle
    asleep. *)
Example run_can_wake_a_thread_behind_the_cycle :
  wait_cycle (mem Fair.queued_behind) [(1, 11); (0, 10)]
  /\ deadlocked (mem Fair.queued_behind) [(2, 10); (1, 11); (0, 10)]
  /\ (forall l, holder (word_at l (mem Fair.queued_behind)) <> 2)
  /\ exists d1 w1 d' w',
       gather_waiters_and_holders_info (mkDetector ∅ ∅) Fair.queued_behind
       = Some (d1, w1)
       /\ detect_lock_cycle 2 10 d1 w1
          = Some (([(2, 10); (1, 11); (0, 10)], d1), w1)
       /\ run (mkDetector ∅ ∅) Fair.queued_behind = Some ((true, d'), w')
       /\ deref 2 (mem w') = true
       /\ deref 1 (mem w') = false
       /\ deref 0 (mem w') = false
       /\ queue get_lot 10 (mem w') = [mkNode 0 (mkWaitNodeData 0 1 0)]
       /\ queue get_lot 11 (mem w') = [mkNode 1 (mkWaitNodeData 1 1 1)].
Proof.
  split; [split; [discriminate | repeat split] |].
  split.
  { intros t l [[= <- <-] | [[= <- <-] | [[= <- <-] | []]]];
      (split; [unfold valid_thread; simpl; lia |]);
      (split; [split; reflexivity | reflexivity]). }
  split.
  { intros l. unfold word_at. simpl. rewrite lookup_insert.
    destruct (decide (10 = l)) as [_ | _]; [simpl; lia |].
    rewrite lookup_insert.
    destruct (decide (11 = l)) as [_ | _]; [simpl; lia |].
    rewrite lookup_empty. simpl. lia. }
  do 4 eexists. split; [vm_compute; reflexivity |].
  repeat split; vm_compute; reflexivity.
Qed.

Lemma detect_deadlocks_idle_witness :
  (forall t, valid_thread t ->
     waiting_on (wait_info t (mem Scenario.Fair.held_by_0)) = nullptr)
  /\ detect_deadlocks 1 Scenario.Fair.held_by_0
     = Some (0, Scenario.Fair.held_by_0).
Proof.
  assert (Hidle : forall t, valid_thread t ->
            waiting_on (wait_info t (mem Scenario.Fair.held_by_0)) = nullptr)
    by (intros t _; reflexivity).
  split; [exact Hidle |].
  apply (FairMutexFacts.detect_deadlocks_idle 0 _ Hidle).
Defined.

End FactsWitness.
